(** * Camera identity and photo authentication codec

    A shallow embedding of the Python scripts of the video-surveillance
    repository:

    - [script/autenticazioneCamera/generate_camera_id.py] ([generate_camera_id]),
    - [script/autenticazioneCamera/sign_photo.py] ([sign_photo],
      [load_credentials], [main]),
    - [script/autenticazioneCamera/get_camera_wallet.py] ([get_camera_info],
      [generate_camera_wallet], [save_private_key], [load_private_key],
      [get_wallet_from_camera_id], [save_wallet_from_api]),
    - [mqtt-go/decrypt_from_cid.py] ([parse_cid_file], [ipfs_cat],
      [pkcs7_unpad], [decrypt_aes_cbc], [main]).

    The scripts are thin layers over third-party libraries (pycryptodome,
    eth_abi, eth_utils, web3, eth_account, eth_keys).  The library functions
    the scripts call are modelled in modules named after the library, each as
    an executable function: Keccak-256, AES-128 in CBC mode, the hexadecimal
    codec, the packed ABI encoding, the EIP-191 message hash.  The elliptic
    curve backend of eth_keys is an interface ([ECCBackend]); its pure-Python
    implementation is given as an instance.

    Python values are modelled as follows: [bytes] is a list of bytes, [str]
    is a [string] holding the UTF-8 encoding of the text, [int] is [Z], an
    exception is a value of [exn], and a function that may raise returns a
    [result].  The messages of the exceptions the libraries raise are
    shortened; those of the scripts are kept.  [HexBytes.hex()] is the one of
    hexbytes 1.x, which writes no [0x] (the scripts add the prefix themselves
    where they need it).

    What a script reads from outside (a file, the answer of an API, a line
    typed at a prompt, the clock) is an argument of its model; what it does
    to the outside (a file written, a request sent) is part of the result.
    What the scripts print is not modelled. *)

From Stdlib Require Import String Ascii ZArith NArith Lia Bool List Morphisms.
From Stdlib Require DecimalString.
From Stdlib.Strings Require Import Byte.
From AAC_tactics Require Import AAC.
Import ListNotations.

(* ===================================================================== *)
(** * Part I: definitions *)
(* ===================================================================== *)

(** ** The Python runtime *)

Definition bytes : Type := list byte.

(** Exceptions, by class and message.  [binascii.Error] is a subclass of
    [ValueError] and is modelled as one; [EncodingError] stands for the
    exceptions of eth_abi ([EncodingTypeError], [ValueOutOfBounds]). *)
Inductive exn : Type :=
| ValueError (msg : string)
| TypeError (msg : string)
| EncodingError (msg : string)
| Exception (msg : string).

Inductive result (A : Type) : Type :=
| Ok (a : A)
| Raise (e : exn).

Arguments Ok {A} a.
Arguments Raise {A} e.

Definition bind {A B : Type} (m : result A) (f : A -> result B) : result B :=
  match m with
  | Ok a => f a
  | Raise e => Raise e
  end.

Notation "x <- m ;; k" := (bind m (fun x => k))
  (at level 61, m at next level, right associativity).

(** A dynamically typed argument: the scripts accept a hash or a key as a
    [str], as [bytes] or as an [int]. *)
Inductive pyval : Type :=
| PStr (s : string)
| PBytes (b : bytes)
| PInt (z : Z).

Definition byte_of_N (n : N) : byte :=
  match Byte.of_N (n mod 256) with
  | Some b => b
  | None => x00
  end.

Definition byte_of_nat (n : nat) : byte := byte_of_N (N.of_nat n).

Definition bxor (a b : byte) : byte :=
  byte_of_N (N.lxor (Byte.to_N a) (Byte.to_N b)).

Fixpoint bytes_eqb (a b : bytes) : bool :=
  match a, b with
  | [], [] => true
  | x :: a', y :: b' => Byte.eqb x y && bytes_eqb a' b'
  | _, _ => false
  end.

(** [data[-1]], when [data] is not empty. *)
Fixpoint last_byte (data : bytes) : option byte :=
  match data with
  | [] => None
  | [b] => Some b
  | _ :: rest => last_byte rest
  end.

(** [data[-n:]] for [n >= 1]: the start of the slice is clipped at 0. *)
Definition py_suffix (n : nat) (data : bytes) : bytes :=
  skipn (length data - n) data.

(** [data[:-n]] for [n >= 1]. *)
Definition py_drop_suffix (n : nat) (data : bytes) : bytes :=
  firstn (length data - n) data.

(** [s.encode("utf-8")]: a [str] is held as its UTF-8 bytes. *)
Definition utf8 (s : string) : bytes := list_byte_of_string s.

(** [str(n)] for a length. *)
Definition py_str_nat (n : nat) : string :=
  DecimalString.NilZero.string_of_uint (Nat.to_uint n).

Fixpoint string_repeat (c : ascii) (n : nat) : string :=
  match n with
  | O => EmptyString
  | S k => String c (string_repeat c k)
  end.

(** [s.zfill(width)] for a string without sign. *)
Definition zfill (width : nat) (s : string) : string :=
  (string_repeat "0" (width - String.length s) ++ s)%string.

(** Big-endian bytes of fixed width: [n.to_bytes(m, "big")] for [n < 256^m]. *)
Fixpoint be_bytes (m : nat) (n : N) : bytes :=
  match m with
  | O => []
  | S m' => byte_of_N (N.shiftr n (8 * N.of_nat m')) :: be_bytes m' n
  end.

(** [int.from_bytes(b, "big")]. *)
Definition big_endian_to_int (b : bytes) : N :=
  fold_left (fun acc x => (256 * acc + Byte.to_N x)%N) b 0%N.

(** ** Hexadecimal text (builtins, binascii, eth_utils) *)

Definition hexdigit (n : N) : ascii :=
  if (n <? 10)%N then ascii_of_N (48 + n) else ascii_of_N (87 + n).

(** [b.hex()]: two lower-case digits per byte, no prefix. *)
Fixpoint hex (b : bytes) : string :=
  match b with
  | [] => EmptyString
  | x :: rest =>
      String (hexdigit (Byte.to_N x / 16))
             (String (hexdigit (Byte.to_N x mod 16)) (hex rest))
  end.

(** The value of a hexadecimal digit of either case. *)
Definition hexval (c : ascii) : option N :=
  let n := N_of_ascii c in
  if ((48 <=? n) && (n <=? 57))%N then Some (n - 48)%N
  else if ((97 <=? n) && (n <=? 102))%N then Some (n - 87)%N
  else if ((65 <=? n) && (n <=? 70))%N then Some (n - 55)%N
  else None.

(** [binascii.unhexlify]. *)
Fixpoint unhexlify (s : string) : result bytes :=
  match s with
  | EmptyString => Ok []
  | String _ EmptyString => Raise (ValueError "Odd-length string")
  | String c1 (String c0 rest) =>
      match hexval c1, hexval c0 with
      | Some h, Some l =>
          r <- unhexlify rest ;; Ok (byte_of_N (16 * h + l) :: r)
      | _, _ => Raise (ValueError "Non-hexadecimal digit found")
      end
  end.

(** The [i]-th hexadecimal digit of [n], from the least significant. *)
Definition nibble (n : N) (i : nat) : N := (N.shiftr n (4 * N.of_nat i) mod 16)%N.

(** The [k] low digits of [n], most significant first. *)
Fixpoint hex_digits (k : nat) (n : N) : string :=
  match k with
  | O => EmptyString
  | S k' => String (hexdigit (nibble n k')) (hex_digits k' n)
  end.

(** The number of digits of [hex(n)]: at least one. *)
Definition hex_len (n : N) : nat := Nat.max 1 ((N.to_nat (N.size n) + 3) / 4).

(** [hex(n)] for [n >= 0]. *)
Definition py_hex (n : N) : string := ("0x" ++ hex_digits (hex_len n) n)%string.

Module eth_utils.

Definition is_0x_prefixed (s : string) : bool :=
  String.prefix "0x" s || String.prefix "0X" s.

Definition remove_0x_prefix (s : string) : string :=
  if is_0x_prefixed s then String.substring 2 (String.length s - 2) s else s.

Definition add_0x_prefix (s : string) : string :=
  if is_0x_prefixed s then s else ("0x" ++ s)%string.

Definition encode_hex (b : bytes) : string := add_0x_prefix (hex b).

Definition decode_hex (s : string) : result bytes :=
  unhexlify (remove_0x_prefix s).

(** [to_bytes(hexstr=s)]: a string of odd length gets a leading zero. *)
Definition to_bytes_hexstr (s : string) : result bytes :=
  if Nat.odd (String.length s)
  then decode_hex ("0x0" ++ remove_0x_prefix s)%string
  else decode_hex s.

End eth_utils.

(** ** Keccak-256 (eth_hash, as called by [Web3.keccak])

    The original Keccak with rate 1088 and capacity 512: padding byte 0x01,
    not the 0x06 of SHA3-256.  The state is the list of the 25 lanes, the lane
    at column [x] and row [y] at index [x + 5 * y]. *)

Module Keccak.
Local Open Scope N_scope.

Definition mask64 : N := 0xFFFFFFFFFFFFFFFF.

Definition rotl64 (x n : N) : N :=
  N.land (N.lor (N.shiftl x n) (N.shiftr x (64 - n))) mask64.

Definition lane (st : list N) (x y : nat) : N := nth (x + 5 * y)%nat st 0.

Definition rotation_offsets : list N :=
  [ 0;  1; 62; 28; 27;
   36; 44;  6; 55; 20;
    3; 10; 43; 25; 39;
   41; 45; 15; 21;  8;
   18;  2; 61; 56; 14].

Definition round_constants : list N :=
  [0x0000000000000001; 0x0000000000008082; 0x800000000000808A;
   0x8000000080008000; 0x000000000000808B; 0x0000000080000001;
   0x8000000080008081; 0x8000000000008009; 0x000000000000008A;
   0x0000000000000088; 0x0000000080008009; 0x000000008000000A;
   0x000000008000808B; 0x800000000000008B; 0x8000000000008089;
   0x8000000000008003; 0x8000000000008002; 0x8000000000000080;
   0x000000000000800A; 0x800000008000000A; 0x8000000080008081;
   0x8000000000008080; 0x0000000080000001; 0x8000000080008008].

Definition coords : list (nat * nat) :=
  flat_map (fun y => map (fun x => (x, y)) (seq 0 5)) (seq 0 5).

Definition theta (st : list N) : list N :=
  let c := map (fun x => fold_left N.lxor (map (lane st x) (seq 0 5)) 0) (seq 0 5) in
  let d := map (fun x => N.lxor (nth ((x + 4) mod 5)%nat c 0)
                                (rotl64 (nth ((x + 1) mod 5)%nat c 0) 1))
               (seq 0 5) in
  map (fun xy => N.lxor (lane st (fst xy) (snd xy)) (nth (fst xy) d 0)) coords.

(** rho and pi together: the lane that ends at [(X, Y)] is the rotated lane
    of [(x, y)] with [X = y] and [Y = 2x + 3y], that is [x = X + 3Y], [y = X]. *)
Definition rho_pi (st : list N) : list N :=
  map (fun XY =>
         let x := ((fst XY + 3 * snd XY) mod 5)%nat in
         let y := fst XY in
         rotl64 (lane st x y) (nth (x + 5 * y)%nat rotation_offsets 0))
      coords.

Definition chi (st : list N) : list N :=
  map (fun xy =>
         let x := fst xy in
         let y := snd xy in
         N.lxor (lane st x y)
                (N.land (N.lxor (lane st ((x + 1) mod 5)%nat y) mask64)
                        (lane st ((x + 2) mod 5)%nat y)))
      coords.

Definition iota (rc : N) (st : list N) : list N :=
  match st with
  | [] => []
  | a :: rest => N.lxor a rc :: rest
  end.

Definition round (st : list N) (rc : N) : list N :=
  iota rc (chi (rho_pi (theta st))).

Definition keccak_f (st : list N) : list N := fold_left round round_constants st.

(** The rate in bytes. *)
Definition rate : nat := 136.

Fixpoint le_to_N (b : bytes) : N :=
  match b with
  | [] => 0
  | x :: rest => Byte.to_N x + 256 * le_to_N rest
  end.

Definition N_to_le8 (n : N) : bytes :=
  map (fun i => byte_of_N (N.shiftr n (8 * N.of_nat i))) (seq 0 8).

(** [chunks fuel k b]: [b] cut in pieces of [k] bytes, at most [fuel] of them. *)
Fixpoint chunks (fuel k : nat) (b : bytes) : list bytes :=
  match fuel with
  | O => []
  | S f =>
      match b with
      | [] => []
      | _ => firstn k b :: chunks f k (skipn k b)
      end
  end.

Definition pad (data : bytes) : bytes :=
  let q := (rate - length data mod rate)%nat in
  if (q =? 1)%nat then data ++ [x81]
  else data ++ [x01] ++ repeat x00 (q - 2) ++ [x80].

Definition absorb (st : list N) (block : bytes) : list N :=
  let lanes := map le_to_N (chunks 17 8 block) in
  keccak_f (map (fun i => N.lxor (nth i st 0) (nth i lanes 0)) (seq 0 25)).

Definition squeeze (st : list N) : bytes :=
  flat_map (fun i => N_to_le8 (nth i st 0)) (seq 0 4).

Definition keccak256 (data : bytes) : bytes :=
  let p := pad data in
  squeeze (fold_left absorb (chunks (length p) rate p) (repeat 0 25)).

End Keccak.

(** ** AES-128 and the CBC mode (pycryptodome, [Crypto.Cipher.AES])

    The block cipher of FIPS 197 for 128-bit keys.  The state is the four
    columns of four bytes each. *)

Module AES.
Local Open Scope N_scope.

Definition xtime (b : byte) : byte :=
  let y := 2 * Byte.to_N b in
  byte_of_N (if y <? 256 then y else N.lxor y 0x11b).

Definition mul2 (b : byte) : byte := xtime b.
Definition mul3 (b : byte) : byte := bxor (xtime b) b.
Definition mul9 (b : byte) : byte := bxor (xtime (xtime (xtime b))) b.
Definition mul11 (b : byte) : byte :=
  bxor (bxor (xtime (xtime (xtime b))) (xtime b)) b.
Definition mul13 (b : byte) : byte :=
  bxor (bxor (xtime (xtime (xtime b))) (xtime (xtime b))) b.
Definition mul14 (b : byte) : byte :=
  bxor (bxor (xtime (xtime (xtime b))) (xtime (xtime b))) (xtime b).

(** Multiplication in GF(2^8), by shift and add over the bits of [b]. *)
Fixpoint gmul_bits (n : nat) (a b : byte) : byte :=
  match n with
  | O => x00
  | S k => bxor (if N.odd (Byte.to_N b) then a else x00)
                (gmul_bits k (xtime a) (byte_of_N (Byte.to_N b / 2)))
  end.

Definition gmul : byte -> byte -> byte := gmul_bits 8.

(** The inverse as the 254th power (0 is sent to 0). *)
Definition ginv (a : byte) : byte :=
  let a2 := gmul a a in
  let a4 := gmul a2 a2 in
  let a8 := gmul a4 a4 in
  let a16 := gmul a8 a8 in
  let a32 := gmul a16 a16 in
  let a64 := gmul a32 a32 in
  let a128 := gmul a64 a64 in
  gmul a128 (gmul a64 (gmul a32 (gmul a16 (gmul a8 (gmul a4 a2))))).

Definition rotl8 (b : byte) (k : N) : byte :=
  let n := Byte.to_N b in
  byte_of_N (N.lor (N.shiftl n k) (N.shiftr n (8 - k))).

Definition sbox_formula (b : byte) : byte :=
  let i := ginv b in
  bxor (bxor (bxor (bxor (bxor i (rotl8 i 1)) (rotl8 i 2)) (rotl8 i 3)) (rotl8 i 4)) x63.

Definition all_bytes : list byte := map byte_of_nat (seq 0 256).

Definition sbox_table : list byte := Eval vm_compute in map sbox_formula all_bytes.

Definition sbox (b : byte) : byte := nth (N.to_nat (Byte.to_N b)) sbox_table x00.

Definition inv_sbox_table : list byte :=
  Eval vm_compute in
    map (fun y => match find (fun x => Byte.eqb (sbox x) y) all_bytes with
                  | Some x => x
                  | None => x00
                  end) all_bytes.

Definition inv_sbox (b : byte) : byte :=
  nth (N.to_nat (Byte.to_N b)) inv_sbox_table x00.

Definition column : Type := byte * byte * byte * byte.
Definition state : Type := column * column * column * column.

Definition col_map (f : byte -> byte) (c : column) : column :=
  let '(a, b, c, d) := c in (f a, f b, f c, f d).

Definition col_xor (p q : column) : column :=
  let '(a, b, c, d) := p in
  let '(e, f, g, h) := q in
  (bxor a e, bxor b f, bxor c g, bxor d h).

Definition st_map (f : column -> column) (s : state) : state :=
  let '(a, b, c, d) := s in (f a, f b, f c, f d).

Definition add_round_key (s k : state) : state :=
  let '(a, b, c, d) := s in
  let '(e, f, g, h) := k in
  (col_xor a e, col_xor b f, col_xor c g, col_xor d h).

Definition sub_bytes : state -> state := st_map (col_map sbox).
Definition inv_sub_bytes : state -> state := st_map (col_map inv_sbox).

Definition shift_rows (s : state) : state :=
  let '((a0, a1, a2, a3), (b0, b1, b2, b3), (c0, c1, c2, c3), (d0, d1, d2, d3)) := s in
  ((a0, b1, c2, d3), (b0, c1, d2, a3), (c0, d1, a2, b3), (d0, a1, b2, c3)).

Definition inv_shift_rows (s : state) : state :=
  let '((a0, a1, a2, a3), (b0, b1, b2, b3), (c0, c1, c2, c3), (d0, d1, d2, d3)) := s in
  ((a0, d1, c2, b3), (b0, a1, d2, c3), (c0, b1, a2, d3), (d0, c1, b2, a3)).

Definition mix_column (c : column) : column :=
  let '(a, b, c, d) := c in
  (bxor (bxor (bxor (mul2 a) (mul3 b)) c) d,
   bxor (bxor (bxor a (mul2 b)) (mul3 c)) d,
   bxor (bxor (bxor a b) (mul2 c)) (mul3 d),
   bxor (bxor (bxor (mul3 a) b) c) (mul2 d)).

Definition inv_mix_column (c : column) : column :=
  let '(a, b, c, d) := c in
  (bxor (bxor (bxor (mul14 a) (mul11 b)) (mul13 c)) (mul9 d),
   bxor (bxor (bxor (mul9 a) (mul14 b)) (mul11 c)) (mul13 d),
   bxor (bxor (bxor (mul13 a) (mul9 b)) (mul14 c)) (mul11 d),
   bxor (bxor (bxor (mul11 a) (mul13 b)) (mul9 c)) (mul14 d)).

Definition mix_columns : state -> state := st_map mix_column.
Definition inv_mix_columns : state -> state := st_map inv_mix_column.

(** The key schedule for a 128-bit key, one round key from the previous one. *)
Definition next_round_key (rcon : byte) (k : state) : state :=
  let '(w0, w1, w2, w3) := k in
  let '(a, b, c, d) := w3 in
  let w4 := col_xor w0 (bxor (sbox b) rcon, sbox c, sbox d, sbox a) in
  let w5 := col_xor w1 w4 in
  let w6 := col_xor w2 w5 in
  let w7 := col_xor w3 w6 in
  (w4, w5, w6, w7).

Definition rcons : list byte := [x01; x02; x04; x08; x10; x20; x40; x80; x1b; x36].

Fixpoint expand (rc : list byte) (k : state) : list state :=
  match rc with
  | [] => []
  | r :: rest => let k' := next_round_key r k in k' :: expand rest k'
  end.

Definition key_expansion (k : state) : list state := expand rcons k.

Definition enc_round (s k : state) : state :=
  add_round_key (mix_columns (shift_rows (sub_bytes s))) k.

Definition enc_final (s k : state) : state :=
  add_round_key (shift_rows (sub_bytes s)) k.

Definition dec_round (s k : state) : state :=
  inv_sub_bytes (inv_shift_rows (inv_mix_columns (add_round_key s k))).

Definition dec_final (s k : state) : state :=
  inv_sub_bytes (inv_shift_rows (add_round_key s k)).

Definition cipher (k0 s : state) : state :=
  let ks := key_expansion k0 in
  enc_final (fold_left enc_round (removelast ks) (add_round_key s k0)) (last ks k0).

Definition inv_cipher (k0 s : state) : state :=
  let ks := key_expansion k0 in
  add_round_key
    (fold_left dec_round (rev (removelast ks)) (dec_final s (last ks k0))) k0.

Definition col_of (l : bytes) (i : nat) : column :=
  (nth i l x00, nth (i + 1) l x00, nth (i + 2) l x00, nth (i + 3) l x00).

Definition state_of_bytes (l : bytes) : state :=
  (col_of l 0, col_of l 4, col_of l 8, col_of l 12).

Definition bytes_of_col (c : column) : bytes :=
  let '(a, b, c, d) := c in [a; b; c; d].

Definition bytes_of_state (s : state) : bytes :=
  let '(a, b, c, d) := s in
  bytes_of_col a ++ bytes_of_col b ++ bytes_of_col c ++ bytes_of_col d.

Definition encrypt_block (key block : bytes) : bytes :=
  bytes_of_state (cipher (state_of_bytes key) (state_of_bytes block)).

Definition decrypt_block (key block : bytes) : bytes :=
  bytes_of_state (inv_cipher (state_of_bytes key) (state_of_bytes block)).

Definition block_size : nat := 16.

Fixpoint xor_bytes (a b : bytes) : bytes :=
  match a, b with
  | x :: a', y :: b' => bxor x y :: xor_bytes a' b'
  | _, _ => []
  end.

(** [blocks fuel b]: [b] cut in blocks of 16 bytes. *)
Fixpoint blocks (fuel : nat) (b : bytes) : list bytes :=
  match fuel with
  | O => []
  | S f =>
      match b with
      | [] => []
      | _ => firstn block_size b :: blocks f (skipn block_size b)
      end
  end.

(** The chaining of CBC over a block function. *)
Section Chaining.
Variable f : bytes -> bytes.

Fixpoint cbc_decrypt_blocks (prev : bytes) (cs : list bytes) : bytes :=
  match cs with
  | [] => []
  | c :: rest => xor_bytes (f c) prev ++ cbc_decrypt_blocks c rest
  end.

Fixpoint cbc_encrypt_blocks (prev : bytes) (ps : list bytes) : bytes :=
  match ps with
  | [] => []
  | p :: rest =>
      let c := f (xor_bytes p prev) in
      c ++ cbc_encrypt_blocks c rest
  end.

End Chaining.

(** The object [AES.new(key, AES.MODE_CBC, iv)] returns.  One call of
    [decrypt] is made on it, so its chaining state is the IV. *)
Record CbcMode : Type := { cbc_key : bytes; cbc_iv : bytes }.

(** [AES.new(key, AES.MODE_CBC, iv)] for a 128-bit key, the one key size
    [decrypt_aes_cbc] lets through (the library also takes 24 and 32 bytes). *)
Definition new_cbc (key iv : bytes) : result CbcMode :=
  if negb (length key =? 16)%nat
  then Raise (ValueError "Incorrect AES key length")
  else if negb (length iv =? block_size)%nat
  then Raise (ValueError "Incorrect IV length (it must be 16 bytes long)")
  else Ok {| cbc_key := key; cbc_iv := iv |}.

(** [cipher.decrypt(ciphertext)]. *)
Definition decrypt (c : CbcMode) (ciphertext : bytes) : result bytes :=
  if negb (length ciphertext mod block_size =? 0)%nat
  then Raise (ValueError "Data must be padded to 16 byte boundary in CBC mode")
  else Ok (cbc_decrypt_blocks (decrypt_block (cbc_key c)) (cbc_iv c)
             (blocks (length ciphertext) ciphertext)).

(** [cipher.encrypt(plaintext)]. *)
Definition encrypt (c : CbcMode) (plaintext : bytes) : result bytes :=
  if negb (length plaintext mod block_size =? 0)%nat
  then Raise (ValueError "Data must be padded to 16 byte boundary in CBC mode")
  else Ok (cbc_encrypt_blocks (encrypt_block (cbc_key c)) (cbc_iv c)
             (blocks (length plaintext) plaintext)).

End AES.

(** ** SHA-256 and HMAC (hashlib, hmac), used by the native signer *)

Module SHA256.
Local Open Scope N_scope.

Definition mask32 : N := 0xFFFFFFFF.
Definition add32 (a b : N) : N := N.land (a + b) mask32.
Definition rotr32 (x n : N) : N :=
  N.land (N.lor (N.shiftr x n) (N.shiftl x (32 - n))) mask32.

Definition first_primes : list N :=
  [2; 3; 5; 7; 11; 13; 17; 19; 23; 29; 31; 37; 41; 43; 47; 53; 59; 61; 67; 71;
   73; 79; 83; 89; 97; 101; 103; 107; 109; 113; 127; 131; 137; 139; 149; 151;
   157; 163; 167; 173; 179; 181; 191; 193; 197; 199; 211; 223; 227; 229; 233;
   239; 241; 251; 257; 263; 269; 271; 277; 281; 283; 293; 307; 311].

(** The integer cube root of [n], one bit at a time from bit [bits - 1]. *)
Fixpoint cbrt_bits (bits : nat) (n x : N) : N :=
  match bits with
  | O => x
  | S b =>
      let y := x + N.shiftl 1 (N.of_nat b) in
      cbrt_bits b n (if y * y * y <=? n then y else x)
  end.

(** The round constants: the first 32 bits of the fractional parts of the
    cube roots of the first 64 primes. *)
Definition K : list N :=
  Eval vm_compute in
    map (fun p => N.land (cbrt_bits 48 (N.shiftl p 96) 0) mask32) first_primes.

(** The initial hash value: the same of the square roots of the first 8 primes. *)
Definition H0 : list N :=
  Eval vm_compute in
    map (fun p => N.land (N.sqrt (N.shiftl p 64)) mask32) (firstn 8 first_primes).

Definition pad (data : bytes) : bytes :=
  let l := length data in
  data ++ [x80] ++ repeat x00 ((119 - l mod 64) mod 64)%nat
       ++ be_bytes 8 (8 * N.of_nat l).

Fixpoint words (fuel : nat) (b : bytes) : list N :=
  match fuel with
  | O => []
  | S f =>
      match b with
      | [] => []
      | _ => big_endian_to_int (firstn 4 b) :: words f (skipn 4 b)
      end
  end.

Definition ssig0 (x : N) : N := N.lxor (N.lxor (rotr32 x 7) (rotr32 x 18)) (N.shiftr x 3).
Definition ssig1 (x : N) : N := N.lxor (N.lxor (rotr32 x 17) (rotr32 x 19)) (N.shiftr x 10).
Definition bsig0 (x : N) : N := N.lxor (N.lxor (rotr32 x 2) (rotr32 x 13)) (rotr32 x 22).
Definition bsig1 (x : N) : N := N.lxor (N.lxor (rotr32 x 6) (rotr32 x 11)) (rotr32 x 25).
Definition ch (x y z : N) : N := N.lxor (N.land x y) (N.land (N.lxor x mask32) z).
Definition maj (x y z : N) : N :=
  N.lxor (N.lxor (N.land x y) (N.land x z)) (N.land y z).

(** The message schedule, the most recent word first. *)
Fixpoint schedule (n : nat) (rw : list N) : list N :=
  match n with
  | O => rw
  | S k =>
      schedule k (add32 (add32 (ssig1 (nth 1 rw 0)) (nth 6 rw 0))
                        (add32 (ssig0 (nth 14 rw 0)) (nth 15 rw 0)) :: rw)
  end.

Definition step (st : list N) (kw : N * N) : list N :=
  match st with
  | [a; b; c; d; e; f; g; h] =>
      let t1 := add32 (add32 (add32 h (bsig1 e)) (add32 (ch e f g) (fst kw))) (snd kw) in
      let t2 := add32 (bsig0 a) (maj a b c) in
      [add32 t1 t2; a; b; c; add32 d t1; e; f; g]
  | _ => st
  end.

Definition compress (h : list N) (block : bytes) : list N :=
  let w := rev (schedule 48 (rev (words 16 block))) in
  map (fun p => add32 (fst p) (snd p)) (combine h (fold_left step (combine K w) h)).

Definition sha256 (data : bytes) : bytes :=
  let p := pad data in
  flat_map (be_bytes 4) (fold_left compress (Keccak.chunks (length p) 64 p) H0).

Definition hmac (key msg : bytes) : bytes :=
  let k := if (64 <? length key)%nat then sha256 key else key in
  let k := k ++ repeat x00 (64 - length k) in
  sha256 (map (bxor x5c) k ++ sha256 (map (bxor x36) k ++ msg)).

End SHA256.

(** ** The elliptic curve backend of eth_keys

    eth_keys signs through a backend object ([BaseECCBackend]); which one is
    used depends on the installation (coincurve when present, else the
    pure-Python one).  [sign_photo] reaches it through [Account.from_key]
    and [Account.sign_message]. *)

(** The order of the group of secp256k1 ([SECPK1_N]). *)
Definition SECPK1_N : Z :=
  0xFFFFFFFFFFFFFFFFFFFFFFFFFFFFFFFEBAAEDCE6AF48A03BBFD25E8CD0364141.

(** A secret scalar of the curve: bytes that read, big-endian, as a number
    from 1 to [SECPK1_N - 1].  The key 0 and the keys from the order of the
    group on are no private keys. *)
Definition is_secret_scalar (private_key : bytes) : bool :=
  let n := Z.of_N (big_endian_to_int private_key) in
  ((0 <? n) && (n <? SECPK1_N))%Z.

Class ECCBackend : Type := {
  (** [ecdsa_sign(msg_hash, private_key)]: the triple (v, r, s), v in 0..1. *)
  ecdsa_sign : bytes -> bytes -> result (N * N * N);
  (** [private_key_to_public_key(private_key)]: the 64 bytes x, y. *)
  private_key_to_public_key : bytes -> result bytes
}.

(** The pure-Python backend ([eth_keys.backends.native]). *)
Module native.
Local Open Scope Z_scope.

Definition P : Z := 2 ^ 256 - 2 ^ 32 - 977.
Definition N : Z :=
  0xFFFFFFFFFFFFFFFFFFFFFFFFFFFFFFFEBAAEDCE6AF48A03BBFD25E8CD0364141.
Definition Gx : Z :=
  0x79BE667EF9DCBBAC55A06295CE870B07029BFCDB2DCE28D959F2815B16F81798.
Definition Gy : Z :=
  0x483ADA7726A3C4655DA4FBFC0E1108A8FD17B448A68554199C47D08FFB10D4B8.

Definition jacobian : Type := Z * Z * Z.

(** The loop of [inv]: extended Euclid. *)
Fixpoint inv_loop (fuel : nat) (lm hm low high : Z) : Z :=
  match fuel with
  | O => lm
  | S f =>
      if 1 <? low
      then let r := high / low in inv_loop f (hm - lm * r) lm (high - low * r) low
      else lm
  end.

Definition inv (a n : Z) : Z :=
  if a =? 0 then 0 else inv_loop 1024 1 0 (a mod n) n mod n.

Definition to_jacobian (p : Z * Z) : jacobian := (fst p, snd p, 1).

Definition jacobian_double (p : jacobian) : jacobian :=
  let '(x, y, z) := p in
  if y =? 0 then (0, 0, 0)
  else
    let ysq := y ^ 2 mod P in
    let S := 4 * x * ysq mod P in
    let M := 3 * x ^ 2 mod P in
    let nx := (M ^ 2 - 2 * S) mod P in
    let ny := (M * (S - nx) - 8 * ysq ^ 2) mod P in
    let nz := 2 * y * z mod P in
    (nx, ny, nz).

Definition jacobian_add (p q : jacobian) : jacobian :=
  let '(px, py, pz) := p in
  let '(qx, qy, qz) := q in
  if py =? 0 then q
  else if qy =? 0 then p
  else
    let U1 := px * qz ^ 2 mod P in
    let U2 := qx * pz ^ 2 mod P in
    let S1 := py * qz ^ 3 mod P in
    let S2 := qy * pz ^ 3 mod P in
    if U1 =? U2
    then (if negb (S1 =? S2) then (0, 0, 1) else jacobian_double p)
    else
      let H := U2 - U1 in
      let R := S2 - S1 in
      let H2 := H * H mod P in
      let H3 := H * H2 mod P in
      let U1H2 := U1 * H2 mod P in
      let nx := (R ^ 2 - H3 - 2 * U1H2) mod P in
      let ny := (R * (U1H2 - nx) - S1 * H3) mod P in
      let nz := H * pz * qz mod P in
      (nx, ny, nz).

Definition from_jacobian (p : jacobian) : Z * Z :=
  let '(x, y, z) := p in
  let zi := inv z P in
  (x * zi ^ 2 mod P, y * zi ^ 3 mod P).

Fixpoint jacobian_multiply_pos (a : jacobian) (n : positive) : jacobian :=
  match n with
  | xH => a
  | xO m => jacobian_double (jacobian_multiply_pos a m)
  | xI m => jacobian_add (jacobian_double (jacobian_multiply_pos a m)) a
  end.

Definition jacobian_multiply (a : jacobian) (n : Z) : jacobian :=
  let '(_, y, _) := a in
  if (y =? 0) || (n =? 0) then (0, 0, 1)
  else
    match (if (n <? 0) || (N <=? n) then n mod N else n) with
    | Zpos m => jacobian_multiply_pos a m
    | _ => (0, 0, 1)
    end.

Definition fast_multiply (a : Z * Z) (n : Z) : Z * Z :=
  from_jacobian (jacobian_multiply (to_jacobian a) n).

Definition int_of (b : bytes) : Z := Z.of_N (big_endian_to_int b).
Definition pad32 (z : Z) : bytes := be_bytes 32 (Z.to_N z).

Definition deterministic_generate_k (msg_hash private_key : bytes) : Z :=
  let v0 := repeat x01 32 in
  let k0 := repeat x00 32 in
  let k1 := SHA256.hmac k0 (v0 ++ [x00] ++ private_key ++ msg_hash) in
  let v1 := SHA256.hmac k1 v0 in
  let k2 := SHA256.hmac k1 (v1 ++ [x01] ++ private_key ++ msg_hash) in
  let v2 := SHA256.hmac k2 v1 in
  int_of (SHA256.hmac k2 v2).

Definition ecdsa_raw_sign (msg_hash private_key : bytes) : Z * Z * Z :=
  let z := int_of msg_hash in
  let k := deterministic_generate_k msg_hash private_key in
  let '(r, y) := fast_multiply (Gx, Gy) k in
  let s_raw := inv k N * (z + r * int_of private_key) mod N in
  let high := negb (s_raw * 2 <? N) in
  let v := 27 + Z.lxor (y mod 2) (if high then 1 else 0) in
  let s := if high then N - s_raw else s_raw in
  (v - 27, r, s).

Fixpoint pow_mod_pos (b : Z) (e : positive) (m : Z) : Z :=
  match e with
  | xH => b mod m
  | xO e' => let t := pow_mod_pos b e' m in t * t mod m
  | xI e' => let t := pow_mod_pos b e' m in t * t mod m * b mod m
  end.

(** [ecdsa_raw_recover]: the public key (x, y) a signature was made with. *)
Definition ecdsa_raw_recover (msg_hash : bytes) (vrs : Z * Z * Z) : result (Z * Z) :=
  let '(v0, r, s) := vrs in
  let v := v0 + 27 in
  let x := r in
  let xcubedaxb := (x * x * x + 7) mod P in
  let beta := match (P + 1) / 4 with
              | Zpos e => pow_mod_pos xcubedaxb e P
              | _ => 1
              end in
  let y := if negb (Z.lxor (v mod 2) (beta mod 2) =? 0) then beta else P - beta in
  if negb ((xcubedaxb - y * y) mod P =? 0) || (r mod N =? 0) || (s mod N =? 0)
  then Raise (Exception "Invalid signature")
  else
    let z := int_of msg_hash in
    let Gz := jacobian_multiply (Gx, Gy, 1) ((N - z) mod N) in
    let XY := jacobian_multiply (x, y, 1) s in
    let Qr := jacobian_add Gz XY in
    Ok (from_jacobian (jacobian_multiply Qr (inv r N))).

(** [private_key_to_public_key]: only a secret scalar has a public key. *)
Definition public_key_of (private_key : bytes) : result bytes :=
  let n := int_of private_key in
  if (n <=? 0) || (N <=? n) then Raise (Exception "Invalid privkey")
  else let '(x, y) := fast_multiply (Gx, Gy) n in Ok (pad32 x ++ pad32 y).

Definition backend : ECCBackend :=
  {| ecdsa_sign := fun msg_hash private_key =>
       Ok (let '(v, r, s) := ecdsa_raw_sign msg_hash private_key in
           (Z.to_N v, Z.to_N r, Z.to_N s));
     private_key_to_public_key := public_key_of |}.

End native.

(** ** The packed ABI encoding (eth_abi.packed)

    The type strings the scripts pass: ['string'], ['bytes32'], ['uint256']. *)

Inductive abi_type : Type :=
| abi_string
| abi_bytes32
| abi_uint256.

Module eth_abi.

Definition encode_value (t : abi_type) (v : pyval) : result bytes :=
  match t, v with
  | abi_string, PStr s => Ok (utf8 s)
  | abi_bytes32, PBytes b =>
      if (length b <=? 32)%nat then Ok (b ++ repeat x00 (32 - length b))
      else Raise (EncodingError "Value exceeds the byte size of bytes32")
  | abi_uint256, PInt z =>
      if ((0 <=? z) && (z <? 2 ^ 256))%Z then Ok (be_bytes 32 (Z.to_N z))
      else Raise (EncodingError "Value cannot be encoded in 256 bits")
  | _, _ => Raise (EncodingError "Value is not of the Python type the ABI type expects")
  end.

Fixpoint encode_values (tvs : list (abi_type * pyval)) : result bytes :=
  match tvs with
  | [] => Ok []
  | (t, v) :: rest =>
      b <- encode_value t v ;;
      r <- encode_values rest ;;
      Ok (b ++ r)
  end.

(** [encode_packed(types, args)]. *)
Definition encode_packed (types : list abi_type) (args : list pyval) : result bytes :=
  if negb (length types =? length args)%nat
  then Raise (EncodingError "Mismatch between the numbers of types and of values")
  else encode_values (combine types args).

End eth_abi.

(** ** web3: [Web3.keccak] and [Web3.solidity_keccak] *)

Module Web3.

(** [Web3.keccak(primitive)] on [bytes]. *)
Definition keccak (primitive : bytes) : bytes := Keccak.keccak256 primitive.

(** [Web3.keccak(hexstr=s)]. *)
Definition keccak_hexstr (hexstr : string) : result bytes :=
  b <- eth_utils.to_bytes_hexstr hexstr ;; Ok (Keccak.keccak256 b).

Definition validate_abi_value (t : abi_type) (v : pyval) : result unit :=
  match t, v with
  | abi_uint256, PInt z =>
      if (0 <=? z)%Z then Ok tt
      else Raise (TypeError "The value is not accepted for the type uint256")
  | abi_bytes32, PBytes _ => Ok tt
  | abi_bytes32, PStr s =>
      if eth_utils.is_0x_prefixed s then Ok tt
      else Raise (TypeError "ABI values of abi-type 'bytes' must be either a python3 'bytes' object or an '0x' prefixed string.")
  | abi_string, PStr _ => Ok tt
  | abi_string, PBytes _ => Ok tt
  | _, _ => Raise (TypeError "The value is not accepted for the ABI type")
  end.

(** [pad_hex(value, bit_size)]: zeros are added, nothing is cut. *)
Definition pad_hex (value : string) (bit_size : nat) : string :=
  eth_utils.add_0x_prefix (zfill (bit_size / 4) (eth_utils.remove_0x_prefix value)).

Definition hex_encode_abi_type (t : abi_type) (v : pyval) : result string :=
  _ <- validate_abi_value t v ;;
  match t, v with
  | abi_uint256, PInt z => Ok (pad_hex (py_hex (Z.to_N z)) 256)
  | abi_bytes32, PBytes b => Ok (eth_utils.encode_hex b)
  | abi_bytes32, PStr s => Ok s
  | abi_string, PStr s => Ok (eth_utils.encode_hex (utf8 s))
  | _, _ => Raise (Exception "AttributeError: the value has no attribute 'encode'")
  end.

Fixpoint hex_encode_all (tvs : list (abi_type * pyval)) : result string :=
  match tvs with
  | [] => Ok EmptyString
  | (t, v) :: rest =>
      h <- hex_encode_abi_type t v ;;
      r <- hex_encode_all rest ;;
      Ok (eth_utils.remove_0x_prefix h ++ r)%string
  end.

(** [Web3.solidity_keccak(abi_types, values)]. *)
Definition solidity_keccak (abi_types : list abi_type) (values : list pyval) : result bytes :=
  if negb (length abi_types =? length values)%nat
  then Raise (ValueError "Length mismatch between provided abi types and values")
  else
    joined <- hex_encode_all (combine abi_types values) ;;
    keccak_hexstr (eth_utils.add_0x_prefix joined).

End Web3.

(** ** eth_account: keys, EIP-191 messages, signing *)

Module eth_account.

Record LocalAccount : Type := { key : bytes; address : string }.

Record SignableMessage : Type := { version : bytes; header : bytes; body : bytes }.

Record SignedMessage : Type := {
  messageHash : bytes;
  sig_r : N;
  sig_s : N;
  sig_v : N;
  signature : bytes
}.

(** [hexstr_to_bytes] of [HexBytes]. *)
Definition hexstr_to_bytes (hexstr : string) : result bytes :=
  let non_prefixed :=
    if String.prefix "0x" hexstr || String.prefix "0X" hexstr
    then String.substring 2 (String.length hexstr - 2) hexstr
    else hexstr in
  unhexlify (if Nat.odd (String.length hexstr)
             then String "0" non_prefixed else non_prefixed).

(** [HexBytes(value)]. *)
Definition HexBytes (value : pyval) : result bytes :=
  match value with
  | PBytes b => Ok b
  | PStr s => hexstr_to_bytes s
  | PInt z =>
      if (z <? 0)%Z then Raise (ValueError "Cannot convert negative integer to bytes")
      else hexstr_to_bytes (py_hex (Z.to_N z))
  end.

Definition upper (c : ascii) : ascii :=
  let n := N_of_ascii c in
  if ((97 <=? n) && (n <=? 122))%N then ascii_of_N (n - 32) else c.

Fixpoint checksum_chars (norm address_hash : string) : string :=
  match norm, address_hash with
  | String c rest, String h hrest =>
      String (match hexval h with
              | Some d => if (7 <? d)%N then upper c else c
              | None => c
              end) (checksum_chars rest hrest)
  | _, _ => EmptyString
  end.

(** [to_checksum_address] on the 20 bytes of an address (EIP-55). *)
Definition to_checksum_address (addr : bytes) : string :=
  let norm := hex addr in
  ("0x" ++ checksum_chars norm (hex (Keccak.keccak256 (utf8 norm))))%string.

(** [PublicKey.to_checksum_address] on the 64 bytes of a public key. *)
Definition public_key_to_address (public_key : bytes) : string :=
  to_checksum_address (py_suffix 20 (Keccak.keccak256 public_key)).

(** [int_to_big_endian]: the shortest big-endian form, one byte for 0. *)
Definition int_to_big_endian (n : N) : bytes :=
  be_bytes (Nat.max 1 ((N.to_nat (N.size n) + 7) / 8)) n.

Definition to_bytes32 (n : N) : bytes :=
  let b := int_to_big_endian n in repeat x00 (32 - length b) ++ b.

Section WithBackend.
Context {backend : ECCBackend}.

(** [Account.from_key(private_key)].  The bytes of the key are refused when
    they are not 32 or are not a secret scalar of the curve (the key 0, a
    key from the order of the group on).  The refusal is a [ValueError] that
    tells the length of the argument; of an [int] there is no length to
    tell, and what is raised then is the [TypeError] of [len]. *)
Definition from_key (private_key : pyval) : result LocalAccount :=
  k <- HexBytes private_key ;;
  if negb (length k =? 32)%nat || negb (is_secret_scalar k)
  then
    match private_key with
    | PInt _ => Raise (TypeError "object of type 'int' has no len()")
    | _ => Raise (ValueError "The private key must be exactly 32 bytes long")
    end
  else
    public_key <- private_key_to_public_key k ;;
    Ok {| key := k; address := public_key_to_address public_key |}.

(** [encode_defunct(hexstr=s)]. *)
Definition encode_defunct_hexstr (hexstr : string) : result SignableMessage :=
  message_bytes <- eth_utils.to_bytes_hexstr hexstr ;;
  Ok {| version := utf8 "E";
        header := utf8 "thereum Signed Message:" ++ [x0a]
                    ++ utf8 (py_str_nat (length message_bytes));
        body := message_bytes |}.

Definition hash_eip191_message (m : SignableMessage) : bytes :=
  Keccak.keccak256 ([x19] ++ version m ++ header m ++ body m).

(** [account.sign_message(signable_message)]. *)
Definition sign_message (account : LocalAccount) (m : SignableMessage) : result SignedMessage :=
  let message_hash := hash_eip191_message m in
  if negb (length message_hash =? 32)%nat
  then Raise (ValueError "The message hash must be exactly 32-bytes")
  else
    vrs <- ecdsa_sign message_hash (key account) ;;
    let '(v_raw, r, s) := vrs in
    let v := (v_raw + 27)%N in
    Ok {| messageHash := message_hash;
          sig_r := r;
          sig_s := s;
          sig_v := v;
          signature := to_bytes32 r ++ to_bytes32 s ++ int_to_big_endian v |}.

End WithBackend.
End eth_account.

(* ===================================================================== *)
(** ** The repository's functions *)
(* ===================================================================== *)

(** [generate_camera_id.py], [generate_camera_id]: the packed encoding, its
    Keccak-256 digest, and [camera_id.hex()]. *)
Definition generate_camera_id (mac_address efuse_id : string) : result string :=
  encoded <- eth_abi.encode_packed [abi_string; abi_string]
                                   [PStr mac_address; PStr efuse_id] ;;
  let camera_id := Web3.keccak encoded in
  Ok (hex camera_id).

(** [decrypt_from_cid.py], [pkcs7_unpad]. *)
Definition pkcs7_unpad (data : bytes) : result bytes :=
  match last_byte data with
  | None => Raise (ValueError "plaintext vuoto")
  | Some b =>
      let pad_len := N.to_nat (Byte.to_N b) in
      if (pad_len =? 0)%nat || (16 <? pad_len)%nat
      then Raise (ValueError "padding non valido")
      else if negb (bytes_eqb (py_suffix pad_len data)
                              (repeat (byte_of_nat pad_len) pad_len))
      then Raise (ValueError "padding non valido")
      else Ok (py_drop_suffix pad_len data)
  end.

(** [decrypt_from_cid.py], [decrypt_aes_cbc]. *)
Definition decrypt_aes_cbc (ciphertext key iv : bytes) : result bytes :=
  if negb (length key =? 16)%nat
  then Raise (ValueError "AES-128 richiede una chiave di 16 byte")
  else if negb (length iv =? 16)%nat
  then Raise (ValueError "IV deve essere di 16 byte")
  else
    cipher <- AES.new_cbc key iv ;;
    plain <- AES.decrypt cipher ciphertext ;;
    pkcs7_unpad plain.

(** The dictionary [sign_photo] returns. *)
Module Signed.
Record t : Type := {
  photo_hash : pyval;
  location : string;
  metadata : string;
  nonce : Z;
  signature : string;
  camera_address : string;
  r : string;
  s : string;
  v : N
}.
End Signed.

Section SignPhoto.
Context {backend : ECCBackend}.

(** [sign_photo.py], [sign_photo]. *)
Definition sign_photo (private_key photo_hash : pyval) (location metadata : string)
    (nonce : Z) : result Signed.t :=
  account <- eth_account.from_key private_key ;;
  let photo_hash :=
    match photo_hash with
    | PStr h => if negb (String.prefix "0x" h) then PStr ("0x" ++ h) else PStr h
    | _ => photo_hash
    end in
  message_hash <- Web3.solidity_keccak
                    [abi_bytes32; abi_string; abi_string; abi_uint256]
                    [photo_hash; PStr location; PStr metadata; PInt nonce] ;;
  message <- eth_account.encode_defunct_hexstr (hex message_hash) ;;
  signed_message <- eth_account.sign_message account message ;;
  Ok {| Signed.photo_hash := photo_hash;
        Signed.location := location;
        Signed.metadata := metadata;
        Signed.nonce := nonce;
        Signed.signature := hex (eth_account.signature signed_message);
        Signed.camera_address := eth_account.address account;
        Signed.r := py_hex (eth_account.sig_r signed_message);
        Signed.s := py_hex (eth_account.sig_s signed_message);
        Signed.v := eth_account.sig_v signed_message |}.

End SignPhoto.

(** Modelled from the spec: the encryption side (the camera firmware and the
    receiver that stores the ciphertext) is not among the sources.  The spec
    describes it as AES-128-CBC over the plaintext padded to a multiple of 16
    bytes with PKCS#7 padding. *)
Definition pkcs7_pad (data : bytes) : bytes :=
  let pad_len := (16 - length data mod 16)%nat in
  data ++ repeat (byte_of_nat pad_len) pad_len.

(** Modelled from the spec: see [pkcs7_pad]. *)
Definition encrypt_aes_cbc (plaintext key iv : bytes) : result bytes :=
  cipher <- AES.new_cbc key iv ;;
  AES.encrypt cipher (pkcs7_pad plaintext).

(** ** The vocabulary of the specification

    The spec names its failures [PaddingError], [InvalidKeyLengthError],
    [InvalidIVLengthError] and [InvalidCiphertextLengthError]; the scripts
    raise [ValueError] with a message per failure.  The names below stand for
    the exceptions the scripts raise. *)

Definition PaddingError : exn := ValueError "padding non valido".

Definition InvalidKeyLengthError : exn :=
  ValueError "AES-128 richiede una chiave di 16 byte".

Definition InvalidIVLengthError : exn := ValueError "IV deve essere di 16 byte".

(** The scripts have no exception for the length of the ciphertext, and
    [decrypt_aes_cbc] does not look at that length itself.  What a call with
    a ciphertext of a wrong length ends in is the [ValueError] of the cipher
    when the length is not a multiple of the block size, and the
    [ValueError] of [pkcs7_unpad], which finds nothing to unpad, when the
    ciphertext is empty.  The name stands for these two exceptions. *)
Definition InvalidCiphertextLengthError (e : exn) : Prop :=
  e = ValueError "Data must be padded to 16 byte boundary in CBC mode"
  \/ e = ValueError "plaintext vuoto".

(** The pad length a last byte announces. *)
Definition pad_length (b : byte) : nat := N.to_nat (Byte.to_N b).

(** [data] ends with [pad_length b] bytes all equal to [b]. *)
Definition ends_with_padding (data : bytes) (b : byte) : Prop :=
  exists body, data = body ++ repeat b (pad_length b).

(** The prefix of an Ethereum personal message of 32 bytes: the byte 0x19,
    the text [Ethereum Signed Message:], a line feed and the text [32]. *)
Definition personal_message_prefix : bytes :=
  [x19] ++ utf8 "Ethereum Signed Message:" ++ [x0a] ++ utf8 "32".

(** The forms in which a caller hands the photo hash [ph] to [sign_photo]:
    as [bytes], as hexadecimal text, or as hexadecimal text after [0x]. *)
Inductive photo_hash_repr (ph : bytes) : pyval -> Prop :=
| repr_bytes : photo_hash_repr ph (PBytes ph)
| repr_hex (t : string) : unhexlify t = Ok ph -> photo_hash_repr ph (PStr t)
| repr_0x_hex (t : string) :
    unhexlify t = Ok ph -> photo_hash_repr ph (PStr ("0x" ++ t)).

(** The photo hash as [sign_photo] passes it on: text gets the prefix [0x]
    when it does not start with it. *)
Definition with_0x_prefix (photo_hash : pyval) : pyval :=
  match photo_hash with
  | PStr h => if negb (String.prefix "0x" h) then PStr ("0x" ++ h) else PStr h
  | _ => photo_hash
  end.

(** The dictionary [sign_photo] builds from the account and the triple
    (v, r, s) of the backend. *)
Definition signed_photo (photo_hash : pyval) (location metadata : string)
    (nonce : Z) (account : eth_account.LocalAccount) (vrs : N * N * N) : Signed.t :=
  let '(v_raw, r, s) := vrs in
  {| Signed.photo_hash := photo_hash;
     Signed.location := location;
     Signed.metadata := metadata;
     Signed.nonce := nonce;
     Signed.signature :=
       hex (eth_account.to_bytes32 r ++ eth_account.to_bytes32 s
              ++ eth_account.int_to_big_endian (v_raw + 27));
     Signed.camera_address := eth_account.address account;
     Signed.r := py_hex r;
     Signed.s := py_hex s;
     Signed.v := (v_raw + 27)%N |}.

(** The private key 1, as the 0x-prefixed text the key file holds. *)
Definition key_one : pyval :=
  PStr "0x0000000000000000000000000000000000000000000000000000000000000001".



(** A photo hash of 32 bytes in hexadecimal, without prefix. *)
Definition sample_photo_hash : string :=
  "abababababababababababababababababababababababababababababababab".


(** Text made of hexadecimal digits only. *)
Fixpoint is_hex_text (s : string) : bool :=
  match s with
  | EmptyString => true
  | String c rest =>
      match hexval c with
      | Some _ => is_hex_text rest
      | None => false
      end
  end.

(* ===================================================================== *)
(** ** The scripts around the three functions *)
(* ===================================================================== *)

(** *** More of the Python runtime

    The exceptions the scripts meet besides the ones above, as [Exception]
    values that name their class.  [SystemExit] is what [sys.exit] raises;
    [JSONDecodeError] is a [ValueError]. *)

Definition KeyError (msg : string) : exn := Exception ("KeyError: " ++ msg).

Definition FileNotFoundError (msg : string) : exn :=
  Exception ("FileNotFoundError: " ++ msg).

Definition SystemExit_1 : exn := Exception "SystemExit: 1".

Definition JSONDecodeError : exn := ValueError "JSONDecodeError".

(** [fmap f m]: [f] applied to what [m] returns. *)
Definition fmap {A B : Type} (f : A -> B) (m : result A) : result B :=
  match m with
  | Ok a => Ok (f a)
  | Raise e => Raise e
  end.

(** A [dict] with [str] keys: the pairs in insertion order, one per key. *)
Module Dict.

Definition t (V : Type) : Type := list (string * V).

(** [d.get(k)]. *)
Fixpoint get {V : Type} (d : t V) (k : string) : option V :=
  match d with
  | [] => None
  | (k', v) :: rest => if String.eqb k' k then Some v else get rest k
  end.

(** [d.get(k, default)]. *)
Definition get_or {V : Type} (d : t V) (k : string) (default : V) : V :=
  match get d k with
  | Some v => v
  | None => default
  end.

(** [d[k]]. *)
Definition item {V : Type} (d : t V) (k : string) : result V :=
  match get d k with
  | Some v => Ok v
  | None => Raise (KeyError k)
  end.

(** [d[k] = v]: the value of a key that is there is replaced where it
    stands, a new key goes to the end. *)
Fixpoint assign {V : Type} (d : t V) (k : string) (v : V) : t V :=
  match d with
  | [] => [(k, v)]
  | (k', v') :: rest =>
      if String.eqb k' k then (k', v) :: rest else (k', v') :: assign rest k v
  end.

Definition keys {V : Type} (d : t V) : list string := map fst d.

End Dict.

(** The characters of a text, each as its UTF-8 bytes: a byte of a
    multi-byte character takes the continuation bytes (10xxxxxx) that
    follow it. *)
Definition is_continuation (c : ascii) : bool :=
  let n := N_of_ascii c in ((128 <=? n) && (n <? 192))%N.

Definition starts_with_continuation (s : string) : bool :=
  match s with
  | String c _ => is_continuation c
  | EmptyString => false
  end.

Fixpoint chars (s : string) : list string :=
  match s with
  | EmptyString => []
  | String c rest =>
      let following := chars rest in
      match following with
      | ch :: more =>
          if (128 <=? N_of_ascii c)%N && starts_with_continuation ch
          then String c ch :: more
          else String c EmptyString :: following
      | [] => [String c EmptyString]
      end
  end.

(** The characters [str.isspace] accepts: U+0009..U+000D, U+001C..U+0020,
    U+0085, U+00A0, U+1680, U+2000..U+200A, U+2028, U+2029, U+202F, U+205F
    and U+3000. *)
Definition whitespace : list string :=
  map string_of_list_byte
    [[x09]; [x0a]; [x0b]; [x0c]; [x0d]; [x1c]; [x1d]; [x1e]; [x1f]; [x20];
     [xc2; x85]; [xc2; xa0]; [xe1; x9a; x80];
     [xe2; x80; x80]; [xe2; x80; x81]; [xe2; x80; x82]; [xe2; x80; x83];
     [xe2; x80; x84]; [xe2; x80; x85]; [xe2; x80; x86]; [xe2; x80; x87];
     [xe2; x80; x88]; [xe2; x80; x89]; [xe2; x80; x8a];
     [xe2; x80; xa8]; [xe2; x80; xa9]; [xe2; x80; xaf]; [xe2; x81; x9f];
     [xe3; x80; x80]].

Definition isspace (ch : string) : bool := existsb (String.eqb ch) whitespace.

Fixpoint drop_while {A : Type} (f : A -> bool) (l : list A) : list A :=
  match l with
  | [] => []
  | x :: rest => if f x then drop_while f rest else l
  end.

(** [s.strip()]. *)
Definition str_strip (s : string) : string :=
  String.concat "" (rev (drop_while isspace (rev (drop_while isspace (chars s))))).

(** The line boundaries of [str.splitlines]: LF, VT, FF, CR, FS, GS, RS,
    U+0085, U+2028 and U+2029; CR LF counts once. *)
Definition linebreaks : list string :=
  map string_of_list_byte
    [[x0a]; [x0b]; [x0c]; [x0d]; [x1c]; [x1d]; [x1e];
     [xc2; x85]; [xe2; x80; xa8]; [xe2; x80; xa9]].

Definition is_linebreak (ch : string) : bool := existsb (String.eqb ch) linebreaks.

Definition CR : string := string_of_list_byte [x0d].
Definition LF : string := string_of_list_byte [x0a].

(** [lines_from after_cr line cs]: the lines of the characters [cs] that
    follow the start [line] of a line; [after_cr] says that the character
    before [cs] was a CR. *)
Fixpoint lines_from (after_cr : bool) (line : string) (cs : list string) : list string :=
  match cs with
  | [] => if String.eqb line "" then [] else [line]
  | ch :: rest =>
      if after_cr && String.eqb ch LF then lines_from false line rest
      else if is_linebreak ch then line :: lines_from (String.eqb ch CR) "" rest
      else lines_from false (line ++ ch) rest
  end.

(** [s.splitlines()]. *)
Definition str_splitlines (s : string) : list string := lines_from false "" (chars s).

(** [s.split(sep, 1)] for a [sep] of one character that occurs in [s]: the
    text before its first occurrence and the text after it.  [None] when
    [sep] is not in [s]. *)
Fixpoint split_once (sep : ascii) (s : string) : option (string * string) :=
  match s with
  | EmptyString => None
  | String c rest =>
      if Ascii.eqb c sep then Some (EmptyString, rest)
      else match split_once sep rest with
           | Some (before, after) => Some (String c before, after)
           | None => None
           end
  end.

(** [s.lower()] on ASCII text.  Characters outside ASCII are left as they
    are: the case tables of Unicode are not modelled, and what is stated
    below of lowered text is stated of ASCII text. *)
Definition lower_char (c : ascii) : ascii :=
  let n := N_of_ascii c in
  if ((65 <=? n) && (n <=? 90))%N then ascii_of_N (n + 32) else c.

Fixpoint str_lower (s : string) : string :=
  match s with
  | EmptyString => EmptyString
  | String c rest => String (lower_char c) (str_lower rest)
  end.

(** [s.replace(old, new)] for an [old] that is not empty: the occurrences
    of [old] are found from the left, one after the end of the other.
    [skip] counts the characters of an occurrence still to pass. *)
Fixpoint replace_from (old new : string) (skip : nat) (s : string) : string :=
  match s with
  | EmptyString => EmptyString
  | String c rest =>
      match skip with
      | S k => replace_from old new k rest
      | O =>
          if String.prefix old s
          then (new ++ replace_from old new (String.length old - 1) rest)%string
          else String c (replace_from old new 0 rest)
      end
  end.

Definition str_replace (old new s : string) : string := replace_from old new 0 s.

(** [bytes.fromhex(s)]: two digits per byte; ASCII whitespace is passed over
    before a byte, not between its two digits. *)
Definition is_ascii_space (c : ascii) : bool :=
  let n := N_of_ascii c in (((9 <=? n) && (n <=? 13)) || (n =? 32))%N.

Fixpoint fromhex (s : string) : result bytes :=
  match s with
  | EmptyString => Ok []
  | String c rest =>
      if is_ascii_space c then fromhex rest
      else
        match hexval c, rest with
        | Some h, String c0 rest' =>
            match hexval c0 with
            | Some l => r <- fromhex rest' ;; Ok (byte_of_N (16 * h + l) :: r)
            | None => Raise (ValueError "non-hexadecimal number found in fromhex() arg")
            end
        | _, _ => Raise (ValueError "non-hexadecimal number found in fromhex() arg")
        end
  end.

(** [urllib.parse.quote(s, safe="/")]: the bytes of the UTF-8 text that are
    letters, digits or one of [_.-~/] stay, every other byte becomes [%XX]
    with upper-case digits. *)
Definition is_unreserved (c : ascii) : bool :=
  let n := N_of_ascii c in
  (((48 <=? n) && (n <=? 57)) || ((65 <=? n) && (n <=? 90))
   || ((97 <=? n) && (n <=? 122))
   || (n =? 95) || (n =? 46) || (n =? 45) || (n =? 126))%N.

Definition upper_hexdigit (n : N) : ascii :=
  if (n <? 10)%N then ascii_of_N (48 + n) else ascii_of_N (55 + n).

Definition quote_char (c : ascii) : string :=
  if is_unreserved c || Ascii.eqb c "/" then String c EmptyString
  else String "%" (String (upper_hexdigit (N_of_ascii c / 16))
                     (String (upper_hexdigit (N_of_ascii c mod 16)) EmptyString)).

Fixpoint quote (s : string) : string :=
  match s with
  | EmptyString => EmptyString
  | String c rest => (quote_char c ++ quote rest)%string
  end.

(** A file that holds JSON, as [os.path.exists], [open] and [json.load] find
    it.  The JSON of the key file is an object of objects of texts, which is
    what [save_private_key] writes: a dictionary per camera identifier. *)
Inductive json_file (A : Type) : Type :=
| NoFile
| NotJson
| Json (value : A).

Arguments NoFile {A}.
Arguments NotJson {A}.
Arguments Json {A} value.

Definition key_file : Type := json_file (Dict.t (Dict.t string)).

(** *** [get_camera_wallet.py] *)

(** [get_camera_info]: [post camera_id] is what the FireFly API answers to
    the query for the camera, the decoded JSON of the response or the
    exception of the request; the function hands on the object under
    [output]. *)
Definition get_camera_info (post : string -> result (Dict.t (Dict.t string)))
    (camera_id : string) : result (Dict.t string) :=
  data <- post camera_id ;;
  match Dict.get data "output" with
  | None => Raise (ValueError "Risposta API non valida:  'output' mancante")
  | Some camera_info => Ok camera_info
  end.

(** [generate_camera_wallet]: [created] is the pair of an account and its
    mnemonic that [Account.create_with_mnemonic] returns. *)
Definition generate_camera_wallet (created : eth_account.LocalAccount * string)
    : Dict.t string :=
  let '(account, mnemonic) := created in
  [("address", eth_account.address account);
   ("privateKey", hex (eth_account.key account));
   ("mnemonic", mnemonic)]%string.

(** [save_private_key]: [now] is [datetime.now().isoformat()], [file] the
    key file before the call; the result is the key file after it.  When the
    call raises, the file is as it was. *)
Definition save_private_key (now : string) (camera_id : string)
    (wallet_data : Dict.t string) (file : key_file) : result key_file :=
  keys <- match file with
          | NoFile => Ok []
          | NotJson => Raise JSONDecodeError
          | Json keys => Ok keys
          end ;;
  address <- Dict.item wallet_data "address" ;;
  privateKey <- Dict.item wallet_data "privateKey" ;;
  Ok (Json (Dict.assign keys camera_id
              [("address", address);
               ("privateKey", privateKey);
               ("mnemonic", Dict.get_or wallet_data "mnemonic" EmptyString);
               ("createdAt", now)]%string)).

(** [load_private_key]. *)
Definition load_private_key (camera_id : string) (file : key_file)
    : result (Dict.t string) :=
  match file with
  | NoFile => Raise (FileNotFoundError "File private keys non trovato!")
  | NotJson => Raise JSONDecodeError
  | Json keys =>
      match Dict.get keys camera_id with
      | None =>
          Raise (KeyError ("Private key per Camera ID " ++ camera_id ++ " non trovata!"))
      | Some entry => Ok entry
      end
  end.

(** [get_wallet_from_camera_id]. *)
Definition get_wallet_from_camera_id (post : string -> result (Dict.t (Dict.t string)))
    (camera_id : string) : result (option string) :=
  camera_info <- get_camera_info post camera_id ;;
  Ok (Dict.get camera_info "walletAddress").

Section SaveWalletFromApi.
Context {backend : ECCBackend}.

(** [save_wallet_from_api]: [typed] is the line the user types at the
    prompt; the result is the key file after the call.  Whatever is raised
    once the key has been typed is caught. *)
Definition save_wallet_from_api (post : string -> result (Dict.t (Dict.t string)))
    (typed : string) (now : string) (camera_id : string) (file : key_file)
    : result key_file :=
  camera_info <- get_camera_info post camera_id ;;
  match Dict.get camera_info "walletAddress" with
  | None => Ok file
  | Some wallet_address =>
      if String.eqb wallet_address "" then Ok file
      else
        let private_key := str_strip typed in
        if String.eqb private_key "" then Ok file
        else
          let private_key :=
            if negb (String.prefix "0x" private_key)
            then ("0x" ++ private_key)%string else private_key in
          let attempt :=
            account <- eth_account.from_key (PStr private_key) ;;
            if negb (String.eqb (str_lower (eth_account.address account))
                                (str_lower wallet_address))
            then Ok file
            else save_private_key now camera_id
                   [("address", eth_account.address account);
                    ("privateKey", private_key);
                    ("mnemonic", "")]%string file in
          match attempt with
          | Ok file' => Ok file'
          | Raise _ => Ok file
          end
  end.

End SaveWalletFromApi.

(** *** [sign_photo.py]: the credentials *)

(** The dictionary [load_credentials] returns. *)
Module Credentials.
Record t : Type := {
  camera_id : string;
  address : string;
  private_key : string;
  mnemonic : string;
  created_at : string
}.
End Credentials.

(** The dictionary both loops of [load_credentials] build for the camera
    [key] with the entry [data]. *)
Definition credentials_of (key : string) (data : Dict.t string) : result Credentials.t :=
  address <- Dict.item data "address" ;;
  privateKey <- Dict.item data "privateKey" ;;
  Ok {| Credentials.camera_id := key;
        Credentials.address := address;
        Credentials.private_key :=
          if negb (String.prefix "0x" privateKey)
          then ("0x" ++ privateKey)%string else privateKey;
        Credentials.mnemonic := Dict.get_or data "mnemonic" EmptyString;
        Credentials.created_at := Dict.get_or data "createdAt" EmptyString |}.

(** The loop that looks for the camera identifier. *)
Fixpoint find_camera_id (camera_id_clean : string) (items : Dict.t (Dict.t string))
    : option (result Credentials.t) :=
  match items with
  | [] => None
  | (key, data) :: rest =>
      if String.eqb (str_lower (str_replace "0x" "" key)) camera_id_clean
      then Some (credentials_of key data)
      else find_camera_id camera_id_clean rest
  end.

(** The loop that looks for the address. *)
Fixpoint find_address (address : string) (items : Dict.t (Dict.t string))
    : option (result Credentials.t) :=
  match items with
  | [] => None
  | (key, data) :: rest =>
      match Dict.item data "address" with
      | Raise e => Some (Raise e)
      | Ok a =>
          if String.eqb (str_lower a) (str_lower address)
          then Some (credentials_of key data)
          else find_address address rest
      end
  end.

(** A [str] argument that defaults to [None]: its truth in a condition,
    and its text once the condition has held. *)
Definition truthy (s : option string) : bool :=
  match s with
  | Some t => negb (String.eqb t "")
  | None => false
  end.

Definition text_of (s : option string) : string :=
  match s with
  | Some t => t
  | None => EmptyString
  end.

(** [load_credentials(json_file, camera_id, address)]: [file] is the file
    named by [json_file].  The function returns [None] when it falls off its
    end. *)
Definition load_credentials (file : key_file) (camera_id address : option string)
    : result (option Credentials.t) :=
  match file with
  | NoFile => Raise SystemExit_1
  | NotJson => Raise SystemExit_1
  | Json cameras =>
      match cameras with
      | [] => Raise (ValueError "File JSON vuoto")
      | (first, _) :: _ =>
          let camera_id :=
            if negb (truthy camera_id) && negb (truthy address)
            then Some first else camera_id in
          if truthy camera_id then
            let camera_id_clean := str_lower (str_replace "0x" "" (text_of camera_id)) in
            match find_camera_id camera_id_clean cameras with
            | Some found => fmap Some found
            | None =>
                Raise (ValueError ("Camera ID " ++ text_of camera_id ++ " non trovato"))
            end
          else if truthy address then
            match find_address (text_of address) cameras with
            | Some found => fmap Some found
            | None =>
                Raise (ValueError ("Address " ++ text_of address ++ " non trovato"))
            end
          else Ok None
      end
  end.

(** *** [sign_photo.py]: the script *)

Module SignPhotoScript.

(** The arguments of the command line, as [argparse] hands them over. *)
Record Args : Type := {
  photo : string;
  camera_id : string;
  location : string;
  metadata : string;
  nonce : Z;
  credentials : string
}.

(** The files the script reads: the bytes of a photo ([None] when [open]
    raises [FileNotFoundError]) and the key file, by path. *)
Record Files : Type := {
  open_rb : string -> option bytes;
  open_json : string -> key_file
}.

(** The dictionary the script writes to [signed_photo.json]: the one of
    [sign_photo] and the identifier of the camera. *)
Record Output : Type := {
  signed_data : Signed.t;
  output_camera_id : string
}.

Section Main.
Context {backend : ECCBackend}.

(** [main]: the result is the dictionary written to [signed_photo.json].
    [list_cameras] only prints and catches what it raises. *)
Definition main (fs : Files) (args : Args) : result Output :=
  photo_hash <- match open_rb fs (photo args) with
                | Some photo_data => Ok ("0x" ++ hex (SHA256.sha256 photo_data))%string
                | None => Raise SystemExit_1
                end ;;
  loaded <- load_credentials (open_json fs (credentials args))
                             (Some (camera_id args)) None ;;
  match loaded with
  | None => Raise (TypeError "'NoneType' object is not subscriptable")
  | Some creds =>
      signed <- sign_photo (PStr (Credentials.private_key creds)) (PStr photo_hash)
                           (location args) (metadata args) (nonce args) ;;
      Ok {| signed_data := signed;
            output_camera_id := Credentials.camera_id creds |}
  end.

End Main.
End SignPhotoScript.

(** *** [decrypt_from_cid.py]: the script *)

(** What the script reaches outside itself: the file system and the IPFS
    API.  [read_text p] is [Path(p).read_text(encoding="utf-8",
    errors="replace")], [urlopen url] the body of the answer to the POST
    request, [stem p] is [Path(p).stem]. *)
Record World : Type := {
  path_exists : string -> bool;
  read_text : string -> result string;
  read_bytes : string -> result bytes;
  write_bytes : string -> bytes -> result unit;
  stem : string -> string;
  urlopen : string -> result bytes
}.

(** What the script does to the outside. *)
Inductive effect : Type :=
| Posted (url : string)
| Written (path : string) (data : bytes).

(** A computation that acts on the outside: the effects it has made, in
    order, and how it ends. *)
Definition io (A : Type) : Type := list effect * result A.

Definition io_ret {A : Type} (a : A) : io A := ([], Ok a).

Definition io_lift {A : Type} (m : result A) : io A := ([], m).

Definition io_bind {A B : Type} (m : io A) (f : A -> io B) : io B :=
  match m with
  | (done, Ok a) => let '(more, r) := f a in (done ++ more, r)
  | (done, Raise e) => (done, Raise e)
  end.

Notation "x <~ m ;; k" := (io_bind m (fun x => k))
  (at level 61, m at next level, right associativity).

(** One line of the [.cid] file. *)
Definition parse_cid_line (data : Dict.t string) (line : string) : Dict.t string :=
  if String.eqb line "" then data
  else
    match split_once "=" line with
    | None => data
    | Some (key, value) => Dict.assign data (str_strip key) (str_strip value)
    end.

(** The loop of [parse_cid_file] over the text of the file. *)
Definition parse_cid_text (text : string) : Dict.t string :=
  fold_left parse_cid_line (str_splitlines text) [].

(** [parse_cid_file]. *)
Definition parse_cid_file (w : World) (path : string) : result (Dict.t string) :=
  text <- read_text w path ;;
  Ok (parse_cid_text text).

(** The address [ipfs_cat] asks for. *)
Definition ipfs_cat_url (cid : string) : string :=
  let arg := quote ("/ipfs/" ++ cid) in
  ("http://127.0.0.1:5001/api/v0/cat?arg=" ++ arg)%string.

(** [ipfs_cat]. *)
Definition ipfs_cat (w : World) (cid : string) : io bytes :=
  let url := ipfs_cat_url cid in
  ([Posted url], urlopen w url).

Module DecryptFromCid.

(** The arguments of the command line, as [argparse] hands them over. *)
Record Args : Type := {
  cid_file : string;
  key : string;
  out : option string;
  enc : option string
}.

(** [main]: the result is the exit status. *)
Definition main (w : World) (args : Args) : io Z :=
  let cid_path := cid_file args in
  if negb (path_exists w cid_path) then io_ret 1%Z
  else
    meta <~ io_lift (parse_cid_file w cid_path) ;;
    let file_cid := Dict.get_or meta "cid" EmptyString in
    let dir_cid := Dict.get_or meta "dir_cid" EmptyString in
    let name := Dict.get_or meta "name" EmptyString in
    let iv_hex := Dict.get_or meta "iv" EmptyString in
    if String.eqb iv_hex "" then io_ret 1%Z
    else
      match fromhex iv_hex with
      | Raise _ => io_ret 1%Z
      | Ok iv =>
          fetched <~ (if truthy (enc args)
                      then io_lift (fmap Some (read_bytes w (text_of (enc args))))
                      else if negb (String.eqb file_cid "")
                      then cipher_bytes <~ ipfs_cat w file_cid ;; io_ret (Some cipher_bytes)
                      else if negb (String.eqb dir_cid "") && negb (String.eqb name "")
                      then cipher_bytes <~ ipfs_cat w (dir_cid ++ "/" ++ name) ;;
                           io_ret (Some cipher_bytes)
                      else io_ret None) ;;
          match fetched with
          | None => io_ret 1%Z
          | Some cipher_bytes =>
              match decrypt_aes_cbc cipher_bytes (utf8 (key args)) iv with
              | Raise _ => io_ret 1%Z
              | Ok plain =>
                  let photo_id := stem w cid_path in
                  let out_path :=
                    if truthy (out args) then text_of (out args)
                    else (photo_id ++ ".jpg")%string in
                  match write_bytes w out_path plain with
                  | Raise e => ([], Raise e)
                  | Ok _ => ([Written out_path plain], Ok 0%Z)
                  end
              end
          end
      end.

End DecryptFromCid.

(** *** Vocabulary of the properties of the scripts *)

(** What a verifier of the signature reads in the dictionary of
    [sign_photo]: the signature, its three parts and the address. *)
Definition signature_of (signed : Signed.t) : string * string * string * N * string :=
  (Signed.signature signed, Signed.r signed, Signed.s signed, Signed.v signed,
   Signed.camera_address signed).

(** A ciphertext of three blocks: the AES-128-CBC encryption, as OpenSSL
    gives it, of a text of 37 bytes under the default key of the script and
    the IV 00 01 .. 0f. *)
Definition sample_ciphertext : bytes :=
  Eval vm_compute in
    match unhexlify "57a861d37c78be567d79a22e157b9d8125fcdb9852af8bddccf254b50f8e58cb323032b134261179d72bfafd893f96db" with
    | Ok c => c
    | Raise _ => []
    end.

(** Text made of ASCII characters only. *)
Definition is_ascii_text (s : string) : bool :=
  forallb (fun c => (N_of_ascii c <? 128)%N) (list_ascii_of_string s).

(** The identifiers under which a key file holds cameras. *)
Definition stored_ids (file : key_file) : list string :=
  match file with
  | Json keys => Dict.keys keys
  | _ => []
  end.

(** Text without a line boundary. *)
Definition no_linebreak (s : string) : Prop :=
  Forall (fun ch => is_linebreak ch = false) (chars s).

(** A key and a value that a line [key=value] gives back as they are:
    neither holds a line boundary nor starts or ends with white space, and
    the key holds no [=]. *)
Definition cid_entry (e : string * string) : Prop :=
  split_once "=" (fst e) = None
  /\ no_linebreak (fst e) /\ no_linebreak (snd e)
  /\ str_strip (fst e) = fst e /\ str_strip (snd e) = snd e.

(** The text of a [.cid] file: a line [key=value] per entry, each ended by
    a line feed. *)
Fixpoint cid_text (entries : list (string * string)) : string :=
  match entries with
  | [] => EmptyString
  | (key, value) :: rest => (key ++ "=" ++ value ++ LF ++ cid_text rest)%string
  end.

(** A world for the examples: a [.cid] file that names a CID and the IV
    00 01 .. 0f, an IPFS node that answers with the sample ciphertext, and
    a file system that takes what is written. *)
Definition sample_world : World :=
  {| path_exists := fun _ => true;
     read_text := fun _ =>
       Ok (cid_text [("cid", "QmPhoto");
                     ("iv", "000102030405060708090a0b0c0d0e0f")]%string);
     read_bytes := fun _ => Raise (FileNotFoundError "No such file or directory");
     write_bytes := fun _ _ => Ok tt;
     stem := fun _ => "photo"%string;
     urlopen := fun _ => Ok sample_ciphertext |}.

(** Every value of [ascii], for the statements proved by enumeration. *)
Definition all_ascii : list ascii := map ascii_of_nat (seq 0 256).

(** The characters [quote] lets through or writes. *)
Definition url_char (c : ascii) : bool :=
  is_unreserved c || Ascii.eqb c "/" || Ascii.eqb c "%".

(** The characters [quote] lets through. *)
Definition quote_safe (c : ascii) : bool := is_unreserved c || Ascii.eqb c "/".

(** Files and arguments for the examples of [sign_photo.py]: a photo, and
    a key file that holds the private key 1 without [0x]. *)
Definition sample_files : SignPhotoScript.Files :=
  {| SignPhotoScript.open_rb := fun _ => Some (utf8 "photo");
     SignPhotoScript.open_json := fun _ =>
       Json [("ab02",
              [("address", "0x7E5F4552091A69125d5DfCb7b8C2659029395Bdf");
               ("privateKey",
                "0000000000000000000000000000000000000000000000000000000000000001")])]%string |}.

Definition sample_args : SignPhotoScript.Args :=
  {| SignPhotoScript.photo := "a.png"; SignPhotoScript.camera_id := "0xAB02";
     SignPhotoScript.location := "Building A - Entrance"; SignPhotoScript.metadata := "Motion detected";
     SignPhotoScript.nonce := 0; SignPhotoScript.credentials := "./camera_keys.json" |}.

(* ===================================================================== *)
(** * Part II: properties *)
(* ===================================================================== *)

(** ** Bytes *)

Lemma to_N_lt_256 (b : byte) : (Byte.to_N b < 256)%N.
Proof. pose proof (Byte.to_N_bounded b). lia. Qed.

Lemma byte_of_N_to_N (b : byte) : byte_of_N (Byte.to_N b) = b.
Proof.
  unfold byte_of_N.
  rewrite N.mod_small by apply to_N_lt_256.
  now rewrite Byte.of_to_N.
Qed.

Lemma to_N_byte_of_N (n : N) : Byte.to_N (byte_of_N n) = (n mod 256)%N.
Proof.
  unfold byte_of_N.
  destruct (Byte.of_N (n mod 256)) eqn:E.
  - now apply Byte.to_of_N in E.
  - apply Byte.of_N_None_iff in E.
    pose proof (N.mod_upper_bound n 256). lia.
Qed.

Lemma byte_of_nat_pad_length (b : byte) : byte_of_nat (pad_length b) = b.
Proof.
  unfold byte_of_nat, pad_length. rewrite N2Nat.id. apply byte_of_N_to_N.
Qed.

Lemma bytes_eqb_eq (a b : bytes) : bytes_eqb a b = true <-> a = b.
Proof.
  revert b. induction a as [|x a IH]; intros [|y b]; simpl; try easy.
  rewrite andb_true_iff, IH. split.
  - intros [H ->]. apply Byte.byte_dec_bl in H. now subst.
  - intros [= -> ->]. split; [apply Byte.byte_dec_lb|]; reflexivity.
Qed.

Lemma last_byte_snoc (front : bytes) (b : byte) : last_byte (front ++ [b]) = Some b.
Proof.
  induction front as [|x front IH]; [reflexivity|].
  simpl. rewrite IH. now destruct front.
Qed.

Lemma last_byte_None (data : bytes) : last_byte data = None <-> data = [].
Proof.
  split; [|now intros ->].
  destruct data as [|x data] using rev_ind; [easy|].
  now rewrite last_byte_snoc.
Qed.

Lemma last_byte_Some (data : bytes) (b : byte) :
  last_byte data = Some b <-> exists front, data = front ++ [b].
Proof.
  split.
  - destruct data as [|x data _] using rev_ind; [easy|].
    rewrite last_byte_snoc. intros [= ->]. now exists data.
  - intros [front ->]. apply last_byte_snoc.
Qed.

(** ** PKCS#7 unpadding *)

Lemma py_suffix_app (body tail : bytes) :
  py_suffix (length tail) (body ++ tail) = tail.
Proof.
  unfold py_suffix. rewrite length_app.
  replace (length body + length tail - length tail) with (length body) by lia.
  now rewrite skipn_app, skipn_all, Nat.sub_diag.
Qed.

Lemma py_drop_suffix_app (body tail : bytes) :
  py_drop_suffix (length tail) (body ++ tail) = body.
Proof.
  unfold py_drop_suffix. rewrite length_app.
  replace (length body + length tail - length tail) with (length body) by lia.
  now rewrite firstn_app, firstn_all, Nat.sub_diag, app_nil_r.
Qed.

Lemma py_suffix_split (n : nat) (data : bytes) :
  data = py_drop_suffix n data ++ py_suffix n data.
Proof. unfold py_drop_suffix, py_suffix. now rewrite firstn_skipn. Qed.

(** The comparison of the tail made by [pkcs7_unpad] holds exactly when the
    data ends with the padding. *)
Lemma suffix_is_padding (data : bytes) (b : byte) :
  py_suffix (pad_length b) data = repeat b (pad_length b)
  <-> ends_with_padding data b.
Proof.
  split.
  - intros H. exists (py_drop_suffix (pad_length b) data).
    rewrite <- H. apply py_suffix_split.
  - intros [body ->].
    rewrite <- (repeat_length b (pad_length b)) at 1.
    apply py_suffix_app.
Qed.

(** What [pkcs7_unpad] computes on data with last byte [b]. *)
Lemma pkcs7_unpad_last (data : bytes) (b : byte) :
  last_byte data = Some b ->
  pkcs7_unpad data =
    if (pad_length b =? 0) || (16 <? pad_length b) then Raise PaddingError
    else if negb (bytes_eqb (py_suffix (pad_length b) data)
                            (repeat b (pad_length b)))
    then Raise PaddingError
    else Ok (py_drop_suffix (pad_length b) data).
Proof.
  intros H. unfold pkcs7_unpad. rewrite H.
  fold (pad_length b). now rewrite byte_of_nat_pad_length.
Qed.

Lemma pkcs7_unpad_ok (body : bytes) (b : byte) :
  1 <= pad_length b <= 16 ->
  pkcs7_unpad (body ++ repeat b (pad_length b)) = Ok body.
Proof.
  intros Hp.
  assert (Hl : last_byte (body ++ repeat b (pad_length b)) = Some b).
  { apply last_byte_Some. destruct (pad_length b) as [|n] eqn:E; [lia|].
    exists (body ++ repeat b n).
    rewrite <- app_assoc. f_equal.
    change [b] with (repeat b 1). rewrite <- repeat_app.
    now replace (n + 1) with (S n) by lia. }
  rewrite (pkcs7_unpad_last _ _ Hl).
  destruct (Nat.eqb_spec (pad_length b) 0); [lia|].
  destruct (Nat.ltb_spec 16 (pad_length b)); [lia|]. simpl.
  remember (repeat b (pad_length b)) as tail eqn:Et.
  assert (Hlen : pad_length b = length tail) by (now rewrite Et, repeat_length).
  rewrite Hlen, py_suffix_app, py_drop_suffix_app.
  now rewrite (proj2 (bytes_eqb_eq _ _) eq_refl).
Qed.

(** With a last byte [b], unpadding raises [PaddingError] or takes the
    padding off. *)
Lemma pkcs7_unpad_total (data : bytes) (b : byte) :
  last_byte data = Some b ->
  pkcs7_unpad data = Raise PaddingError
  \/ exists body,
       pkcs7_unpad data = Ok body /\ data = body ++ repeat b (pad_length b).
Proof.
  intros Hl. rewrite (pkcs7_unpad_last _ _ Hl).
  destruct ((pad_length b =? 0) || (16 <? pad_length b)); [now left|].
  destruct (bytes_eqb _ _) eqn:Eq; [|now left].
  right. exists (py_drop_suffix (pad_length b) data). split; [reflexivity|].
  apply bytes_eqb_eq in Eq. rewrite <- Eq. apply py_suffix_split.
Qed.

(** C5. PKCS#7 unpadding of a byte sequence whose last byte is [b], with
    pad length [p = pad_length b]: it fails with [PaddingError] exactly when
    [p = 0], [p > 16], or the sequence does not end with [p] bytes all equal
    to [b]; otherwise it succeeds and returns the sequence without its last
    [p] bytes. *)
Theorem pkcs7_unpad_spec (front : bytes) (b : byte) :
  (pkcs7_unpad (front ++ [b]) = Raise PaddingError
   <-> pad_length b = 0 \/ 16 < pad_length b
       \/ ~ ends_with_padding (front ++ [b]) b)
  /\ (forall body,
        1 <= pad_length b <= 16 ->
        front ++ [b] = body ++ repeat b (pad_length b) ->
        pkcs7_unpad (front ++ [b]) = Ok body
        /\ length body = length (front ++ [b]) - pad_length b)
  /\ (pkcs7_unpad (front ++ [b]) = Raise PaddingError
      \/ exists body,
           pkcs7_unpad (front ++ [b]) = Ok body
           /\ front ++ [b] = body ++ repeat b (pad_length b)).
Proof.
  pose proof (pkcs7_unpad_last _ _ (last_byte_snoc front b)) as E.
  set (data := front ++ [b]) in *.
  assert (Hsuf : bytes_eqb (py_suffix (pad_length b) data)
                           (repeat b (pad_length b)) = true
                 <-> ends_with_padding data b).
  { rewrite bytes_eqb_eq. apply suffix_is_padding. }
  split; [split|split].
  - intros H. rewrite H in E.
    destruct (Nat.eqb_spec (pad_length b) 0); [now left|].
    destruct (Nat.ltb_spec 16 (pad_length b)); [now right; left|].
    simpl in E. right; right. intros Hpad. apply Hsuf in Hpad.
    rewrite Hpad in E. discriminate.
  - intros H. rewrite E.
    destruct (Nat.eqb_spec (pad_length b) 0); [reflexivity|].
    destruct (Nat.ltb_spec 16 (pad_length b)); [reflexivity|]. simpl.
    destruct H as [H|[H|H]]; try lia.
    destruct (bytes_eqb _ _) eqn:Eq; [|reflexivity].
    exfalso. apply H, Hsuf. reflexivity.
  - intros body Hp Hd. rewrite Hd. split.
    + now apply pkcs7_unpad_ok.
    + rewrite length_app, repeat_length. lia.
  - apply pkcs7_unpad_total, last_byte_snoc.
Qed.

(** On data that is not empty the only failure is [PaddingError]. *)
Lemma pkcs7_unpad_nonempty (data : bytes) :
  data <> [] ->
  pkcs7_unpad data = Raise PaddingError \/ exists body, pkcs7_unpad data = Ok body.
Proof.
  intros Hne.
  destruct (last_byte data) as [b|] eqn:E.
  - destruct (pkcs7_unpad_total data b E) as [H|[body [H _]]].
    + now left.
    + right. now exists body.
  - now apply last_byte_None in E.
Qed.

(** X2.  Whenever unpadding returns, it has taken off between 1 and 16 bytes,
    all equal to their number. *)
Lemma pkcs7_unpad_returns (data body : bytes) :
  pkcs7_unpad data = Ok body ->
  exists b, 1 <= pad_length b <= 16 /\ data = body ++ repeat b (pad_length b).
Proof.
  intros H.
  destruct (last_byte data) as [b|] eqn:E.
  - exists b. rewrite (pkcs7_unpad_last _ _ E) in H.
    destruct (Nat.eqb_spec (pad_length b) 0); [discriminate|].
    destruct (Nat.ltb_spec 16 (pad_length b)); [discriminate|]. simpl in H.
    destruct (bytes_eqb _ _) eqn:Eq; [|discriminate]. simpl in H.
    injection H as <-. split; [lia|].
    apply bytes_eqb_eq in Eq. rewrite <- Eq. apply py_suffix_split.
  - apply last_byte_None in E. subst. discriminate.
Qed.

(** ** Blocks and CBC chaining *)

Lemma xor_bytes_length (a b : bytes) :
  length (AES.xor_bytes a b) = Nat.min (length a) (length b).
Proof.
  revert b. induction a as [|x a IH]; intros [|y b]; simpl; auto.
Qed.

Lemma blocks_exact (n : nat) : forall (fuel : nat) (b : bytes),
  length b = 16 * n -> n <= fuel ->
  concat (AES.blocks fuel b) = b
  /\ Forall (fun c => length c = 16) (AES.blocks fuel b)
  /\ length (AES.blocks fuel b) = n.
Proof.
  induction n as [|n IH]; intros fuel b Hlen Hfuel.
  - destruct b; [|simpl in Hlen; lia]. destruct fuel; simpl; auto.
  - destruct fuel as [|fuel]; [lia|].
    destruct b as [|x b]; [simpl in Hlen; lia|].
    cbn [AES.blocks]. unfold AES.block_size.
    destruct (IH fuel (skipn 16 (x :: b))) as (Hc & Hf & Hn).
    { rewrite length_skipn. lia. }
    { lia. }
    cbn [concat length]. rewrite Hc, Hn, firstn_skipn. repeat split.
    constructor; [|exact Hf].
    rewrite length_firstn. lia.
Qed.

Lemma blocks_of_multiple (b : bytes) :
  length b mod 16 = 0 ->
  concat (AES.blocks (length b) b) = b
  /\ Forall (fun c => length c = 16) (AES.blocks (length b) b)
  /\ 16 * length (AES.blocks (length b) b) = length b.
Proof.
  intros Hmod.
  assert (Hlen : length b = 16 * (length b / 16)).
  { apply Nat.Div0.div_exact. exact Hmod. }
  destruct (blocks_exact (length b / 16) (length b) b Hlen) as (Hc & Hf & Hn).
  { lia. }
  repeat split; auto. lia.
Qed.

Section ChainingProperties.
Variable f : bytes -> bytes.
Hypothesis f_length : forall c, length (f c) = 16.

Lemma cbc_decrypt_blocks_length (cs : list bytes) : forall prev,
  length prev = 16 ->
  Forall (fun c => length c = 16) cs ->
  length (AES.cbc_decrypt_blocks f prev cs) = 16 * length cs.
Proof.
  induction cs as [|c cs IH]; intros prev Hp Hcs; [reflexivity|].
  inversion Hcs as [|? ? Hc Hrest]; subst.
  cbn [AES.cbc_decrypt_blocks length].
  rewrite length_app, xor_bytes_length, f_length, Hp, IH by assumption.
  simpl. lia.
Qed.

End ChainingProperties.

Lemma bytes_of_state_length (s : AES.state) : length (AES.bytes_of_state s) = 16.
Proof.
  destruct s as [[[[[[a0 a1] a2] a3] [[[b0 b1] b2] b3]] [[[c0 c1] c2] c3]]
                 [[[d0 d1] d2] d3]].
  reflexivity.
Qed.

Lemma decrypt_block_length (key c : bytes) : length (AES.decrypt_block key c) = 16.
Proof. apply bytes_of_state_length. Qed.

Lemma encrypt_block_length (key p : bytes) : length (AES.encrypt_block key p) = 16.
Proof. apply bytes_of_state_length. Qed.

(** ** Decryption: the length checks *)

(** What [decrypt_aes_cbc] does once the key and the IV have 16 bytes. *)
Lemma decrypt_aes_cbc_checked (ciphertext key iv : bytes) :
  length key = 16 -> length iv = 16 ->
  decrypt_aes_cbc ciphertext key iv =
    if negb (length ciphertext mod 16 =? 0)
    then Raise (ValueError "Data must be padded to 16 byte boundary in CBC mode")
    else pkcs7_unpad (AES.cbc_decrypt_blocks (AES.decrypt_block key) iv
                        (AES.blocks (length ciphertext) ciphertext)).
Proof.
  intros Hk Hi. unfold decrypt_aes_cbc, AES.new_cbc, AES.decrypt, AES.block_size.
  rewrite Hk, Hi. cbn [Nat.eqb negb bind AES.cbc_key AES.cbc_iv].
  now destruct (negb (length ciphertext mod 16 =? 0)).
Qed.

Lemma decrypted_length (ciphertext key iv : bytes) :
  length iv = 16 -> length ciphertext mod 16 = 0 ->
  length (AES.cbc_decrypt_blocks (AES.decrypt_block key) iv
            (AES.blocks (length ciphertext) ciphertext)) = length ciphertext.
Proof.
  intros Hi Hm.
  destruct (blocks_of_multiple ciphertext Hm) as (_ & Hf & Hn).
  rewrite cbc_decrypt_blocks_length; auto using decrypt_block_length.
Qed.

Lemma InvalidCiphertextLengthError_not_padding :
  ~ InvalidCiphertextLengthError PaddingError.
Proof. intros [H|H]; discriminate H. Qed.

(** C4.  A key that is not 16 bytes long raises [InvalidKeyLengthError].
    With a key of 16 bytes, an IV that is not 16 bytes long raises
    [InvalidIVLengthError].  With a key and an IV of 16 bytes, a ciphertext
    whose length is not a positive multiple of 16 raises an
    [InvalidCiphertextLengthError]: the error of the cipher when the length
    is not a multiple of 16, the error of [pkcs7_unpad] on an empty
    plaintext when the length is 0.  When all three lengths are right none
    of these errors is raised: the call returns or raises [PaddingError]. *)
Theorem decrypt_aes_cbc_length_checks (ciphertext key iv : bytes) :
  (length key <> 16 ->
   decrypt_aes_cbc ciphertext key iv = Raise InvalidKeyLengthError)
  /\ (length key = 16 -> length iv <> 16 ->
      decrypt_aes_cbc ciphertext key iv = Raise InvalidIVLengthError)
  /\ (length key = 16 -> length iv = 16 ->
      (length ciphertext mod 16 <> 0 ->
       decrypt_aes_cbc ciphertext key iv
       = Raise (ValueError "Data must be padded to 16 byte boundary in CBC mode"))
      /\ (length ciphertext = 0 ->
          decrypt_aes_cbc ciphertext key iv = Raise (ValueError "plaintext vuoto"))
      /\ (~ (0 < length ciphertext /\ length ciphertext mod 16 = 0) ->
          exists e, decrypt_aes_cbc ciphertext key iv = Raise e
                    /\ InvalidCiphertextLengthError e))
  /\ (length key = 16 -> length iv = 16 ->
      0 < length ciphertext -> length ciphertext mod 16 = 0 ->
      (decrypt_aes_cbc ciphertext key iv = Raise PaddingError
       \/ exists plaintext, decrypt_aes_cbc ciphertext key iv = Ok plaintext)
      /\ decrypt_aes_cbc ciphertext key iv <> Raise InvalidKeyLengthError
      /\ decrypt_aes_cbc ciphertext key iv <> Raise InvalidIVLengthError
      /\ forall e, InvalidCiphertextLengthError e ->
                   decrypt_aes_cbc ciphertext key iv <> Raise e).
Proof.
  split; [|split; [|split]].
  - intros Hk. unfold decrypt_aes_cbc.
    destruct (Nat.eqb_spec (length key) 16); [contradiction|reflexivity].
  - intros Hk Hi. unfold decrypt_aes_cbc. rewrite Hk.
    destruct (Nat.eqb_spec (length iv) 16); [contradiction|reflexivity].
  - intros Hk Hi. rewrite decrypt_aes_cbc_checked by assumption.
    assert (Hcipher : length ciphertext mod 16 <> 0 ->
              (if negb (length ciphertext mod 16 =? 0)
               then Raise (ValueError "Data must be padded to 16 byte boundary in CBC mode")
               else pkcs7_unpad
                      (AES.cbc_decrypt_blocks (AES.decrypt_block key) iv
                         (AES.blocks (length ciphertext) ciphertext)))
              = Raise (ValueError "Data must be padded to 16 byte boundary in CBC mode")).
    { intros Hm.
      now destruct (Nat.eqb_spec (length ciphertext mod 16) 0). }
    assert (Hempty : length ciphertext = 0 ->
              (if negb (length ciphertext mod 16 =? 0)
               then Raise (ValueError "Data must be padded to 16 byte boundary in CBC mode")
               else pkcs7_unpad
                      (AES.cbc_decrypt_blocks (AES.decrypt_block key) iv
                         (AES.blocks (length ciphertext) ciphertext)))
              = Raise (ValueError "plaintext vuoto")).
    { intros Hl. apply length_zero_iff_nil in Hl. subst ciphertext. reflexivity. }
    split; [exact Hcipher|]. split; [exact Hempty|].
    intros Hc.
    destruct (Nat.eq_dec (length ciphertext mod 16) 0) as [Hm|Hm].
    + exists (ValueError "plaintext vuoto"). split; [|now right].
      apply Hempty.
      destruct (length ciphertext) eqn:El; [reflexivity|].
      exfalso. apply Hc. split; [lia|exact Hm].
    + eexists. split; [exact (Hcipher Hm)|now left].
  - intros Hk Hi Hpos Hm. rewrite decrypt_aes_cbc_checked by assumption.
    rewrite Hm. simpl.
    pose proof (decrypted_length ciphertext key iv Hi Hm) as Hlen.
    set (plain := AES.cbc_decrypt_blocks _ _ _) in *.
    assert (Hne : plain <> []) by (intros E; rewrite E in Hlen; simpl in Hlen; lia).
    destruct (pkcs7_unpad_nonempty plain Hne) as [H|[body H]]; rewrite H.
    + split; [now left|]. repeat split; try discriminate.
      intros e He [= <-]. now apply InvalidCiphertextLengthError_not_padding.
    + split; [right; now exists body|]. repeat split; discriminate.
Qed.

(** The examples of the spec: a key of 15 bytes, an IV of 17 bytes, a
    ciphertext of 17 bytes and an empty one. *)
Lemma decrypt_aes_cbc_length_checks_witness :
  decrypt_aes_cbc (repeat x00 16) (repeat x00 15) (repeat x00 16)
  = Raise InvalidKeyLengthError
  /\ decrypt_aes_cbc (repeat x00 16) (repeat x00 16) (repeat x00 17)
     = Raise InvalidIVLengthError
  /\ decrypt_aes_cbc (repeat x00 17) (repeat x00 16) (repeat x00 16)
     = Raise (ValueError "Data must be padded to 16 byte boundary in CBC mode")
  /\ decrypt_aes_cbc [] (repeat x00 16) (repeat x00 16)
     = Raise (ValueError "plaintext vuoto")
  /\ (exists e, decrypt_aes_cbc (repeat x00 17) (repeat x00 16) (repeat x00 16) = Raise e
                /\ InvalidCiphertextLengthError e)
  /\ (exists e, decrypt_aes_cbc [] (repeat x00 16) (repeat x00 16) = Raise e
                /\ InvalidCiphertextLengthError e).
Proof.
  split; [|split; [|split; [|split; [|split]]]].
  - apply (proj1 (decrypt_aes_cbc_length_checks _ _ _)). simpl. lia.
  - apply (proj1 (proj2 (decrypt_aes_cbc_length_checks _ _ _))); simpl; lia.
  - apply (proj1 (proj2 (proj2 (decrypt_aes_cbc_length_checks _ _ _))));
      [reflexivity|reflexivity|discriminate].
  - apply (proj1 (proj2 (proj2 (decrypt_aes_cbc_length_checks _ _ _))));
      reflexivity.
  - apply (proj1 (proj2 (proj2 (decrypt_aes_cbc_length_checks _ _ _))));
      [reflexivity|reflexivity|]. simpl. lia.
  - apply (proj1 (proj2 (proj2 (decrypt_aes_cbc_length_checks _ _ _))));
      [reflexivity|reflexivity|]. simpl. lia.
Defined.

(** ** Hexadecimal text *)

Lemma hexval_hexdigit (n : N) : (n < 16)%N -> hexval (hexdigit n) = Some n.
Proof.
  intros H. rewrite <- (N2Nat.id n).
  assert (Hin : In (N.to_nat n) (seq 0 16)) by (apply in_seq; lia).
  revert Hin. generalize (N.to_nat n). apply Forall_forall.
  repeat constructor.
Qed.

(** A hexadecimal digit is neither [x] nor [X]. *)
Lemma hexval_not_x (c : ascii) (d : N) :
  hexval c = Some d -> c <> "x"%char /\ c <> "X"%char.
Proof. intros H; split; intros ->; discriminate H. Qed.

Lemma byte_of_nibbles (x : byte) :
  byte_of_N (16 * (Byte.to_N x / 16) + Byte.to_N x mod 16) = x.
Proof.
  rewrite <- N.div_mod by discriminate. apply byte_of_N_to_N.
Qed.

Lemma unhexlify_hex (b : bytes) : unhexlify (hex b) = Ok b.
Proof.
  induction b as [|x b IH]; [reflexivity|].
  cbn [hex unhexlify].
  pose proof (to_N_lt_256 x) as Hx.
  rewrite !hexval_hexdigit.
  - rewrite IH. cbn [bind]. now rewrite byte_of_nibbles.
  - apply N.mod_upper_bound. discriminate.
  - apply N.Div0.div_lt_upper_bound. exact Hx.
Qed.

Lemma unhexlify_app (s1 s2 : string) (b1 b2 : bytes) :
  unhexlify s1 = Ok b1 -> unhexlify s2 = Ok b2 ->
  unhexlify (s1 ++ s2) = Ok (b1 ++ b2).
Proof.
  intros H1 H2. revert s1 H1.
  induction b1 as [|x b1 IH]; intros s1 H1.
  - destruct s1 as [|c1 [|c0 s1]]; cbn in H1 |- *; try discriminate; [exact H2|].
    destruct (hexval c1), (hexval c0); try discriminate.
    destruct (unhexlify s1); discriminate.
  - destruct s1 as [|c1 [|c0 s1]]; cbn in H1; try discriminate.
    cbn [append unhexlify].
    destruct (hexval c1), (hexval c0); try discriminate.
    destruct (unhexlify s1) as [r|] eqn:E; cbn in H1; [|discriminate].
    injection H1 as <- <-. now rewrite (IH s1 E).
Qed.

Lemma unhexlify_length (s : string) (b : bytes) :
  unhexlify s = Ok b -> String.length s = 2 * length b.
Proof.
  revert s. induction b as [|x b IH]; intros s H.
  - destruct s as [|c1 [|c0 s]]; cbn in H; try discriminate; [reflexivity|].
    destruct (hexval c1), (hexval c0); try discriminate.
    destruct (unhexlify s); discriminate.
  - destruct s as [|c1 [|c0 s]]; cbn in H; try discriminate.
    destruct (hexval c1), (hexval c0); try discriminate.
    destruct (unhexlify s) as [r|] eqn:E; cbn in H; [|discriminate].
    injection H as <- <-. cbn [String.length length]. rewrite (IH s E). lia.
Qed.

Lemma unhexlify_even (s : string) (b : bytes) :
  unhexlify s = Ok b -> Nat.odd (String.length s) = false.
Proof.
  intros H. rewrite (unhexlify_length s b H).
  rewrite Nat.odd_mul. reflexivity.
Qed.

(** Text that decodes to at least one byte does not start with [0x] or [0X]. *)
Lemma unhexlify_not_prefixed (s : string) (b : bytes) :
  unhexlify s = Ok b -> b <> [] ->
  String.prefix "0x" s = false /\ String.prefix "0X" s = false.
Proof.
  intros H Hb.
  destruct s as [|c1 [|c0 s]]; cbn in H; try discriminate.
  - injection H as <-. contradiction.
  - destruct (hexval c1) eqn:E1; [|discriminate].
    destruct (hexval c0) eqn:E0; [|discriminate].
    destruct (hexval_not_x c0 _ E0) as [Hx HX].
    cbn [String.prefix].
    destruct (Ascii.ascii_dec "0" c1) as [<-|]; [|split; reflexivity].
    destruct (Ascii.ascii_dec "x" c0) as [<-|]; [contradiction|].
    destruct (Ascii.ascii_dec "X" c0) as [<-|]; [contradiction|].
    split; reflexivity.
Qed.

Lemma hex_not_prefixed (b : bytes) : eth_utils.is_0x_prefixed (hex b) = false.
Proof.
  unfold eth_utils.is_0x_prefixed.
  destruct b as [|x b]; [reflexivity|].
  destruct (unhexlify_not_prefixed (hex (x :: b)) (x :: b)) as [-> ->];
    [apply unhexlify_hex|discriminate|reflexivity].
Qed.

Lemma string_length_append (s1 s2 : string) :
  String.length (s1 ++ s2) = String.length s1 + String.length s2.
Proof. induction s1 as [|c s1 IH]; simpl; [reflexivity|now rewrite IH]. Qed.

Lemma substring_all (s : string) : String.substring 0 (String.length s) s = s.
Proof. induction s as [|c s IH]; simpl; [reflexivity|now rewrite IH]. Qed.

Lemma is_0x_prefixed_0x (s : string) : eth_utils.is_0x_prefixed ("0x" ++ s) = true.
Proof.
  unfold eth_utils.is_0x_prefixed. cbn [append String.prefix].
  destruct (Ascii.ascii_dec "0" "0"); [|contradiction].
  destruct (Ascii.ascii_dec "x" "x"); [|contradiction].
  now destruct s.
Qed.

Lemma remove_0x_prefix_0x (s : string) : eth_utils.remove_0x_prefix ("0x" ++ s) = s.
Proof.
  unfold eth_utils.remove_0x_prefix. rewrite is_0x_prefixed_0x.
  cbn [append String.length Nat.sub String.substring].
  rewrite Nat.sub_0_r. apply substring_all.
Qed.

Lemma encode_hex_eq (b : bytes) : eth_utils.encode_hex b = ("0x" ++ hex b)%string.
Proof.
  unfold eth_utils.encode_hex, eth_utils.add_0x_prefix.
  now rewrite hex_not_prefixed.
Qed.

(** Text with the prefix, decoding to [b] once the prefix is taken off. *)
Lemma to_bytes_hexstr_0x (s : string) (b : bytes) :
  unhexlify s = Ok b -> eth_utils.to_bytes_hexstr ("0x" ++ s) = Ok b.
Proof.
  intros H. unfold eth_utils.to_bytes_hexstr, eth_utils.decode_hex.
  rewrite string_length_append. cbn [String.length Nat.add].
  rewrite Nat.odd_succ, Nat.even_succ, (unhexlify_even s b H).
  now rewrite remove_0x_prefix_0x.
Qed.

Lemma to_bytes_hexstr_hex (b : bytes) : eth_utils.to_bytes_hexstr (hex b) = Ok b.
Proof.
  unfold eth_utils.to_bytes_hexstr, eth_utils.decode_hex, eth_utils.remove_0x_prefix.
  rewrite hex_not_prefixed, (unhexlify_even _ _ (unhexlify_hex b)).
  apply unhexlify_hex.
Qed.

(** ** Numbers in hexadecimal *)

Lemma nibble_lt (n : N) (i : nat) : (nibble n i < 16)%N.
Proof. apply N.mod_upper_bound. discriminate. Qed.

Lemma nibble_high (n : N) (k i : nat) :
  (n < 16 ^ N.of_nat k)%N -> k <= i -> nibble n i = 0%N.
Proof.
  intros Hn Hi. unfold nibble.
  rewrite N.shiftr_div_pow2, N.div_small; [reflexivity|].
  eapply N.lt_le_trans; [exact Hn|].
  change 16%N with (2 ^ 4)%N. rewrite <- N.pow_mul_r.
  apply N.pow_le_mono_r; [discriminate|lia].
Qed.

Lemma hex_digits_length (k : nat) (n : N) : String.length (hex_digits k n) = k.
Proof. induction k as [|k IH]; simpl; [reflexivity|now rewrite IH]. Qed.

(** Above the digits of [n] there are only zeros. *)
Lemma hex_digits_zeros (j k : nat) (n : N) :
  (n < 16 ^ N.of_nat k)%N ->
  hex_digits (j + k) n = (string_repeat "0" j ++ hex_digits k n)%string.
Proof.
  intros Hn. induction j as [|j IH]; [reflexivity|].
  cbn [Nat.add hex_digits string_repeat append].
  rewrite (nibble_high n k (j + k)) by (assumption || lia).
  now rewrite IH.
Qed.

Lemma lt_pow_hex_len (n : N) : (n < 16 ^ N.of_nat (hex_len n))%N.
Proof.
  eapply N.lt_le_trans; [apply N.size_gt|].
  change 16%N with (2 ^ 4)%N. rewrite <- N.pow_mul_r.
  apply N.pow_le_mono_r; [discriminate|].
  unfold hex_len.
  pose proof (Nat.div_mod_eq (N.to_nat (N.size n) + 3) 4) as Hd.
  pose proof (Nat.mod_upper_bound (N.to_nat (N.size n) + 3) 4) as Hm.
  lia.
Qed.

Lemma hex_len_le (n : N) (k : nat) :
  0 < k -> (n < 16 ^ N.of_nat k)%N -> hex_len n <= k.
Proof.
  intros Hk Hn. unfold hex_len.
  assert (Hs : (N.size n <= 4 * N.of_nat k)%N).
  { destruct (N.eq_dec n 0) as [->|Hz]; [simpl; lia|].
    rewrite N.size_log2 by assumption.
    apply N.le_succ_l, N.log2_lt_pow2; [lia|].
    change 16%N with (2 ^ 4)%N in Hn. now rewrite <- N.pow_mul_r in Hn. }
  pose proof (Nat.div_mod_eq (N.to_nat (N.size n) + 3) 4) as Hd.
  pose proof (Nat.mod_upper_bound (N.to_nat (N.size n) + 3) 4) as Hm.
  lia.
Qed.

(** [hex(n)[2:].zfill(k)] is the [k]-digit form of [n] when [n] fits. *)
Lemma zfill_hex_digits (n : N) (k : nat) :
  0 < k -> (n < 16 ^ N.of_nat k)%N ->
  zfill k (hex_digits (hex_len n) n) = hex_digits k n.
Proof.
  intros Hk Hn. unfold zfill. rewrite hex_digits_length.
  pose proof (hex_len_le n k Hk Hn) as Hle.
  rewrite <- hex_digits_zeros by apply lt_pow_hex_len.
  f_equal. lia.
Qed.

Lemma nibbles_of_byte (q : N) :
  ((16 * (N.shiftr q 4 mod 16) + q mod 16) mod 256 = q mod 256)%N.
Proof.
  rewrite N.shiftr_div_pow2. change (2 ^ 4)%N with 16%N.
  change 256%N with (16 * 16)%N at 2.
  rewrite (N.Div0.mod_mul_r q 16 16).
  rewrite N.mod_small; [lia|].
  pose proof (N.mod_upper_bound (q / 16) 16). pose proof (N.mod_upper_bound q 16). lia.
Qed.

Lemma byte_of_N_mod (a b : N) : (a mod 256 = b mod 256)%N -> byte_of_N a = byte_of_N b.
Proof. unfold byte_of_N. now intros ->. Qed.

(** Two digits per byte: the [2m] digits of [n] decode to its [m] bytes. *)
Lemma unhexlify_hex_digits (m : nat) (n : N) :
  unhexlify (hex_digits (2 * m) n) = Ok (be_bytes m n).
Proof.
  induction m as [|m IH]; [reflexivity|].
  replace (2 * S m) with (S (S (2 * m))) by lia.
  cbn [hex_digits unhexlify be_bytes].
  rewrite !hexval_hexdigit by apply nibble_lt.
  rewrite IH. cbn [bind].
  apply f_equal, (f_equal (fun x => x :: be_bytes m n)).
  apply byte_of_N_mod. unfold nibble.
  replace (4 * N.of_nat (S (2 * m)))%N with (8 * N.of_nat m + 4)%N by lia.
  replace (4 * N.of_nat (2 * m))%N with (8 * N.of_nat m)%N by lia.
  rewrite <- N.shiftr_shiftr. apply nibbles_of_byte.
Qed.

Lemma hex_digits_not_prefixed (k : nat) (n : N) :
  eth_utils.is_0x_prefixed (hex_digits (2 * k) n) = false.
Proof.
  unfold eth_utils.is_0x_prefixed.
  destruct k as [|k]; [reflexivity|].
  destruct (unhexlify_not_prefixed _ _ (unhexlify_hex_digits (S k) n)) as [-> ->];
    [discriminate|reflexivity].
Qed.

(** The text web3 makes of a [uint256] value that fits in 256 bits. *)
Lemma pad_hex_uint256 (n : N) :
  (n < 2 ^ 256)%N ->
  Web3.pad_hex (py_hex n) 256 = ("0x" ++ hex_digits 64 n)%string.
Proof.
  intros Hn. unfold Web3.pad_hex, py_hex.
  rewrite remove_0x_prefix_0x.
  change (256 / 4) with 64.
  rewrite zfill_hex_digits; [|lia|exact Hn].
  unfold eth_utils.add_0x_prefix.
  change 64 with (2 * 32) at 1.
  now rewrite (hex_digits_not_prefixed 32 n).
Qed.

(** ** Text of hexadecimal digits *)


(** Only text of hexadecimal digits decodes. *)
Lemma unhexlify_is_hex_text (s : string) (b : bytes) :
  unhexlify s = Ok b -> is_hex_text s = true.
Proof.
  revert s. induction b as [|x b IH]; intros s H.
  - destruct s as [|c1 [|c0 s]]; cbn in H; try discriminate; [reflexivity|].
    destruct (hexval c1), (hexval c0); try discriminate.
    destruct (unhexlify s); discriminate.
  - destruct s as [|c1 [|c0 s]]; cbn in H; try discriminate.
    cbn [is_hex_text].
    destruct (hexval c1), (hexval c0); try discriminate.
    destruct (unhexlify s) as [r|] eqn:E; cbn in H; [|discriminate].
    injection H as <- <-. now apply IH.
Qed.




(** Neither [x] nor [X] is a digit: such text has no prefix to take off. *)
Lemma is_hex_text_not_prefixed (s : string) :
  is_hex_text s = true -> eth_utils.is_0x_prefixed s = false.
Proof.
  unfold eth_utils.is_0x_prefixed.
  destruct s as [|c1 [|c0 s]]; [reflexivity| |].
  - intros _. cbn [String.prefix].
    now destruct (Ascii.ascii_dec "0" c1).
  - cbn [is_hex_text].
    destruct (hexval c1); [|discriminate].
    destruct (hexval c0) eqn:E0; [|discriminate]. intros _.
    destruct (hexval_not_x c0 _ E0) as [Hx HX].
    cbn [String.prefix].
    destruct (Ascii.ascii_dec "0" c1) as [<-|]; [|reflexivity].
    destruct (Ascii.ascii_dec "x" c0) as [<-|]; [contradiction|].
    destruct (Ascii.ascii_dec "X" c0) as [<-|]; [contradiction|].
    reflexivity.
Qed.



(** ** Keccak-256: the digest has 32 bytes *)

Lemma keccak256_length (data : bytes) : length (Keccak.keccak256 data) = 32.
Proof.
  unfold Keccak.keccak256, Keccak.squeeze, Keccak.N_to_le8.
  cbn [seq flat_map]. rewrite !length_app, !length_map. reflexivity.
Qed.

Lemma utf8_length (s : string) : length (utf8 s) = String.length s.
Proof.
  unfold utf8, list_byte_of_string. rewrite length_map.
  induction s as [|c s IH]; simpl; [reflexivity|now rewrite IH].
Qed.

Lemma hex_length (b : bytes) : String.length (hex b) = 2 * length b.
Proof. apply unhexlify_length, unhexlify_hex. Qed.

(** ** The packed encoding and the camera identifier *)

Lemma encode_values_strings (values : list string) :
  eth_abi.encode_values (combine (map (fun _ => abi_string) values) (map PStr values))
  = Ok (concat (map utf8 values)).
Proof.
  induction values as [|v values IH]; [reflexivity|].
  cbn [map combine eth_abi.encode_values eth_abi.encode_value bind concat].
  now rewrite IH.
Qed.

(** C7. The packed encoding of the two strings "ab" and "cd" is the four
    bytes 0x61 0x62 0x63 0x64; the packed encoding of any list of strings is
    the concatenation of their UTF-8 bytes in argument order, with nothing
    added: its length is the sum of the lengths of the strings. *)
Theorem encode_packed_strings :
  eth_abi.encode_packed [abi_string; abi_string] [PStr "ab"; PStr "cd"]
  = Ok [x61; x62; x63; x64]
  /\ forall values : list string,
       eth_abi.encode_packed (map (fun _ => abi_string) values) (map PStr values)
       = Ok (concat (map utf8 values))
       /\ length (concat (map utf8 values)) = list_sum (map String.length values).
Proof.
  split; [reflexivity|]. intros values. split.
  - unfold eth_abi.encode_packed. rewrite !length_map, Nat.eqb_refl.
    apply encode_values_strings.
  - induction values as [|v values IH]; [reflexivity|].
    cbn [map concat list_sum]. now rewrite length_app, utf8_length, IH.
Qed.

(** C1. [generate_camera_id] returns the Keccak-256 digest of the packed
    encoding of the two strings, which is their UTF-8 bytes one after the
    other; the digest has 32 bytes and is returned as its 64 hexadecimal
    digits.  Equal inputs give equal outputs, and the camera of the script
    (MAC 1C:DB:D4:98:F9:D8, eFuse D8F998D4DB1C) gets the identifier below. *)
Theorem generate_camera_id_spec :
  (forall mac_address efuse_id : string,
     let digest := Keccak.keccak256 (utf8 mac_address ++ utf8 efuse_id) in
     eth_abi.encode_packed [abi_string; abi_string] [PStr mac_address; PStr efuse_id]
     = Ok (utf8 mac_address ++ utf8 efuse_id)
     /\ generate_camera_id mac_address efuse_id = Ok (hex digest)
     /\ length digest = 32
     /\ unhexlify (hex digest) = Ok digest)
  /\ (forall m1 e1 m2 e2 : string,
        m1 = m2 -> e1 = e2 -> generate_camera_id m1 e1 = generate_camera_id m2 e2)
  /\ generate_camera_id "1C:DB:D4:98:F9:D8" "D8F998D4DB1C"
     = Ok "fb571cf53f9f53003f51e13f55690684bcb9b7cff241ba6514417c6edc31c665"%string.
Proof.
  split; [|split].
  - intros mac_address efuse_id digest.
    assert (E : eth_abi.encode_packed [abi_string; abi_string]
                  [PStr mac_address; PStr efuse_id]
                = Ok (utf8 mac_address ++ utf8 efuse_id)).
    { cbn. now rewrite app_nil_r. }
    split; [exact E|]. split; [|split].
    + unfold generate_camera_id. rewrite E. reflexivity.
    + apply keccak256_length.
    + apply unhexlify_hex.
  - intros m1 e1 m2 e2 -> ->. reflexivity.
  - vm_compute. reflexivity.
Qed.

(** ** Signing: the digest *)

(** The hexadecimal text web3 makes of a photo hash that is [bytes] or
    prefixed text, with the prefix taken off, decodes to the hash. *)
Lemma hex_encode_photo_hash (ph : bytes) (v : pyval) :
  v = PBytes ph \/ (exists t, v = PStr ("0x" ++ t) /\ unhexlify t = Ok ph) ->
  exists h,
    Web3.hex_encode_abi_type abi_bytes32 v = Ok h
    /\ unhexlify (eth_utils.remove_0x_prefix h) = Ok ph.
Proof.
  intros [->|[t [-> Ht]]].
  - exists (eth_utils.encode_hex ph). split; [reflexivity|].
    rewrite encode_hex_eq, remove_0x_prefix_0x. apply unhexlify_hex.
  - exists ("0x" ++ t)%string. split.
    + unfold Web3.hex_encode_abi_type, Web3.validate_abi_value.
      now rewrite is_0x_prefixed_0x.
    + now rewrite remove_0x_prefix_0x.
Qed.

Lemma hex_encode_string (s : string) :
  Web3.hex_encode_abi_type abi_string (PStr s) = Ok ("0x" ++ hex (utf8 s))%string.
Proof. cbn. now rewrite encode_hex_eq. Qed.

Lemma nonce_fits (nonce : Z) :
  (0 <= nonce < 2 ^ 256)%Z -> (Z.to_N nonce < 2 ^ 256)%N.
Proof.
  intros H. change (2 ^ 256)%N with (Z.to_N (2 ^ 256)).
  apply Z2N.inj_lt; lia.
Qed.

Lemma hex_encode_uint256 (nonce : Z) :
  (0 <= nonce < 2 ^ 256)%Z ->
  Web3.hex_encode_abi_type abi_uint256 (PInt nonce)
  = Ok ("0x" ++ hex_digits 64 (Z.to_N nonce))%string.
Proof.
  intros H. unfold Web3.hex_encode_abi_type, Web3.validate_abi_value.
  destruct (Z.leb_spec 0 nonce); [|lia]. cbn [bind].
  now rewrite pad_hex_uint256 by now apply nonce_fits.
Qed.

(** [Web3.solidity_keccak] on the tuple of [sign_photo]: the Keccak-256
    digest of the hash, the two texts and the 32 big-endian bytes of the
    nonce, one after the other.  The hash may have any length. *)
Lemma solidity_keccak_photo_any (ph : bytes) (v : pyval) (location metadata : string)
    (nonce : Z) :
  v = PBytes ph \/ (exists t, v = PStr ("0x" ++ t) /\ unhexlify t = Ok ph) ->
  (0 <= nonce < 2 ^ 256)%Z ->
  Web3.solidity_keccak [abi_bytes32; abi_string; abi_string; abi_uint256]
                       [v; PStr location; PStr metadata; PInt nonce]
  = Ok (Keccak.keccak256
          (ph ++ utf8 location ++ utf8 metadata ++ be_bytes 32 (Z.to_N nonce))).
Proof.
  intros Hv Hn.
  destruct (hex_encode_photo_hash ph v Hv) as (h & Hh & Hdec).
  unfold Web3.solidity_keccak.
  cbn [length Nat.eqb negb combine Web3.hex_encode_all].
  rewrite Hh, !hex_encode_string, (hex_encode_uint256 nonce Hn).
  cbn [bind]. rewrite !remove_0x_prefix_0x.
  set (joined := (eth_utils.remove_0x_prefix h ++ hex (utf8 location)
                  ++ hex (utf8 metadata) ++ hex_digits 64 (Z.to_N nonce) ++ "")%string).
  assert (Hj : unhexlify joined
               = Ok (ph ++ utf8 location ++ utf8 metadata
                        ++ be_bytes 32 (Z.to_N nonce) ++ [])).
  { unfold joined.
    repeat (apply unhexlify_app; [assumption || apply unhexlify_hex|]).
    apply unhexlify_app; [|reflexivity].
    apply (unhexlify_hex_digits 32). }
  rewrite app_nil_r in Hj.
  unfold Web3.keccak_hexstr, eth_utils.add_0x_prefix.
  rewrite (is_hex_text_not_prefixed _ (unhexlify_is_hex_text _ _ Hj)).
  now rewrite (to_bytes_hexstr_0x _ _ Hj).
Qed.

Lemma solidity_keccak_photo (ph : bytes) (v : pyval) (location metadata : string)
    (nonce : Z) :
  v = PBytes ph \/ (exists t, v = PStr ("0x" ++ t) /\ unhexlify t = Ok ph) ->
  ph <> [] ->
  (0 <= nonce < 2 ^ 256)%Z ->
  Web3.solidity_keccak [abi_bytes32; abi_string; abi_string; abi_uint256]
                       [v; PStr location; PStr metadata; PInt nonce]
  = Ok (Keccak.keccak256
          (ph ++ utf8 location ++ utf8 metadata ++ be_bytes 32 (Z.to_N nonce))).
Proof. intros Hv _ Hn. now apply solidity_keccak_photo_any. Qed.



(** Without its prefix, text is not accepted for a [bytes32] value. *)
Lemma solidity_keccak_unprefixed (h location metadata : string) (nonce : Z) :
  eth_utils.is_0x_prefixed h = false ->
  exists msg,
    Web3.solidity_keccak [abi_bytes32; abi_string; abi_string; abi_uint256]
                         [PStr h; PStr location; PStr metadata; PInt nonce]
    = Raise (TypeError msg).
Proof.
  intros Hp. unfold Web3.solidity_keccak.
  cbn [length Nat.eqb negb combine Web3.hex_encode_all].
  unfold Web3.hex_encode_abi_type at 1. unfold Web3.validate_abi_value at 1.
  rewrite Hp. cbn [bind]. eexists. reflexivity.
Qed.

(** The packed encoding of the same tuple by eth_abi gives these bytes. *)
Lemma encode_packed_photo (ph : bytes) (location metadata : string) (nonce : Z) :
  length ph = 32 -> (0 <= nonce < 2 ^ 256)%Z ->
  eth_abi.encode_packed [abi_bytes32; abi_string; abi_string; abi_uint256]
                        [PBytes ph; PStr location; PStr metadata; PInt nonce]
  = Ok (ph ++ utf8 location ++ utf8 metadata ++ be_bytes 32 (Z.to_N nonce)).
Proof.
  intros Hl Hn. unfold eth_abi.encode_packed.
  cbn [length Nat.eqb negb combine eth_abi.encode_values eth_abi.encode_value].
  rewrite Hl. cbn [Nat.leb Nat.sub repeat].
  destruct (Z.leb_spec 0 nonce); [|lia].
  destruct (Z.ltb_spec nonce (2 ^ 256)); [|lia].
  cbn [andb bind]. now rewrite !app_nil_r.
Qed.

(** The message [encode_defunct] makes of the text of a 32-byte digest, hashed
    as EIP-191 says: the digest after the personal-message prefix. *)
Lemma personal_message_hash (digest : bytes) :
  length digest = 32 ->
  exists m,
    eth_account.encode_defunct_hexstr (hex digest) = Ok m
    /\ eth_account.hash_eip191_message m
       = Keccak.keccak256 (personal_message_prefix ++ digest).
Proof.
  intros Hl. unfold eth_account.encode_defunct_hexstr.
  rewrite to_bytes_hexstr_hex. cbn [bind]. eexists. split; [reflexivity|].
  unfold eth_account.hash_eip191_message.
  cbn [eth_account.version eth_account.header eth_account.body].
  rewrite Hl. reflexivity.
Qed.

(** ** Signing: the steps of [sign_photo] *)

Lemma solidity_keccak_length (abi_types : list abi_type) (values : list pyval)
    (message_hash : bytes) :
  Web3.solidity_keccak abi_types values = Ok message_hash ->
  length message_hash = 32.
Proof.
  unfold Web3.solidity_keccak, Web3.keccak_hexstr.
  destruct (negb _); [discriminate|].
  destruct (Web3.hex_encode_all _) as [joined|]; [|discriminate]. cbn [bind].
  destruct (eth_utils.to_bytes_hexstr _) as [b|]; [|discriminate]. cbn [bind].
  intros [= <-]. apply keccak256_length.
Qed.

Section SignPhotoProperties.
Context {backend : ECCBackend}.

(** [sign_photo] is the chain of its library calls: the account of the key,
    the digest of the tuple, the signature of the backend over the hash of
    the personal message made of that digest. *)
Lemma sign_photo_chain (private_key photo_hash : pyval) (location metadata : string)
    (nonce : Z) :
  sign_photo private_key photo_hash location metadata nonce =
    (account <- eth_account.from_key private_key ;;
     message_hash <- Web3.solidity_keccak
                       [abi_bytes32; abi_string; abi_string; abi_uint256]
                       [with_0x_prefix photo_hash; PStr location; PStr metadata;
                        PInt nonce] ;;
     vrs <- ecdsa_sign
              (Keccak.keccak256 (personal_message_prefix ++ message_hash))
              (eth_account.key account) ;;
     Ok (signed_photo (with_0x_prefix photo_hash) location metadata nonce account vrs)).
Proof.
  unfold sign_photo. fold (with_0x_prefix photo_hash).
  destruct (eth_account.from_key private_key) as [account|e]; [|reflexivity].
  cbn [bind].
  destruct (Web3.solidity_keccak _ _) as [message_hash|e] eqn:E; [|reflexivity].
  cbn [bind].
  destruct (personal_message_hash message_hash (solidity_keccak_length _ _ _ E))
    as (m & -> & Hm).
  cbn [bind]. unfold eth_account.sign_message.
  rewrite Hm, keccak256_length. cbn [Nat.eqb negb].
  destruct (ecdsa_sign _ _) as [[[v_raw r] s]|e]; reflexivity.
Qed.

Lemma prefix_0x_0x (t : string) : String.prefix "0x" ("0x" ++ t) = true.
Proof.
  cbn [append String.prefix].
  destruct (Ascii.ascii_dec "0" "0"); [|contradiction].
  destruct (Ascii.ascii_dec "x" "x"); [|contradiction].
  now destruct t.
Qed.

(** Whatever form the hash comes in, web3 gets bytes or prefixed text. *)
Lemma with_0x_prefix_repr (ph : bytes) (v : pyval) :
  photo_hash_repr ph v -> ph <> [] ->
  with_0x_prefix v = PBytes ph
  \/ (exists t, with_0x_prefix v = PStr ("0x" ++ t) /\ unhexlify t = Ok ph).
Proof.
  intros [|t Ht|t Ht] Hne.
  - now left.
  - right. exists t. split; [|exact Ht]. cbn [with_0x_prefix].
    now destruct (unhexlify_not_prefixed t ph Ht Hne) as [-> _].
  - right. exists t. split; [|exact Ht]. cbn [with_0x_prefix].
    now rewrite prefix_0x_0x.
Qed.


(** C2. For a key the library accepts, a photo hash of 32 bytes in any of
    its forms, two strings and a nonce that fits in 256 bits: the inner
    digest is the Keccak-256 digest of the packed encoding of (bytes32 hash,
    string location, string metadata, uint256 nonce); the preimage is the
    personal-message prefix followed by the inner digest; the final digest is
    its Keccak-256 digest; and the signature [sign_photo] returns is the one
    the backend makes over the final digest with the key. *)
Theorem sign_photo_digest (private_key photo_hash : pyval) (ph : bytes)
    (location metadata : string) (nonce : Z) (account : eth_account.LocalAccount) :
  eth_account.from_key private_key = Ok account ->
  photo_hash_repr ph photo_hash ->
  length ph = 32 ->
  (0 <= nonce < 2 ^ 256)%Z ->
  exists packed inner_digest final_digest,
    eth_abi.encode_packed [abi_bytes32; abi_string; abi_string; abi_uint256]
                          [PBytes ph; PStr location; PStr metadata; PInt nonce]
    = Ok packed
    /\ packed = ph ++ utf8 location ++ utf8 metadata ++ be_bytes 32 (Z.to_N nonce)
    /\ inner_digest = Keccak.keccak256 packed
    /\ final_digest = Keccak.keccak256 (personal_message_prefix ++ inner_digest)
    /\ (forall e,
          ecdsa_sign final_digest (eth_account.key account) = Raise e ->
          sign_photo private_key photo_hash location metadata nonce = Raise e)
    /\ (forall v r s,
          ecdsa_sign final_digest (eth_account.key account) = Ok (v, r, s) ->
          exists signed,
            sign_photo private_key photo_hash location metadata nonce = Ok signed
            /\ Signed.signature signed
               = hex (eth_account.to_bytes32 r ++ eth_account.to_bytes32 s
                        ++ eth_account.int_to_big_endian (v + 27))
            /\ Signed.r signed = py_hex r
            /\ Signed.s signed = py_hex s
            /\ Signed.v signed = (v + 27)%N
            /\ Signed.camera_address signed = eth_account.address account).
Proof.
  intros Hkey Hrepr Hlen Hnonce.
  assert (Hne : ph <> []) by (intros ->; discriminate Hlen).
  do 3 eexists.
  split; [now apply encode_packed_photo|].
  split; [reflexivity|]. split; [reflexivity|]. split; [reflexivity|].
  pose proof (solidity_keccak_photo ph _ location metadata nonce
                (with_0x_prefix_repr ph photo_hash Hrepr Hne) Hne Hnonce) as Hk.
  split.
  - intros e He. rewrite sign_photo_chain, Hkey. cbn [bind].
    rewrite Hk. cbn [bind]. now rewrite He.
  - intros v r s Hs. eexists. split.
    + rewrite sign_photo_chain, Hkey. cbn [bind].
      rewrite Hk. cbn [bind]. rewrite Hs. reflexivity.
    + repeat split.
Qed.

(** What a returned dictionary holds under [photo_hash]. *)
Lemma sign_photo_photo_hash (private_key photo_hash : pyval)
    (location metadata : string) (nonce : Z) (signed : Signed.t) :
  sign_photo private_key photo_hash location metadata nonce = Ok signed ->
  Signed.photo_hash signed = with_0x_prefix photo_hash.
Proof.
  rewrite sign_photo_chain.
  destruct (eth_account.from_key private_key); [|discriminate]. cbn [bind].
  destruct (Web3.solidity_keccak _ _); [|discriminate]. cbn [bind].
  destruct (ecdsa_sign _ _) as [[[v r] s]|]; [|discriminate]. cbn [bind].
  now intros [= <-].
Qed.

(** C10. A photo hash given as text that does not start with [0x] gets
    the prefix before web3 encodes it.  The call with [h] gives the same
    result as the call with [0x] before [h], and that result is the one of
    the library calls on the prefixed text.  A dictionary returned for [h]
    holds [0x] before [h] under [photo_hash].  For hexadecimal [h], a nonce
    of 256 bits, a key that [from_key] accepts and a backend that signs,
    both calls return the dictionary of that signature, although web3
    refuses [h] itself.  The [photo_hash] of a dictionary returned for a
    textual hash is the hash given or the hash after [0x], and starts with
    [0x]. *)
Theorem sign_photo_adds_0x (private_key : pyval) (h location metadata : string)
    (nonce : Z) :
  String.prefix "0x" h = false ->
  sign_photo private_key (PStr h) location metadata nonce
  = sign_photo private_key (PStr ("0x" ++ h)) location metadata nonce
  /\ sign_photo private_key (PStr h) location metadata nonce
     = (account <- eth_account.from_key private_key ;;
        message_hash <- Web3.solidity_keccak
                          [abi_bytes32; abi_string; abi_string; abi_uint256]
                          [PStr ("0x" ++ h); PStr location; PStr metadata;
                           PInt nonce] ;;
        vrs <- ecdsa_sign
                 (Keccak.keccak256 (personal_message_prefix ++ message_hash))
                 (eth_account.key account) ;;
        Ok (signed_photo (PStr ("0x" ++ h)) location metadata nonce account vrs))
  /\ (forall signed : Signed.t,
        sign_photo private_key (PStr h) location metadata nonce = Ok signed ->
        Signed.photo_hash signed = PStr ("0x" ++ h))
  /\ (forall (ph : bytes) (account : eth_account.LocalAccount) (vrs : N * N * N),
        unhexlify h = Ok ph ->
        (0 <= nonce < 2 ^ 256)%Z ->
        eth_account.from_key private_key = Ok account ->
        ecdsa_sign
          (Keccak.keccak256
             (personal_message_prefix
                ++ Keccak.keccak256
                     (ph ++ utf8 location ++ utf8 metadata
                         ++ be_bytes 32 (Z.to_N nonce))))
          (eth_account.key account) = Ok vrs ->
        (exists msg,
           Web3.solidity_keccak
             [abi_bytes32; abi_string; abi_string; abi_uint256]
             [PStr h; PStr location; PStr metadata; PInt nonce]
           = Raise (TypeError msg))
        /\ sign_photo private_key (PStr h) location metadata nonce
           = Ok (signed_photo (PStr ("0x" ++ h)) location metadata nonce account vrs)
        /\ sign_photo private_key (PStr ("0x" ++ h)) location metadata nonce
           = Ok (signed_photo (PStr ("0x" ++ h)) location metadata nonce account vrs))
  /\ (forall (h' : string) (signed : Signed.t),
        sign_photo private_key (PStr h') location metadata nonce = Ok signed ->
        exists t, Signed.photo_hash signed = PStr t /\ String.prefix "0x" t = true
                  /\ (t = h' \/ t = ("0x" ++ h')%string)).
Proof.
  intros Hp.
  assert (Heq : sign_photo private_key (PStr h) location metadata nonce
                = sign_photo private_key (PStr ("0x" ++ h)) location metadata nonce).
  { rewrite !sign_photo_chain. cbn [with_0x_prefix].
    now rewrite Hp, prefix_0x_0x. }
  assert (Hchain : with_0x_prefix (PStr h) = PStr ("0x" ++ h))
    by (cbn [with_0x_prefix]; now rewrite Hp).
  split; [exact Heq|]. split; [|split; [|split]].
  - now rewrite sign_photo_chain, Hchain.
  - intros signed Hs. apply sign_photo_photo_hash in Hs. now rewrite Hs.
  - intros ph account vrs Hh Hn Hkey Hsig.
    assert (Hs : sign_photo private_key (PStr h) location metadata nonce
                 = Ok (signed_photo (PStr ("0x" ++ h)) location metadata nonce
                                    account vrs)).
    { rewrite sign_photo_chain, Hchain, Hkey. cbn [bind].
      assert (Hv : PStr ("0x" ++ h) = PBytes ph
                   \/ (exists t, PStr ("0x" ++ h) = PStr ("0x" ++ t)
                                 /\ unhexlify t = Ok ph))
        by (right; exists h; split; [reflexivity|exact Hh]).
      rewrite (solidity_keccak_photo_any ph _ location metadata nonce Hv Hn).
      cbn [bind]. rewrite Hsig. reflexivity. }
    split; [|split; [exact Hs|now rewrite <- Heq]].
    apply solidity_keccak_unprefixed, is_hex_text_not_prefixed.
    exact (unhexlify_is_hex_text _ _ Hh).
  - intros h' signed Hs. apply sign_photo_photo_hash in Hs. rewrite Hs.
    cbn [with_0x_prefix].
    destruct (String.prefix "0x" h') eqn:E; cbn [negb]; eexists;
      (split; [reflexivity|split]); auto using prefix_0x_0x.
Qed.

(** X3.  A returned dictionary repeats the location, the metadata and the nonce,
    and names the address of the account of the key. *)
Lemma sign_photo_echo (private_key photo_hash : pyval)
    (location metadata : string) (nonce : Z) (signed : Signed.t) :
  sign_photo private_key photo_hash location metadata nonce = Ok signed ->
  Signed.location signed = location
  /\ Signed.metadata signed = metadata
  /\ Signed.nonce signed = nonce
  /\ exists account,
       eth_account.from_key private_key = Ok account
       /\ Signed.camera_address signed = eth_account.address account.
Proof.
  rewrite sign_photo_chain.
  destruct (eth_account.from_key private_key) as [account|]; [|discriminate].
  cbn [bind].
  destruct (Web3.solidity_keccak _ _); [|discriminate]. cbn [bind].
  destruct (ecdsa_sign _ _) as [[[v r] s]|]; [|discriminate]. cbn [bind].
  intros [= <-]. repeat split. now exists account.
Qed.

(** ** Signing: failures *)











End SignPhotoProperties.

(** ** The pure-Python backend at the key 1 *)

(** The account of the private key 1: its well-known address. *)
Lemma native_account_of_key_one :
  eth_account.from_key (backend := native.backend) key_one
  = Ok {| eth_account.key := be_bytes 32 1;
          eth_account.address := "0x7E5F4552091A69125d5DfCb7b8C2659029395Bdf" |}.
Proof. vm_compute. reflexivity. Qed.

(** With the pure-Python backend, [sign_photo] returns as soon as the key
    and the tuple are accepted. *)
Lemma native_sign_photo_returns (private_key photo_hash : pyval)
    (location metadata : string) (nonce : Z) (account : eth_account.LocalAccount)
    (message_hash : bytes) :
  eth_account.from_key (backend := native.backend) private_key = Ok account ->
  Web3.solidity_keccak [abi_bytes32; abi_string; abi_string; abi_uint256]
    [with_0x_prefix photo_hash; PStr location; PStr metadata; PInt nonce]
  = Ok message_hash ->
  exists signed,
    sign_photo (backend := native.backend) private_key photo_hash location
               metadata nonce = Ok signed.
Proof.
  intros Hkey Hk. rewrite sign_photo_chain, Hkey. cbn [bind]. rewrite Hk.
  cbn [bind ecdsa_sign native.backend]. eexists. reflexivity.
Qed.


(** C2 at the key 1, the SHA-256 digest of a photo as the script passes it
    (prefixed text), the default location and metadata, and the nonce 0. *)
Lemma sign_photo_digest_witness :
  exists final_digest signed,
    final_digest
    = Keccak.keccak256
        (personal_message_prefix
           ++ Keccak.keccak256
                (SHA256.sha256 (utf8 "photo") ++ utf8 "Building A - Entrance"
                   ++ utf8 "Motion detected" ++ be_bytes 32 0))
    /\ sign_photo (backend := native.backend) key_one
                  (PStr ("0x" ++ hex (SHA256.sha256 (utf8 "photo"))))
                  "Building A - Entrance" "Motion detected" 0 = Ok signed
    /\ (exists v r s,
          ecdsa_sign (ECCBackend := native.backend) final_digest (be_bytes 32 1)
          = Ok (v, r, s)
          /\ Signed.signature signed
             = hex (eth_account.to_bytes32 r ++ eth_account.to_bytes32 s
                      ++ eth_account.int_to_big_endian (v + 27)))
    /\ Signed.camera_address signed
       = "0x7E5F4552091A69125d5DfCb7b8C2659029395Bdf"%string.
Proof.
  destruct (sign_photo_digest (backend := native.backend) key_one
              (PStr ("0x" ++ hex (SHA256.sha256 (utf8 "photo"))))
              (SHA256.sha256 (utf8 "photo"))
              "Building A - Entrance" "Motion detected" 0 _
              native_account_of_key_one
              (repr_0x_hex _ _ (unhexlify_hex _)))
    as (packed & inner & final & _ & -> & -> & -> & _ & Hok).
  - vm_compute. reflexivity.
  - lia.
  - cbn [eth_account.key] in Hok.
    destruct (native.ecdsa_raw_sign
                (Keccak.keccak256
                   (personal_message_prefix
                      ++ Keccak.keccak256
                           (SHA256.sha256 (utf8 "photo")
                              ++ utf8 "Building A - Entrance"
                              ++ utf8 "Motion detected"
                              ++ be_bytes 32 (Z.to_N 0))))
                (be_bytes 32 1)) as [[v r] s] eqn:E.
    destruct (Hok (Z.to_N v) (Z.to_N r) (Z.to_N s)) as (signed & Hs & Hsig & _ & _ & _ & Ha).
    { cbn [ecdsa_sign native.backend]. now rewrite E. }
    exists (Keccak.keccak256
              (personal_message_prefix
                 ++ Keccak.keccak256
                      (SHA256.sha256 (utf8 "photo") ++ utf8 "Building A - Entrance"
                         ++ utf8 "Motion detected" ++ be_bytes 32 0))), signed.
    split; [reflexivity|]. split; [exact Hs|]. split; [|exact Ha].
    exists (Z.to_N v), (Z.to_N r), (Z.to_N s). split; [|exact Hsig].
    cbn [ecdsa_sign native.backend]. change (Z.to_N 0) with 0%N in E. now rewrite E.
Defined.

(** C10 at the key 1 and a hash of 32 bytes given without prefix: both
    calls return the same dictionary, which holds the hash after [0x]. *)
Lemma sign_photo_adds_0x_witness :
  exists signed,
    sign_photo (backend := native.backend) key_one (PStr sample_photo_hash)
               "Building A - Entrance" "Motion detected" 0 = Ok signed
    /\ sign_photo (backend := native.backend) key_one
                  (PStr ("0x" ++ sample_photo_hash))
                  "Building A - Entrance" "Motion detected" 0 = Ok signed
    /\ Signed.photo_hash signed = PStr ("0x" ++ sample_photo_hash).
Proof.
  destruct (sign_photo_adds_0x (backend := native.backend) key_one
              sample_photo_hash "Building A - Entrance" "Motion detected" 0
              eq_refl) as (Heq & _ & Hph & _).
  destruct (native_sign_photo_returns key_one (PStr ("0x" ++ sample_photo_hash))
              "Building A - Entrance" "Motion detected" 0 _
              (Keccak.keccak256
                 (repeat xab 32 ++ utf8 "Building A - Entrance"
                    ++ utf8 "Motion detected" ++ be_bytes 32 (Z.to_N 0)))
              native_account_of_key_one) as [signed Hs].
  { apply solidity_keccak_photo_any; [|lia].
    right. exists sample_photo_hash. split; reflexivity. }
  exists signed. rewrite Heq. split; [exact Hs|]. split; [exact Hs|].
  apply Hph. rewrite Heq. exact Hs.
Defined.


(** ** Exclusive or on bytes *)

Lemma log2_lt_8 (a : N) : (a < 256 -> N.log2 a < 8)%N.
Proof.
  intros Ha. destruct (N.eq_dec a 0) as [->|Hz]; [reflexivity|].
  apply N.log2_lt_pow2; [lia|exact Ha].
Qed.

Lemma lxor_lt_256 (a b : N) : (a < 256 -> b < 256 -> N.lxor a b < 256)%N.
Proof.
  intros Ha Hb.
  destruct (N.eq_dec (N.lxor a b) 0) as [->|Hz]; [reflexivity|].
  change 256%N with (2 ^ 8)%N. apply N.log2_lt_pow2; [lia|].
  pose proof (N.log2_lxor a b). pose proof (log2_lt_8 a Ha).
  pose proof (log2_lt_8 b Hb). lia.
Qed.

Lemma to_N_bxor (a b : byte) :
  Byte.to_N (bxor a b) = N.lxor (Byte.to_N a) (Byte.to_N b).
Proof.
  unfold bxor. rewrite to_N_byte_of_N.
  apply N.mod_small, lxor_lt_256; apply to_N_lt_256.
Qed.

Lemma to_N_inj (a b : byte) : Byte.to_N a = Byte.to_N b -> a = b.
Proof.
  intros H. rewrite <- (byte_of_N_to_N a), <- (byte_of_N_to_N b). now rewrite H.
Qed.

Lemma bxor_comm (a b : byte) : bxor a b = bxor b a.
Proof. apply to_N_inj. rewrite !to_N_bxor. apply N.lxor_comm. Qed.

Lemma bxor_assoc (a b c : byte) : bxor a (bxor b c) = bxor (bxor a b) c.
Proof. apply to_N_inj. rewrite !to_N_bxor. symmetry. apply N.lxor_assoc. Qed.

Lemma bxor_0_r (a : byte) : bxor a x00 = a.
Proof. apply to_N_inj. rewrite to_N_bxor. apply N.lxor_0_r. Qed.

Lemma bxor_0_l (a : byte) : bxor x00 a = a.
Proof. rewrite bxor_comm. apply bxor_0_r. Qed.

Lemma bxor_nilpotent (a : byte) : bxor a a = x00.
Proof. apply to_N_inj. rewrite to_N_bxor. apply N.lxor_nilpotent. Qed.

Lemma bxor_cancel_r (a b : byte) : bxor (bxor a b) b = a.
Proof. now rewrite <- bxor_assoc, bxor_nilpotent, bxor_0_r. Qed.

#[local] Instance bxor_Associative : Associative eq bxor.
Proof. intros a b c. apply bxor_assoc. Qed.

#[local] Instance bxor_Commutative : Commutative eq bxor.
Proof. intros a b. apply bxor_comm. Qed.

#[local] Instance bxor_Unit : Unit eq bxor x00.
Proof. split; intros a; [apply bxor_0_l|apply bxor_0_r]. Qed.

Lemma xor_bytes_cancel (p prev : bytes) :
  length p <= length prev ->
  AES.xor_bytes (AES.xor_bytes p prev) prev = p.
Proof.
  revert prev. induction p as [|x p IH]; intros [|y prev] Hl; simpl in *;
    try reflexivity; try lia.
  rewrite bxor_cancel_r, IH by lia. reflexivity.
Qed.

(** ** Statements over all bytes, by enumeration *)

Lemma all_bytes_complete (b : byte) : In b AES.all_bytes.
Proof.
  unfold AES.all_bytes. apply in_map_iff.
  exists (pad_length b). split; [apply byte_of_nat_pad_length|].
  apply in_seq. unfold pad_length. pose proof (to_N_lt_256 b). lia.
Qed.

Lemma for_all_bytes (P : byte -> bool) :
  forallb P AES.all_bytes = true -> forall b, P b = true.
Proof.
  intros H b. rewrite forallb_forall in H. apply H, all_bytes_complete.
Qed.

Lemma for_all_bytes2 (P : byte -> byte -> bool) :
  forallb (fun a => forallb (P a) AES.all_bytes) AES.all_bytes = true ->
  forall a b, P a b = true.
Proof.
  intros H a b. apply for_all_bytes. revert a. apply for_all_bytes. exact H.
Qed.

Ltac by_enumeration :=
  intros; apply Byte.byte_dec_bl;
  match goal with
  | |- Byte.eqb ?l ?r = true =>
      match goal with
      | a : byte, b : byte |- _ =>
          pattern a, b;
          match goal with
          | |- ?P a b => revert a b; apply (for_all_bytes2 (fun a b => _))
          end
      | a : byte |- _ =>
          pattern a;
          match goal with
          | |- ?P a => revert a; apply (for_all_bytes (fun a => _))
          end
      end
  end; vm_compute; reflexivity.

(** ** AES: each step of the cipher has its inverse *)

Lemma inv_sbox_sbox (b : byte) : AES.inv_sbox (AES.sbox b) = b.
Proof. by_enumeration. Qed.

Lemma xtime_xor (a b : byte) :
  AES.xtime (bxor a b) = bxor (AES.xtime a) (AES.xtime b).
Proof. by_enumeration. Qed.

(** The multiplications by constants are linear: they are made of [xtime]
    and exclusive or. *)
Lemma mul3_xor (a b : byte) : AES.mul3 (bxor a b) = bxor (AES.mul3 a) (AES.mul3 b).
Proof. unfold AES.mul3. rewrite !xtime_xor. aac_reflexivity. Qed.

Lemma mul9_xor (a b : byte) : AES.mul9 (bxor a b) = bxor (AES.mul9 a) (AES.mul9 b).
Proof. unfold AES.mul9. rewrite !xtime_xor. aac_reflexivity. Qed.

Lemma mul11_xor (a b : byte) : AES.mul11 (bxor a b) = bxor (AES.mul11 a) (AES.mul11 b).
Proof. unfold AES.mul11. rewrite !xtime_xor. aac_reflexivity. Qed.

Lemma mul13_xor (a b : byte) : AES.mul13 (bxor a b) = bxor (AES.mul13 a) (AES.mul13 b).
Proof. unfold AES.mul13. rewrite !xtime_xor. aac_reflexivity. Qed.

Lemma mul14_xor (a b : byte) : AES.mul14 (bxor a b) = bxor (AES.mul14 a) (AES.mul14 b).
Proof. unfold AES.mul14. rewrite !xtime_xor. aac_reflexivity. Qed.

(** The product of the two matrices of MixColumns, entry by entry: the
    diagonal entry is 1, the others are 0. *)
Lemma mix_entry_0 (x : byte) :
  bxor (bxor (bxor (AES.mul14 (AES.mul2 x)) (AES.mul11 x)) (AES.mul13 x))
       (AES.mul9 (AES.mul3 x)) = x.
Proof. by_enumeration. Qed.

Lemma mix_entry_1 (x : byte) :
  bxor (bxor (bxor (AES.mul14 (AES.mul3 x)) (AES.mul11 (AES.mul2 x))) (AES.mul13 x))
       (AES.mul9 x) = x00.
Proof. by_enumeration. Qed.

Lemma mix_entry_2 (x : byte) :
  bxor (bxor (bxor (AES.mul14 x) (AES.mul11 (AES.mul3 x))) (AES.mul13 (AES.mul2 x)))
       (AES.mul9 x) = x00.
Proof. by_enumeration. Qed.

Lemma mix_entry_3 (x : byte) :
  bxor (bxor (bxor (AES.mul14 x) (AES.mul11 x)) (AES.mul13 (AES.mul3 x)))
       (AES.mul9 (AES.mul2 x)) = x00.
Proof. by_enumeration. Qed.

(** The algebra of the two matrices, over any six linear maps whose products
    have the entries above. *)
Section MixColumnsAlgebra.
Variables f2 f3 f9 f11 f13 f14 : byte -> byte.
Hypothesis lin9 : forall a b, f9 (bxor a b) = bxor (f9 a) (f9 b).
Hypothesis lin11 : forall a b, f11 (bxor a b) = bxor (f11 a) (f11 b).
Hypothesis lin13 : forall a b, f13 (bxor a b) = bxor (f13 a) (f13 b).
Hypothesis lin14 : forall a b, f14 (bxor a b) = bxor (f14 a) (f14 b).
Hypothesis entry0 : forall x,
  bxor (bxor (bxor (f14 (f2 x)) (f11 x)) (f13 x)) (f9 (f3 x)) = x.
Hypothesis entry1 : forall x,
  bxor (bxor (bxor (f14 (f3 x)) (f11 (f2 x))) (f13 x)) (f9 x) = x00.
Hypothesis entry2 : forall x,
  bxor (bxor (bxor (f14 x) (f11 (f3 x))) (f13 (f2 x))) (f9 x) = x00.
Hypothesis entry3 : forall x,
  bxor (bxor (bxor (f14 x) (f11 x)) (f13 (f3 x))) (f9 (f2 x)) = x00.
Variables a b c d : byte.

Let m0 : byte := bxor (bxor (bxor (f2 a) (f3 b)) c) d.
Let m1 : byte := bxor (bxor (bxor a (f2 b)) (f3 c)) d.
Let m2 : byte := bxor (bxor (bxor a b) (f2 c)) (f3 d).
Let m3 : byte := bxor (bxor (bxor (f3 a) b) c) (f2 d).

Ltac regroup ga gb gc gd :=
  unfold m0, m1, m2, m3; rewrite ?lin9, ?lin11, ?lin13, ?lin14;
  transitivity (bxor (bxor (bxor ga gb) gc) gd);
  [ aac_reflexivity
  | rewrite ?entry0, ?entry1, ?entry2, ?entry3, ?bxor_0_l, ?bxor_0_r; reflexivity ].

Lemma mix_row_0 :
  bxor (bxor (bxor (f14 m0) (f11 m1)) (f13 m2)) (f9 m3) = a.
Proof.
  regroup (bxor (bxor (bxor (f14 (f2 a)) (f11 a)) (f13 a)) (f9 (f3 a)))
          (bxor (bxor (bxor (f14 (f3 b)) (f11 (f2 b))) (f13 b)) (f9 b))
          (bxor (bxor (bxor (f14 c) (f11 (f3 c))) (f13 (f2 c))) (f9 c))
          (bxor (bxor (bxor (f14 d) (f11 d)) (f13 (f3 d))) (f9 (f2 d))).
Qed.

Lemma mix_row_1 :
  bxor (bxor (bxor (f9 m0) (f14 m1)) (f11 m2)) (f13 m3) = b.
Proof.
  regroup (bxor (bxor (bxor (f14 a) (f11 a)) (f13 (f3 a))) (f9 (f2 a)))
          (bxor (bxor (bxor (f14 (f2 b)) (f11 b)) (f13 b)) (f9 (f3 b)))
          (bxor (bxor (bxor (f14 (f3 c)) (f11 (f2 c))) (f13 c)) (f9 c))
          (bxor (bxor (bxor (f14 d) (f11 (f3 d))) (f13 (f2 d))) (f9 d)).
Qed.

Lemma mix_row_2 :
  bxor (bxor (bxor (f13 m0) (f9 m1)) (f14 m2)) (f11 m3) = c.
Proof.
  regroup (bxor (bxor (bxor (f14 a) (f11 (f3 a))) (f13 (f2 a))) (f9 a))
          (bxor (bxor (bxor (f14 b) (f11 b)) (f13 (f3 b))) (f9 (f2 b)))
          (bxor (bxor (bxor (f14 (f2 c)) (f11 c)) (f13 c)) (f9 (f3 c)))
          (bxor (bxor (bxor (f14 (f3 d)) (f11 (f2 d))) (f13 d)) (f9 d)).
Qed.

Lemma mix_row_3 :
  bxor (bxor (bxor (f11 m0) (f13 m1)) (f9 m2)) (f14 m3) = d.
Proof.
  regroup (bxor (bxor (bxor (f14 (f3 a)) (f11 (f2 a))) (f13 a)) (f9 a))
          (bxor (bxor (bxor (f14 b) (f11 (f3 b))) (f13 (f2 b))) (f9 b))
          (bxor (bxor (bxor (f14 c) (f11 c)) (f13 (f3 c))) (f9 (f2 c)))
          (bxor (bxor (bxor (f14 (f2 d)) (f11 d)) (f13 d)) (f9 (f3 d))).
Qed.

End MixColumnsAlgebra.

Lemma inv_mix_column_mix_column (c : AES.column) :
  AES.inv_mix_column (AES.mix_column c) = c.
Proof.
  destruct c as [[[a b] c] d]. unfold AES.mix_column, AES.inv_mix_column.
  rewrite (mix_row_0 AES.mul2 AES.mul3 AES.mul9 AES.mul11 AES.mul13 AES.mul14
             mul9_xor mul11_xor mul13_xor mul14_xor
             mix_entry_0 mix_entry_1 mix_entry_2 mix_entry_3).
  rewrite (mix_row_1 AES.mul2 AES.mul3 AES.mul9 AES.mul11 AES.mul13 AES.mul14
             mul9_xor mul11_xor mul13_xor mul14_xor
             mix_entry_0 mix_entry_1 mix_entry_2 mix_entry_3).
  rewrite (mix_row_2 AES.mul2 AES.mul3 AES.mul9 AES.mul11 AES.mul13 AES.mul14
             mul9_xor mul11_xor mul13_xor mul14_xor
             mix_entry_0 mix_entry_1 mix_entry_2 mix_entry_3).
  rewrite (mix_row_3 AES.mul2 AES.mul3 AES.mul9 AES.mul11 AES.mul13 AES.mul14
             mul9_xor mul11_xor mul13_xor mul14_xor
             mix_entry_0 mix_entry_1 mix_entry_2 mix_entry_3).
  reflexivity.
Qed.

Lemma col_xor_cancel (c k : AES.column) : AES.col_xor (AES.col_xor c k) k = c.
Proof.
  destruct c as [[[a0 a1] a2] a3], k as [[[k0 k1] k2] k3].
  unfold AES.col_xor. now rewrite !bxor_cancel_r.
Qed.

Lemma add_round_key_cancel (s k : AES.state) :
  AES.add_round_key (AES.add_round_key s k) k = s.
Proof.
  destruct s as [[[a b] c] d], k as [[[e f] g] h].
  unfold AES.add_round_key. now rewrite !col_xor_cancel.
Qed.

Lemma inv_sub_bytes_sub_bytes (s : AES.state) :
  AES.inv_sub_bytes (AES.sub_bytes s) = s.
Proof.
  destruct s as [[[[[[a0 a1] a2] a3] [[[b0 b1] b2] b3]] [[[c0 c1] c2] c3]]
                 [[[d0 d1] d2] d3]].
  unfold AES.inv_sub_bytes, AES.sub_bytes, AES.st_map, AES.col_map.
  now rewrite !inv_sbox_sbox.
Qed.

Lemma inv_shift_rows_shift_rows (s : AES.state) :
  AES.inv_shift_rows (AES.shift_rows s) = s.
Proof.
  destruct s as [[[[[[a0 a1] a2] a3] [[[b0 b1] b2] b3]] [[[c0 c1] c2] c3]]
                 [[[d0 d1] d2] d3]].
  reflexivity.
Qed.

Lemma inv_mix_columns_mix_columns (s : AES.state) :
  AES.inv_mix_columns (AES.mix_columns s) = s.
Proof.
  destruct s as [[[a b] c] d].
  unfold AES.inv_mix_columns, AES.mix_columns, AES.st_map.
  now rewrite !inv_mix_column_mix_column.
Qed.

Lemma dec_round_enc_round (s k : AES.state) :
  AES.dec_round (AES.enc_round s k) k = s.
Proof.
  unfold AES.dec_round, AES.enc_round.
  now rewrite add_round_key_cancel, inv_mix_columns_mix_columns,
    inv_shift_rows_shift_rows, inv_sub_bytes_sub_bytes.
Qed.

Lemma dec_final_enc_final (s k : AES.state) :
  AES.dec_final (AES.enc_final s k) k = s.
Proof.
  unfold AES.dec_final, AES.enc_final.
  now rewrite add_round_key_cancel, inv_shift_rows_shift_rows,
    inv_sub_bytes_sub_bytes.
Qed.

Lemma dec_rounds_enc_rounds (ks : list AES.state) (s : AES.state) :
  fold_left AES.dec_round (rev ks) (fold_left AES.enc_round ks s) = s.
Proof.
  revert s. induction ks as [|k ks IH]; intros s; [reflexivity|].
  cbn [rev fold_left]. rewrite fold_left_app. cbn [fold_left].
  now rewrite IH, dec_round_enc_round.
Qed.

(** The inverse cipher undoes the cipher, whatever the key. *)
Lemma inv_cipher_cipher (k0 s : AES.state) :
  AES.inv_cipher k0 (AES.cipher k0 s) = s.
Proof.
  unfold AES.inv_cipher, AES.cipher.
  now rewrite dec_final_enc_final, dec_rounds_enc_rounds, add_round_key_cancel.
Qed.

Lemma state_of_bytes_of_state (s : AES.state) :
  AES.state_of_bytes (AES.bytes_of_state s) = s.
Proof.
  destruct s as [[[[[[a0 a1] a2] a3] [[[b0 b1] b2] b3]] [[[c0 c1] c2] c3]]
                 [[[d0 d1] d2] d3]].
  reflexivity.
Qed.

Lemma bytes_of_state_of_bytes (l : bytes) :
  length l = 16 -> AES.bytes_of_state (AES.state_of_bytes l) = l.
Proof.
  intros H.
  do 16 (destruct l as [|? l]; [discriminate H|]).
  destruct l; [reflexivity|discriminate H].
Qed.

(** Decrypting a block undoes encrypting it with the same key. *)
Lemma decrypt_block_encrypt_block (key block : bytes) :
  length block = 16 ->
  AES.decrypt_block key (AES.encrypt_block key block) = block.
Proof.
  intros H. unfold AES.decrypt_block, AES.encrypt_block.
  now rewrite state_of_bytes_of_state, inv_cipher_cipher, bytes_of_state_of_bytes.
Qed.

(** The vector of FIPS 197, appendix C.1. *)
Lemma aes128_known_answer :
  hex (AES.encrypt_block (map byte_of_nat (seq 0 16))
         (map (fun i => byte_of_nat (17 * i)) (seq 0 16)))
  = "69c4e0d86a7b0430d8cdb78070b4c55a"%string.
Proof. vm_compute. reflexivity. Qed.

(** ** CBC: decryption undoes encryption *)

Section CbcRoundTrip.
Variables enc dec : bytes -> bytes.
Hypothesis enc_length : forall p, length (enc p) = 16.
Hypothesis dec_enc : forall p, length p = 16 -> dec (enc p) = p.

Lemma cbc_encrypt_blocks_length (ps : list bytes) (prev : bytes) :
  length (AES.cbc_encrypt_blocks enc prev ps) = 16 * length ps.
Proof.
  revert prev. induction ps as [|p ps IH]; intros prev; [reflexivity|].
  cbn [AES.cbc_encrypt_blocks length]. rewrite length_app, enc_length, IH. lia.
Qed.

Lemma blocks_cons (fuel : nat) (c rest : bytes) :
  length c = 16 ->
  AES.blocks (S fuel) (c ++ rest) = c :: AES.blocks fuel rest.
Proof.
  intros Hc. cbn [AES.blocks]. unfold AES.block_size.
  destruct (c ++ rest) eqn:E.
  - apply (f_equal (@length byte)) in E. rewrite length_app in E. simpl in E. lia.
  - rewrite <- E, <- Hc, firstn_app, firstn_all, Nat.sub_diag, firstn_0, app_nil_r.
    now rewrite skipn_app, skipn_all, Nat.sub_diag.
Qed.

Lemma cbc_decrypt_encrypt (ps : list bytes) : forall (prev : bytes) (fuel : nat),
  Forall (fun p => length p = 16) ps ->
  length prev = 16 ->
  length ps <= fuel ->
  AES.cbc_decrypt_blocks dec prev
    (AES.blocks fuel (AES.cbc_encrypt_blocks enc prev ps))
  = concat ps.
Proof.
  induction ps as [|p ps IH]; intros prev fuel Hps Hprev Hfuel.
  - destruct fuel; reflexivity.
  - inversion Hps as [|? ? Hp Hrest]; subst.
    destruct fuel as [|fuel]; [simpl in Hfuel; lia|].
    cbn [AES.cbc_encrypt_blocks concat].
    rewrite blocks_cons by apply enc_length.
    cbn [AES.cbc_decrypt_blocks].
    rewrite dec_enc by (rewrite xor_bytes_length; lia).
    rewrite xor_bytes_cancel by lia.
    rewrite IH; auto. simpl in Hfuel. lia.
Qed.

End CbcRoundTrip.

(** ** Encryption then decryption *)

Lemma pkcs7_pad_shape (data : bytes) :
  exists b,
    1 <= pad_length b <= 16
    /\ pkcs7_pad data = data ++ repeat b (pad_length b)
    /\ length (pkcs7_pad data) mod 16 = 0.
Proof.
  unfold pkcs7_pad.
  set (p := 16 - length data mod 16).
  pose proof (Nat.mod_upper_bound (length data) 16 ltac:(lia)) as Hm.
  assert (Hp : pad_length (byte_of_nat p) = p).
  { unfold pad_length, byte_of_nat. rewrite to_N_byte_of_N, N.mod_small by lia.
    apply Nat2N.id. }
  exists (byte_of_nat p). rewrite Hp. split; [lia|]. split; [reflexivity|].
  rewrite length_app, repeat_length.
  pose proof (Nat.div_mod_eq (length data) 16) as Hd.
  replace (length data + p) with (16 * (length data / 16 + 1)) by lia.
  now rewrite Nat.mul_comm, Nat.Div0.mod_mul.
Qed.

(** C6. For every key and IV of 16 bytes and every plaintext, the
    AES-128-CBC encryption of the PKCS#7-padded plaintext is defined, and
    [decrypt_aes_cbc] with the same key and IV returns the plaintext. *)
Theorem decrypt_encrypt_roundtrip (plaintext key iv : bytes) :
  length key = 16 -> length iv = 16 ->
  exists ciphertext,
    encrypt_aes_cbc plaintext key iv = Ok ciphertext
    /\ decrypt_aes_cbc ciphertext key iv = Ok plaintext.
Proof.
  intros Hk Hi.
  destruct (pkcs7_pad_shape plaintext) as (b & Hb & Hpad & Hmod).
  destruct (blocks_of_multiple _ Hmod) as (Hc & Hf & Hn).
  set (ps := AES.blocks (length (pkcs7_pad plaintext)) (pkcs7_pad plaintext)) in *.
  exists (AES.cbc_encrypt_blocks (AES.encrypt_block key) iv ps). split.
  - unfold encrypt_aes_cbc, AES.new_cbc, AES.encrypt, AES.block_size.
    rewrite Hk, Hi. cbn [Nat.eqb negb bind AES.cbc_key AES.cbc_iv].
    rewrite Hmod. reflexivity.
  - rewrite decrypt_aes_cbc_checked by assumption.
    rewrite cbc_encrypt_blocks_length by apply encrypt_block_length.
    rewrite Nat.mul_comm, Nat.Div0.mod_mul. cbn [Nat.eqb negb].
    rewrite (cbc_decrypt_encrypt (AES.encrypt_block key) (AES.decrypt_block key));
      auto using encrypt_block_length, decrypt_block_encrypt_block; [|lia].
    rewrite Hc, Hpad. now apply pkcs7_unpad_ok.
Qed.

(** C6 at the default key of the script, the IV 00 01 .. 0f and a plaintext
    of 37 bytes: the ciphertext is the one OpenSSL gives for them. *)
Lemma decrypt_encrypt_roundtrip_witness :
  exists ciphertext,
    encrypt_aes_cbc (utf8 "photo content here, 37 bytes long....")
                    (utf8 "0123456789ABCDEF") (map byte_of_nat (seq 0 16))
    = Ok ciphertext
    /\ decrypt_aes_cbc ciphertext (utf8 "0123456789ABCDEF")
                       (map byte_of_nat (seq 0 16))
       = Ok (utf8 "photo content here, 37 bytes long....").
Proof.
  apply decrypt_encrypt_roundtrip; reflexivity.
Defined.

Lemma encrypt_known_answer :
  encrypt_aes_cbc (utf8 "photo content here, 37 bytes long....")
                  (utf8 "0123456789ABCDEF") (map byte_of_nat (seq 0 16))
  = unhexlify "57a861d37c78be567d79a22e157b9d8125fcdb9852af8bddccf254b50f8e58cb323032b134261179d72bfafd893f96db".
Proof. vm_compute. reflexivity. Qed.

(** ** Instances of the two properties of returned values *)

Lemma pkcs7_unpad_returns_witness :
  exists b, 1 <= pad_length b <= 16
            /\ [x61; x62; x02; x02] = [x61; x62] ++ repeat b (pad_length b).
Proof.
  apply (pkcs7_unpad_returns [x61; x62; x02; x02] [x61; x62]). reflexivity.
Defined.

Lemma sign_photo_echo_witness :
  exists signed account,
    sign_photo (backend := native.backend) key_one (PStr "0xabcd")
               "Building A - Entrance" "Motion detected" 7 = Ok signed
    /\ Signed.nonce signed = 7%Z
    /\ eth_account.from_key (backend := native.backend) key_one = Ok account
    /\ Signed.camera_address signed = eth_account.address account.
Proof.
  destruct (native_sign_photo_returns key_one (PStr "0xabcd")
              "Building A - Entrance" "Motion detected" 7
              _ (Keccak.keccak256
                   (AES.xor_bytes [xab; xcd] [x00; x00]
                      ++ utf8 "Building A - Entrance" ++ utf8 "Motion detected"
                      ++ be_bytes 32 7))
              native_account_of_key_one) as [signed Hs].
  - vm_compute. reflexivity.
  - destruct (sign_photo_echo (backend := native.backend) _ _ _ _ _ _ Hs)
      as (_ & _ & Hn & account & Ha & Hc).
    exists signed, account.
    split; [exact Hs|]. split; [exact Hn|]. split; [exact Ha|exact Hc].
Defined.

(* ===================================================================== *)
(** * Part III: properties of the scripts around the functions *)
(* ===================================================================== *)

(** ** The packed encoding keeps no boundary *)

Lemma utf8_app (s1 s2 : string) : utf8 (s1 ++ s2) = utf8 s1 ++ utf8 s2.
Proof.
  unfold utf8, list_byte_of_string. rewrite <- map_app. f_equal.
  induction s1 as [|c s1 IH]; simpl; [reflexivity|now rewrite IH].
Qed.

(** The identifier is a function of the two texts put together. *)
Lemma generate_camera_id_joined (mac_address efuse_id : string) :
  generate_camera_id mac_address efuse_id
  = Ok (hex (Keccak.keccak256 (utf8 (mac_address ++ efuse_id)))).
Proof.
  unfold generate_camera_id. cbn. now rewrite app_nil_r, utf8_app.
Qed.

(** X4.  Two pairs of texts that read the same once put together get the same
    camera identifier: nothing marks where the MAC address ends. *)
Theorem generate_camera_id_boundary (m1 e1 m2 e2 : string) :
  (m1 ++ e1 = m2 ++ e2)%string ->
  generate_camera_id m1 e1 = generate_camera_id m2 e2.
Proof.
  intros H. now rewrite !generate_camera_id_joined, H.
Qed.

Lemma generate_camera_id_boundary_witness :
  generate_camera_id "1C:DB:D4:98:F9:D8" "D8F998D4DB1C"
  = generate_camera_id "1C:DB:D4:98:F9:" "D8D8F998D4DB1C".
Proof.
  apply generate_camera_id_boundary. reflexivity.
Defined.

(** X5.  The same for the tuple [sign_photo] signs: the photo hash, the location
    and the metadata are signed as one run of bytes. *)
Theorem sign_photo_boundary {backend : ECCBackend} (private_key : pyval)
    (p1 p2 : bytes) (h1 h2 : pyval) (l1 m1 l2 m2 : string) (nonce : Z) :
  photo_hash_repr p1 h1 -> photo_hash_repr p2 h2 ->
  p1 <> [] -> p2 <> [] ->
  (0 <= nonce < 2 ^ 256)%Z ->
  p1 ++ utf8 l1 ++ utf8 m1 = p2 ++ utf8 l2 ++ utf8 m2 ->
  fmap signature_of (sign_photo private_key h1 l1 m1 nonce)
  = fmap signature_of (sign_photo private_key h2 l2 m2 nonce).
Proof.
  intros Hr1 Hr2 Hn1 Hn2 Hnonce Heq.
  rewrite !sign_photo_chain.
  destruct (eth_account.from_key private_key) as [account|e]; [|reflexivity].
  cbn [bind].
  rewrite (solidity_keccak_photo p1 _ l1 m1 nonce
             (with_0x_prefix_repr p1 h1 Hr1 Hn1) Hn1 Hnonce).
  rewrite (solidity_keccak_photo p2 _ l2 m2 nonce
             (with_0x_prefix_repr p2 h2 Hr2 Hn2) Hn2 Hnonce).
  cbn [bind].
  replace (p1 ++ utf8 l1 ++ utf8 m1 ++ be_bytes 32 (Z.to_N nonce))
    with ((p1 ++ utf8 l1 ++ utf8 m1) ++ be_bytes 32 (Z.to_N nonce))
    by now rewrite <- !app_assoc.
  rewrite Heq, <- !app_assoc.
  destruct (ecdsa_sign _ _) as [[[v r] s]|e]; reflexivity.
Qed.

Lemma sign_photo_boundary_witness :
  fmap signature_of
    (sign_photo (backend := native.backend) key_one (PBytes (repeat xab 32))
       "Building A" " - Entrance" 0)
  = fmap signature_of
      (sign_photo (backend := native.backend) key_one (PBytes (repeat xab 32))
         "Building A - " "Entrance" 0).
Proof.
  apply (sign_photo_boundary (backend := native.backend) key_one
           (repeat xab 32) (repeat xab 32)).
  - apply repr_bytes.
  - apply repr_bytes.
  - discriminate.
  - discriminate.
  - lia.
  - reflexivity.
Defined.

(** ** Decryption: what the IV does and what comes out *)

Lemma last_byte_app (head tail : bytes) :
  tail <> [] -> last_byte (head ++ tail) = last_byte tail.
Proof.
  intros Hne. destruct (last_byte tail) as [b|] eqn:E.
  - apply last_byte_Some in E. destruct E as [front ->].
    rewrite app_assoc. apply last_byte_snoc.
  - now apply last_byte_None in E.
Qed.

(** Unpadding looks at the last 16 bytes at most. *)
Lemma pkcs7_unpad_app (head tail : bytes) :
  16 <= length tail ->
  pkcs7_unpad (head ++ tail) = fmap (app head) (pkcs7_unpad tail).
Proof.
  intros Hlen.
  assert (Hne : tail <> []) by (intros ->; simpl in Hlen; lia).
  destruct (last_byte tail) as [b|] eqn:E; [|now apply last_byte_None in E].
  rewrite (pkcs7_unpad_last tail b E).
  rewrite (pkcs7_unpad_last (head ++ tail) b) by now rewrite last_byte_app.
  destruct (Nat.eqb_spec (pad_length b) 0); [reflexivity|].
  destruct (Nat.ltb_spec 16 (pad_length b)); [reflexivity|].
  cbn [orb].
  assert (Hs : py_suffix (pad_length b) (head ++ tail) = py_suffix (pad_length b) tail).
  { unfold py_suffix. rewrite length_app, skipn_app.
    replace (length head + length tail - pad_length b - length head)
      with (length tail - pad_length b) by lia.
    rewrite skipn_all2 by lia. reflexivity. }
  assert (Hd : py_drop_suffix (pad_length b) (head ++ tail)
               = head ++ py_drop_suffix (pad_length b) tail).
  { unfold py_drop_suffix. rewrite length_app, firstn_app.
    replace (length head + length tail - pad_length b - length head)
      with (length tail - pad_length b) by lia.
    rewrite firstn_all2 by lia. reflexivity. }
  rewrite Hs, Hd. now destruct (bytes_eqb _ _).
Qed.

Lemma bxor_chain (a b c : byte) : bxor (bxor a b) (bxor b c) = bxor a c.
Proof.
  rewrite bxor_assoc, (bxor_cancel_r a b). reflexivity.
Qed.

Lemma xor_bytes_chain (a b c : bytes) :
  length a = length b -> length b = length c ->
  AES.xor_bytes (AES.xor_bytes a b) (AES.xor_bytes b c) = AES.xor_bytes a c.
Proof.
  revert b c. induction a as [|x a IH]; intros [|y b] [|z c] Hab Hbc;
    simpl in *; try lia; [reflexivity|].
  rewrite bxor_chain, IH by lia. reflexivity.
Qed.

(** What [decrypt_aes_cbc] computes on two blocks or more: the first block
    depends on the IV, the rest and the padding do not. *)
Lemma decrypt_aes_cbc_blocks (ciphertext key iv : bytes) :
  length key = 16 -> length iv = 16 ->
  length ciphertext mod 16 = 0 -> 32 <= length ciphertext ->
  exists (first : bytes) (rest_plain : result bytes),
    length first = 16
    /\ (forall iv0, length iv0 = 16 ->
          decrypt_aes_cbc ciphertext key iv0
          = fmap (app (AES.xor_bytes first iv0)) rest_plain).
Proof.
  intros Hk Hi Hm Hlen.
  destruct (blocks_of_multiple ciphertext Hm) as (_ & Hf & Hn).
  destruct (AES.blocks (length ciphertext) ciphertext) as [|c1 cs] eqn:Eb;
    [simpl in Hn; lia|].
  inversion Hf as [|? ? Hc1 Hcs]; subst.
  exists (AES.decrypt_block key c1),
         (pkcs7_unpad (AES.cbc_decrypt_blocks (AES.decrypt_block key) c1 cs)).
  split; [apply decrypt_block_length|].
  intros iv0 Hi0.
  rewrite decrypt_aes_cbc_checked by assumption.
  rewrite Hm, Eb. cbn [Nat.eqb negb AES.cbc_decrypt_blocks].
  apply pkcs7_unpad_app.
  rewrite cbc_decrypt_blocks_length; auto using decrypt_block_length.
  simpl in Hn. lia.
Qed.

(** X6.  A wrong IV goes unnoticed on a ciphertext of two blocks or more: the
    call fails with the same error or returns as with the right IV, and the
    plaintext differs in its first 16 bytes only, by the difference of the
    two IVs. *)
Theorem decrypt_aes_cbc_wrong_iv (ciphertext key iv iv' : bytes) :
  length key = 16 -> length iv = 16 -> length iv' = 16 ->
  32 <= length ciphertext ->
  (forall e, decrypt_aes_cbc ciphertext key iv = Raise e ->
             decrypt_aes_cbc ciphertext key iv' = Raise e)
  /\ (forall plain, decrypt_aes_cbc ciphertext key iv = Ok plain ->
        exists plain',
          decrypt_aes_cbc ciphertext key iv' = Ok plain'
          /\ length plain' = length plain
          /\ skipn 16 plain' = skipn 16 plain
          /\ firstn 16 plain'
             = AES.xor_bytes (firstn 16 plain) (AES.xor_bytes iv iv')).
Proof.
  intros Hk Hi Hi' Hlen.
  destruct (Nat.eq_dec (length ciphertext mod 16) 0) as [Hm|Hm].
  - destruct (decrypt_aes_cbc_blocks ciphertext key iv Hk Hi Hm Hlen)
      as (first & rest_plain & Hfirst & Hdec).
    rewrite (Hdec iv Hi), (Hdec iv' Hi').
    destruct rest_plain as [body|e0]; cbn [fmap]; split.
    + discriminate.
    + intros plain [= <-]. eexists. split; [reflexivity|].
      assert (Hh : length (AES.xor_bytes first iv) = 16)
        by now rewrite xor_bytes_length, Hfirst, Hi.
      assert (Hh' : length (AES.xor_bytes first iv') = 16)
        by now rewrite xor_bytes_length, Hfirst, Hi'.
      split; [now rewrite !length_app, Hh, Hh'|].
      split.
      * rewrite !skipn_app, Hh, Hh'.
        rewrite (skipn_all2 (AES.xor_bytes first iv)) by lia.
        rewrite (skipn_all2 (AES.xor_bytes first iv')) by lia.
        reflexivity.
      * rewrite !firstn_app, Hh, Hh'.
        rewrite (firstn_all2 (AES.xor_bytes first iv)) by lia.
        rewrite (firstn_all2 (AES.xor_bytes first iv')) by lia.
        cbn [Nat.sub firstn]. rewrite !app_nil_r.
        rewrite xor_bytes_chain; congruence.
    + intros e [= <-]. reflexivity.
    + discriminate.
  - rewrite !decrypt_aes_cbc_checked by assumption.
    destruct (Nat.eqb_spec (length ciphertext mod 16) 0); [contradiction|].
    cbn [negb]. split; [auto|discriminate].
Qed.

(** Whenever unpadding returns, it has taken off between 1 and 16 bytes. *)
Lemma pkcs7_unpad_length (data body : bytes) :
  pkcs7_unpad data = Ok body ->
  length body < length data <= length body + 16.
Proof.
  intros H.
  destruct (last_byte data) as [b|] eqn:E.
  - destruct (pkcs7_unpad_total data b E) as [Hr|[body' [Hb Hd]]];
      [congruence|].
    assert (body' = body) as -> by congruence.
    rewrite (pkcs7_unpad_last _ _ E) in H.
    destruct (Nat.eqb_spec (pad_length b) 0); [discriminate|].
    destruct (Nat.ltb_spec 16 (pad_length b)); [discriminate|].
    rewrite Hd, length_app, repeat_length. lia.
  - apply last_byte_None in E. subst. discriminate.
Qed.

(** X7.  A plaintext [decrypt_aes_cbc] returns is shorter than the ciphertext by
    1 to 16 bytes; the key and the IV had 16 bytes and the ciphertext was
    made of whole blocks. *)
Theorem decrypt_aes_cbc_returns (ciphertext key iv plain : bytes) :
  decrypt_aes_cbc ciphertext key iv = Ok plain ->
  length key = 16 /\ length iv = 16
  /\ length ciphertext mod 16 = 0
  /\ length plain < length ciphertext <= length plain + 16.
Proof.
  intros H.
  assert (Hk : length key = 16).
  { unfold decrypt_aes_cbc in H.
    destruct (Nat.eqb_spec (length key) 16); [assumption|discriminate]. }
  assert (Hi : length iv = 16).
  { unfold decrypt_aes_cbc in H. rewrite Hk in H. cbn [Nat.eqb negb] in H.
    destruct (Nat.eqb_spec (length iv) 16); [assumption|discriminate]. }
  rewrite decrypt_aes_cbc_checked in H by assumption.
  destruct (Nat.eqb_spec (length ciphertext mod 16) 0) as [Hm|Hm];
    [|discriminate].
  cbn [negb] in H. apply pkcs7_unpad_length in H.
  rewrite decrypted_length in H by assumption. auto.
Qed.

Lemma decrypt_sample_ciphertext :
  decrypt_aes_cbc sample_ciphertext (utf8 "0123456789ABCDEF")
                  (map byte_of_nat (seq 0 16))
  = Ok (utf8 "photo content here, 37 bytes long....").
Proof. vm_compute. reflexivity. Qed.

(** The sample ciphertext under the IV of zeros instead of 00 01 .. 0f: no
    error, and the text is right from its 17th byte on. *)
Lemma decrypt_aes_cbc_wrong_iv_witness :
  exists plain',
    decrypt_aes_cbc sample_ciphertext (utf8 "0123456789ABCDEF") (repeat x00 16)
    = Ok plain'
    /\ length plain' = length (utf8 "photo content here, 37 bytes long....")
    /\ skipn 16 plain' = skipn 16 (utf8 "photo content here, 37 bytes long....").
Proof.
  destruct (decrypt_aes_cbc_wrong_iv sample_ciphertext (utf8 "0123456789ABCDEF")
              (map byte_of_nat (seq 0 16)) (repeat x00 16))
    as [_ H]; [reflexivity|reflexivity|reflexivity|simpl; lia|].
  destruct (H _ decrypt_sample_ciphertext) as (plain' & Hd & Hl & Hs & _).
  exists plain'. split; [exact Hd|]. split; [exact Hl|exact Hs].
Defined.

Lemma decrypt_aes_cbc_returns_witness :
  length (utf8 "photo content here, 37 bytes long....") < length sample_ciphertext
  <= length (utf8 "photo content here, 37 bytes long....") + 16.
Proof.
  apply (decrypt_aes_cbc_returns sample_ciphertext (utf8 "0123456789ABCDEF")
           (map byte_of_nat (seq 0 16))).
  exact decrypt_sample_ciphertext.
Defined.

(** X1.  The message [plaintext vuoto] tells of an empty input and of
    nothing else: [pkcs7_unpad] raises it exactly on empty data, and
    [decrypt_aes_cbc] exactly on an empty ciphertext under a key and an IV
    of 16 bytes. *)
Theorem plaintext_vuoto_iff_empty (data ciphertext key iv : bytes) :
  (pkcs7_unpad data = Raise (ValueError "plaintext vuoto") <-> data = [])
  /\ (decrypt_aes_cbc ciphertext key iv = Raise (ValueError "plaintext vuoto")
      <-> length key = 16 /\ length iv = 16 /\ ciphertext = []).
Proof.
  assert (Hunpad : forall d, pkcs7_unpad d = Raise (ValueError "plaintext vuoto")
                             -> d = []).
  { intros d H. destruct d as [|x d]; [reflexivity|].
    destruct (pkcs7_unpad_nonempty (x :: d)) as [E|[body E]];
      [discriminate|rewrite E in H; discriminate H..]. }
  split.
  - split; [apply Hunpad|intros ->; reflexivity].
  - split.
    + intros H.
      assert (Hk : length key = 16).
      { unfold decrypt_aes_cbc in H.
        destruct (Nat.eqb_spec (length key) 16); [assumption|discriminate]. }
      assert (Hi : length iv = 16).
      { unfold decrypt_aes_cbc in H. rewrite Hk in H. cbn [Nat.eqb negb] in H.
        destruct (Nat.eqb_spec (length iv) 16); [assumption|discriminate]. }
      split; [exact Hk|]. split; [exact Hi|].
      rewrite decrypt_aes_cbc_checked in H by assumption.
      destruct (Nat.eqb_spec (length ciphertext mod 16) 0) as [Hm|Hm];
        [|discriminate].
      cbn [negb] in H. apply Hunpad in H.
      apply length_zero_iff_nil.
      rewrite <- (decrypted_length ciphertext key iv Hi Hm), H. reflexivity.
    + intros (Hk & Hi & ->).
      now rewrite decrypt_aes_cbc_checked by assumption.
Qed.

(** ** The signature of the pure-Python backend: 65 bytes *)

Lemma be_bytes_length (m : nat) (n : N) : length (be_bytes m n) = m.
Proof. induction m as [|m IH]; simpl; [reflexivity|now rewrite IH]. Qed.

Lemma size_le_256 (n : N) : (n < 2 ^ 256)%N -> (N.size n <= 256)%N.
Proof.
  intros H. destruct (N.eq_dec n 0) as [->|Hz]; [simpl; lia|].
  rewrite N.size_log2 by assumption.
  assert (N.log2 n < 256)%N by (apply N.log2_lt_pow2; lia). lia.
Qed.

Lemma be_bytes_leading_zeros (k m : nat) (n : N) :
  (n < 2 ^ (8 * N.of_nat m))%N ->
  be_bytes (k + m) n = repeat x00 k ++ be_bytes m n.
Proof.
  intros H. induction k as [|k IH]; [reflexivity|].
  cbn [Nat.add be_bytes repeat app]. rewrite IH. f_equal.
  rewrite N.shiftr_div_pow2, N.div_small; [reflexivity|].
  eapply N.lt_le_trans; [exact H|].
  apply N.pow_le_mono_r; lia.
Qed.

Lemma to_bytes32_be_bytes (n : N) :
  (n < 2 ^ 256)%N -> eth_account.to_bytes32 n = be_bytes 32 n.
Proof.
  intros H. unfold eth_account.to_bytes32, eth_account.int_to_big_endian.
  rewrite be_bytes_length.
  set (m := Nat.max 1 ((N.to_nat (N.size n) + 7) / 8)).
  assert (Hm : m <= 32).
  { pose proof (size_le_256 n H) as Hs.
    assert ((N.to_nat (N.size n) + 7) / 8 < 33)
      by (apply Nat.Div0.div_lt_upper_bound; lia).
    unfold m. lia. }
  replace 32 with ((32 - m) + m) at 2 by lia.
  symmetry. apply be_bytes_leading_zeros.
  eapply N.lt_le_trans; [apply N.size_gt|].
  apply N.pow_le_mono_r; [lia|].
  assert (N.to_nat (N.size n) <= 8 * ((N.to_nat (N.size n) + 7) / 8)).
  { pose proof (Nat.Div0.div_mod (N.to_nat (N.size n) + 7) 8).
    pose proof (Nat.mod_upper_bound (N.to_nat (N.size n) + 7) 8). lia. }
  unfold m. lia.
Qed.

Lemma fast_multiply_x_range (a : Z * Z) (n : Z) :
  (0 <= fst (native.fast_multiply a n) < native.P)%Z.
Proof.
  unfold native.fast_multiply, native.from_jacobian.
  destruct (native.jacobian_multiply _ _) as [[x y] z]. cbn [fst].
  apply Z.mod_pos_bound. reflexivity.
Qed.

Lemma lxor_bit (a b : Z) :
  (a = 0 \/ a = 1)%Z -> (b = 0 \/ b = 1)%Z ->
  (Z.lxor a b = 0 \/ Z.lxor a b = 1)%Z.
Proof. intros [-> | ->] [-> | ->]; cbn; auto. Qed.

(** The triple of [ecdsa_raw_sign]: a recovery bit and two numbers below
    2^256. *)
Lemma ecdsa_raw_sign_range (msg_hash private_key : bytes) :
  let '(v, r, s) := native.ecdsa_raw_sign msg_hash private_key in
  (v = 0 \/ v = 1)%Z /\ (0 <= r < 2 ^ 256)%Z /\ (0 <= s < 2 ^ 256)%Z.
Proof.
  unfold native.ecdsa_raw_sign.
  pose proof (fast_multiply_x_range (native.Gx, native.Gy)
                (native.deterministic_generate_k msg_hash private_key)) as Hr.
  destruct (native.fast_multiply _ _) as [r y]. cbn [fst] in Hr.
  set (s_raw := (_ mod native.N)%Z).
  assert (Hs : (0 <= s_raw < native.N)%Z) by (apply Z.mod_pos_bound; reflexivity).
  assert (HP : (native.P < 2 ^ 256)%Z) by reflexivity.
  assert (HN : (native.N < 2 ^ 256)%Z) by reflexivity.
  clearbody s_raw.
  split; [|split].
  - replace (27 + Z.lxor (y mod 2) (if negb (s_raw * 2 <? native.N)%Z then 1 else 0) - 27)%Z
      with (Z.lxor (y mod 2) (if negb (s_raw * 2 <? native.N)%Z then 1 else 0)) by lia.
    apply lxor_bit.
    + pose proof (Z.mod_pos_bound y 2 eq_refl). lia.
    + destruct (negb _); auto.
  - lia.
  - destruct (Z.ltb_spec (s_raw * 2) native.N); cbn [negb]; lia.
Qed.

Section NativeSignature.
Local Existing Instance native.backend.

(** X8.  With the pure-Python backend of eth_keys, the signature in a dictionary
    [sign_photo] returns is the text of 65 bytes, 130 digits: r and s on 32
    bytes each and one byte v, which is 27 or 28. *)
Theorem native_signature_shape (private_key photo_hash : pyval)
    (location metadata : string) (nonce : Z) (signed : Signed.t) :
  sign_photo private_key photo_hash location metadata nonce = Ok signed ->
  String.length (Signed.signature signed) = 130
  /\ (Signed.v signed = 27 \/ Signed.v signed = 28)%N
  /\ exists r s : N,
       (r < 2 ^ 256 /\ s < 2 ^ 256)%N
       /\ Signed.r signed = py_hex r /\ Signed.s signed = py_hex s
       /\ Signed.signature signed
          = hex (be_bytes 32 r ++ be_bytes 32 s ++ [byte_of_N (Signed.v signed)]).
Proof.
  rewrite sign_photo_chain.
  destruct (eth_account.from_key private_key) as [account|]; [|discriminate].
  cbn [bind].
  destruct (Web3.solidity_keccak _ _) as [message_hash|]; [|discriminate].
  cbn [bind ecdsa_sign native.backend].
  pose proof (ecdsa_raw_sign_range
                (Keccak.keccak256 (personal_message_prefix ++ message_hash))
                (eth_account.key account)) as H.
  destruct (native.ecdsa_raw_sign _ _) as [[v r] s].
  destruct H as (Hv & Hr & Hs).
  intros [= <-]. cbn [signed_photo Signed.signature Signed.v Signed.r Signed.s].
  assert (Hr' : (Z.to_N r < 2 ^ 256)%N) by now apply nonce_fits.
  assert (Hs' : (Z.to_N s < 2 ^ 256)%N) by now apply nonce_fits.
  assert (Hv' : eth_account.int_to_big_endian (Z.to_N v + 27)
                = [byte_of_N (Z.to_N v + 27)]).
  { destruct Hv as [-> | ->]; reflexivity. }
  rewrite Hv', !to_bytes32_be_bytes by assumption.
  split; [|split].
  - rewrite hex_length, !length_app, !be_bytes_length. reflexivity.
  - destruct Hv as [-> | ->]; [now left|now right].
  - exists (Z.to_N r), (Z.to_N s). repeat split; assumption.
Qed.

End NativeSignature.

(** ** Dictionaries *)

Lemma get_assign_same {V : Type} (d : Dict.t V) (k : string) (v : V) :
  Dict.get (Dict.assign d k v) k = Some v.
Proof.
  induction d as [|[k' v'] d IH]; cbn [Dict.assign Dict.get].
  - now rewrite String.eqb_refl.
  - destruct (String.eqb k' k) eqn:E; cbn [Dict.get]; rewrite E; auto.
Qed.

Lemma get_assign_other {V : Type} (d : Dict.t V) (k k0 : string) (v : V) :
  k0 <> k -> Dict.get (Dict.assign d k v) k0 = Dict.get d k0.
Proof.
  intros Hne. induction d as [|[k' v'] d IH]; cbn [Dict.assign Dict.get].
  - destruct (String.eqb_spec k k0); [congruence|reflexivity].
  - destruct (String.eqb_spec k' k) as [->|Hk]; cbn [Dict.get].
    + destruct (String.eqb_spec k k0); [congruence|reflexivity].
    + destruct (String.eqb_spec k' k0); [reflexivity|exact IH].
Qed.

Lemma item_Ok {V : Type} (d : Dict.t V) (k : string) (v : V) :
  Dict.item d k = Ok v <-> Dict.get d k = Some v.
Proof.
  unfold Dict.item. destruct (Dict.get d k); split; congruence.
Qed.

(** ** The key file: what is saved is what is loaded *)

(** What [save_private_key] does when it returns. *)
Lemma save_private_key_Ok (now camera_id : string) (wallet_data : Dict.t string)
    (file file' : key_file) :
  save_private_key now camera_id wallet_data file = Ok file' ->
  exists keys address privateKey,
    (file = NoFile /\ keys = [] \/ file = Json keys)
    /\ Dict.get wallet_data "address" = Some address
    /\ Dict.get wallet_data "privateKey" = Some privateKey
    /\ file' = Json (Dict.assign keys camera_id
                       [("address", address);
                        ("privateKey", privateKey);
                        ("mnemonic", Dict.get_or wallet_data "mnemonic" EmptyString);
                        ("createdAt", now)]%string).
Proof.
  unfold save_private_key. intros H.
  assert (exists keys, (file = NoFile /\ keys = [] \/ file = Json keys)
                       /\ match file with
                          | NoFile => Ok []
                          | NotJson => Raise JSONDecodeError
                          | Json keys => Ok keys
                          end = Ok keys) as (keys & Hf & Hk).
  { destruct file as [| |keys]; [exists []|discriminate|exists keys]; auto. }
  rewrite Hk in H. cbn [bind] in H.
  destruct (Dict.item wallet_data "address") as [address|] eqn:Ea; [|discriminate].
  destruct (Dict.item wallet_data "privateKey") as [privateKey|] eqn:Ep;
    [|discriminate].
  cbn [bind] in H. injection H as <-.
  exists keys, address, privateKey.
  apply item_Ok in Ea, Ep. auto.
Qed.

(** [load_private_key] on the file [save_private_key] has written. *)
Lemma load_private_key_saved (now camera_id : string)
    (wallet_data : Dict.t string) (file file' : key_file) :
  save_private_key now camera_id wallet_data file = Ok file' ->
  exists address privateKey,
    Dict.get wallet_data "address" = Some address
    /\ Dict.get wallet_data "privateKey" = Some privateKey
    /\ load_private_key camera_id file'
       = Ok [("address", address);
             ("privateKey", privateKey);
             ("mnemonic", Dict.get_or wallet_data "mnemonic" EmptyString);
             ("createdAt", now)]%string.
Proof.
  intros H.
  destruct (save_private_key_Ok _ _ _ _ _ H)
    as (keys & address & privateKey & Hf & Ha & Hp & ->).
  exists address, privateKey. split; [exact Ha|]. split; [exact Hp|].
  cbn [load_private_key]. now rewrite get_assign_same.
Qed.

(** X9.  After [save_private_key] has returned, [load_private_key] finds under
    the camera identifier the address and the key that were handed over,
    with the mnemonic (or the empty text) and the time of the call; what the
    file holds for every other identifier is as it was. *)
Theorem load_private_key_after_save (now camera_id : string)
    (wallet_data : Dict.t string) (file file' : key_file) :
  save_private_key now camera_id wallet_data file = Ok file' ->
  (exists address privateKey,
     Dict.get wallet_data "address" = Some address
     /\ Dict.get wallet_data "privateKey" = Some privateKey
     /\ load_private_key camera_id file'
        = Ok [("address", address);
              ("privateKey", privateKey);
              ("mnemonic", Dict.get_or wallet_data "mnemonic" EmptyString);
              ("createdAt", now)]%string)
  /\ (forall other entry,
        other <> camera_id ->
        load_private_key other file' = Ok entry
        <-> load_private_key other file = Ok entry).
Proof.
  intros H. split; [exact (load_private_key_saved _ _ _ _ _ H)|].
  destruct (save_private_key_Ok _ _ _ _ _ H)
    as (keys & address & privateKey & Hf & Ha & Hp & ->).
  intros other entry Hne. cbn [load_private_key].
  rewrite get_assign_other by exact Hne.
  destruct Hf as [[-> ->]| ->]; cbn [load_private_key Dict.get].
  - split; discriminate.
  - reflexivity.
Qed.

Lemma load_private_key_after_save_witness :
  exists file',
    save_private_key "2026-01-01T00:00:00" "cam2"
      [("address", "0x7E5F4552091A69125d5DfCb7b8C2659029395Bdf");
       ("privateKey", "01")]%string
      (Json [("cam1", [("address", "0x00")]%string)]%string) = Ok file'
    /\ load_private_key "cam2" file'
       = Ok [("address", "0x7E5F4552091A69125d5DfCb7b8C2659029395Bdf");
             ("privateKey", "01");
             ("mnemonic", "");
             ("createdAt", "2026-01-01T00:00:00")]%string
    /\ load_private_key "cam1" file' = Ok [("address", "0x00")]%string.
Proof.
  eexists. split; [reflexivity|].
  destruct (load_private_key_after_save "2026-01-01T00:00:00" "cam2"
              [("address", "0x7E5F4552091A69125d5DfCb7b8C2659029395Bdf");
               ("privateKey", "01")]%string
              (Json [("cam1", [("address", "0x00")]%string)]%string) _ eq_refl)
    as [(a & p & Ha & Hp & Hl) Ho].
  injection Ha as <-. injection Hp as <-.
  split; [exact Hl|].
  apply Ho; [discriminate|reflexivity].
Defined.

(** ** The credentials of a camera *)

(** What [credentials_of] returns comes from the entry, and its key has the
    prefix [0x]. *)
Lemma credentials_of_Ok (key : string) (data : Dict.t string) (creds : Credentials.t) :
  credentials_of key data = Ok creds ->
  Credentials.camera_id creds = key
  /\ Dict.get data "address" = Some (Credentials.address creds)
  /\ String.prefix "0x" (Credentials.private_key creds) = true
  /\ exists stored_key,
       Dict.get data "privateKey" = Some stored_key
       /\ Credentials.private_key creds
          = (if String.prefix "0x" stored_key then stored_key
             else "0x" ++ stored_key)%string.
Proof.
  unfold credentials_of. intros H.
  destruct (Dict.item data "address") as [address|] eqn:Ea; [|discriminate].
  destruct (Dict.item data "privateKey") as [privateKey|] eqn:Ep; [|discriminate].
  cbn [bind] in H. injection H as <-.
  apply item_Ok in Ea, Ep.
  cbn [Credentials.camera_id Credentials.address Credentials.private_key].
  split; [reflexivity|]. split; [exact Ea|].
  destruct (String.prefix "0x" privateKey) eqn:E; cbn [negb].
  - split; [exact E|]. exists privateKey. now rewrite E.
  - split; [apply (prefix_0x_0x privateKey)|]. exists privateKey. now rewrite E.
Qed.

Lemma find_camera_id_In (clean : string) (items : Dict.t (Dict.t string))
    (found : result Credentials.t) :
  find_camera_id clean items = Some found ->
  exists key data, In (key, data) items /\ found = credentials_of key data.
Proof.
  induction items as [|[key data] items IH]; cbn [find_camera_id]; [discriminate|].
  destruct (String.eqb _ clean).
  - intros [= <-]. exists key, data. split; [now left|reflexivity].
  - intros H. destruct (IH H) as (k & d & Hin & ->).
    exists k, d. split; [now right|reflexivity].
Qed.

Lemma find_address_In (address : string) (items : Dict.t (Dict.t string))
    (creds : Credentials.t) :
  find_address address items = Some (Ok creds) ->
  exists key data, In (key, data) items /\ credentials_of key data = Ok creds.
Proof.
  induction items as [|[key data] items IH]; cbn [find_address]; [discriminate|].
  destruct (Dict.item data "address") as [a|]; [|discriminate].
  destruct (String.eqb _ _).
  - intros [= H]. exists key, data. split; [now left|exact H].
  - intros H. destruct (IH H) as (k & d & Hin & Hc).
    exists k, d. split; [now right|exact Hc].
Qed.

Lemma fmap_Some_Ok {A : Type} (m : result A) (a : option A) :
  fmap Some m = Ok a -> exists x, m = Ok x /\ a = Some x.
Proof. destruct m; [|discriminate]. intros [= <-]. eauto. Qed.

(** X10.  Credentials that [load_credentials] returns are those of a camera of
    the key file: the identifier is one of the file, the address is the one
    stored under it, and the private key is the stored one, after [0x] when
    the stored one does not start with it. *)
Theorem load_credentials_returns (file : key_file) (camera_id address : option string)
    (creds : Credentials.t) :
  load_credentials file camera_id address = Ok (Some creds) ->
  String.prefix "0x" (Credentials.private_key creds) = true
  /\ exists cameras data stored_key,
       file = Json cameras
       /\ In (Credentials.camera_id creds, data) cameras
       /\ Dict.get data "address" = Some (Credentials.address creds)
       /\ Dict.get data "privateKey" = Some stored_key
       /\ Credentials.private_key creds
          = (if String.prefix "0x" stored_key then stored_key
             else "0x" ++ stored_key)%string.
Proof.
  unfold load_credentials.
  destruct file as [| |cameras]; [discriminate|discriminate|].
  destruct cameras as [|[first d0] rest] eqn:Ec; [discriminate|].
  rewrite <- Ec. clear Ec.
  assert (Hfrom : forall key data,
            In (key, data) cameras -> credentials_of key data = Ok creds ->
            String.prefix "0x" (Credentials.private_key creds) = true
            /\ exists cameras0 data0 stored_key,
                 Json cameras = Json cameras0
                 /\ In (Credentials.camera_id creds, data0) cameras0
                 /\ Dict.get data0 "address" = Some (Credentials.address creds)
                 /\ Dict.get data0 "privateKey" = Some stored_key
                 /\ Credentials.private_key creds
                    = (if String.prefix "0x" stored_key then stored_key
                       else "0x" ++ stored_key)%string).
  { intros key data Hin Hc.
    destruct (credentials_of_Ok _ _ _ Hc) as (Hid & Ha & Hp & sk & Hk & Hv).
    split; [exact Hp|]. exists cameras, data, sk. rewrite Hid. auto. }
  destruct (truthy _).
  - destruct (find_camera_id _ _) as [found|] eqn:Ef; [|discriminate].
    intros H. apply fmap_Some_Ok in H. destruct H as (x & -> & [= <-]).
    destruct (find_camera_id_In _ _ _ Ef) as (k & d & Hin & Hc).
    now apply (Hfrom k d).
  - destruct (truthy address); [|discriminate].
    destruct (find_address _ _) as [found|] eqn:Ef; [|discriminate].
    intros H. apply fmap_Some_Ok in H. destruct H as (x & -> & [= <-]).
    destruct (find_address_In _ _ _ Ef) as (k & d & Hin & Hc).
    now apply (Hfrom k d).
Qed.

(** X11.  [load_credentials] returns [None], and not a dictionary, in one case
    only: nothing truthy was given to select the camera and the first
    identifier of the file is the empty text. *)
Theorem load_credentials_None (file : key_file) (camera_id address : option string) :
  load_credentials file camera_id address = Ok None
  <-> truthy camera_id = false /\ truthy address = false
      /\ exists data rest, file = Json ((EmptyString, data) :: rest).
Proof.
  unfold load_credentials. split.
  - destruct file as [| |cameras]; [discriminate|discriminate|].
    destruct cameras as [|[first d0] rest] eqn:Ec; [discriminate|].
    rewrite <- Ec.
    destruct (truthy camera_id) eqn:Tc; cbn [negb andb].
    + rewrite Tc. destruct (find_camera_id _ _) as [[c|e]|]; discriminate.
    + destruct (truthy address) eqn:Ta; cbn [negb].
      * rewrite Tc. destruct (find_address _ _) as [[c|e]|]; discriminate.
      * cbn [truthy].
        destruct (String.eqb_spec first "") as [->|Hne]; cbn [negb].
        -- intros _. rewrite Ec. split; [reflexivity|]. split; [reflexivity|]. eauto.
        -- destruct (find_camera_id _ _) as [[c|e]|]; discriminate.
  - intros (Tc & Ta & data & rest & ->).
    rewrite Tc, Ta. cbn [negb andb truthy String.eqb]. reflexivity.
Qed.

(** X12.  With nothing truthy given to select the camera, the credentials are
    those of the first camera of the file, whose identifier is not empty. *)
Theorem load_credentials_default (first : string) (data : Dict.t string)
    (rest : Dict.t (Dict.t string)) (camera_id address : option string) :
  truthy camera_id = false -> truthy address = false ->
  first <> EmptyString ->
  load_credentials (Json ((first, data) :: rest)) camera_id address
  = fmap Some (credentials_of first data).
Proof.
  intros Tc Ta Hne. unfold load_credentials.
  rewrite Tc, Ta. cbn [negb andb truthy text_of].
  destruct (String.eqb_spec first ""); [contradiction|]. cbn [negb].
  cbn [find_camera_id]. now rewrite String.eqb_refl.
Qed.

Lemma load_credentials_default_witness :
  load_credentials
    (Json [("cam1", [("address", "0x00"); ("privateKey", "01")]);
           ("cam2", [("address", "0x01"); ("privateKey", "0x02")])]%string)
    (Some EmptyString) None
  = Ok (Some {| Credentials.camera_id := "cam1";
                Credentials.address := "0x00";
                Credentials.private_key := "0x01";
                Credentials.mnemonic := "";
                Credentials.created_at := "" |}).
Proof.
  apply (load_credentials_default "cam1"
           [("address", "0x00"); ("privateKey", "01")]%string);
    [reflexivity|reflexivity|discriminate].
Defined.

(** ** Looking a camera up by its identifier *)

(** The loop finds the entry [save_private_key] has written, when no other
    identifier of the file reads as the one looked for. *)
Lemma find_camera_id_assign (camera_id : string) (entry : Dict.t string)
    (keys : Dict.t (Dict.t string)) :
  (forall k, In k (Dict.keys keys) ->
             str_lower (str_replace "0x" "" k) = str_lower (str_replace "0x" "" camera_id) ->
             k = camera_id) ->
  find_camera_id (str_lower (str_replace "0x" "" camera_id))
                 (Dict.assign keys camera_id entry)
  = Some (credentials_of camera_id entry).
Proof.
  induction keys as [|[k v] keys IH]; intros Hu; cbn [Dict.assign find_camera_id].
  - now rewrite String.eqb_refl.
  - destruct (String.eqb_spec k camera_id) as [->|Hk]; cbn [find_camera_id].
    + now rewrite String.eqb_refl.
    + destruct (String.eqb_spec (str_lower (str_replace "0x" "" k))
                                (str_lower (str_replace "0x" "" camera_id))) as [E|E].
      * exfalso. apply Hk, Hu; [now left|exact E].
      * apply IH. intros k0 Hin. apply Hu. now right.
Qed.

Lemma assign_not_nil {V : Type} (d : Dict.t V) (k : string) (v : V) :
  exists k0 v0 rest, Dict.assign d k v = (k0, v0) :: rest.
Proof.
  destruct d as [|[k' v'] d]; cbn [Dict.assign]; [eauto|].
  destruct (String.eqb k' k); eauto.
Qed.

Lemma truthy_Some (s : string) : s <> EmptyString -> truthy (Some s) = true.
Proof.
  intros H. cbn [truthy]. now destruct (String.eqb_spec s "").
Qed.

(** [load_credentials] on a file in which an entry has been assigned to the
    identifier looked for. *)
Lemma load_credentials_assigned (camera_id : string) (entry : Dict.t string)
    (keys : Dict.t (Dict.t string)) (other : option string) :
  camera_id <> EmptyString ->
  (forall k, In k (Dict.keys keys) ->
             str_lower (str_replace "0x" "" k) = str_lower (str_replace "0x" "" camera_id) ->
             k = camera_id) ->
  load_credentials (Json (Dict.assign keys camera_id entry)) (Some camera_id) other
  = fmap Some (credentials_of camera_id entry).
Proof.
  intros Hne Hu. unfold load_credentials.
  destruct (assign_not_nil keys camera_id entry) as (k0 & v0 & rest & E).
  rewrite E, <- E. clear E.
  rewrite (truthy_Some camera_id Hne). cbn [negb andb text_of].
  rewrite (truthy_Some camera_id Hne).
  now rewrite find_camera_id_assign by exact Hu.
Qed.

(** The identifiers of the file before [save_private_key]. *)
Lemma stored_ids_before (file : key_file) (keys : Dict.t (Dict.t string)) :
  file = NoFile /\ keys = [] \/ file = Json keys ->
  Dict.keys keys = stored_ids file.
Proof. intros [[-> ->]| ->]; reflexivity. Qed.

(** X13.  What [sign_photo.py] loads is what [get_camera_wallet.py] saved.  After
    [save_private_key] has returned for a camera identifier that is not
    empty, [load_credentials] with that identifier returns the address that
    was saved, the private key that was saved (after [0x] when it did not
    start with it), the mnemonic and the time of the saving -- provided no
    other identifier of the file reads the same without [0x] and in lower
    case.  The identifiers are ASCII text, the text for which lowering is
    modelled. *)
Theorem load_credentials_after_save (now camera_id : string)
    (wallet_data : Dict.t string) (file file' : key_file)
    (address privateKey : string) (other : option string) :
  save_private_key now camera_id wallet_data file = Ok file' ->
  camera_id <> EmptyString ->
  is_ascii_text camera_id = true ->
  Forall (fun k => is_ascii_text k = true) (stored_ids file) ->
  (forall k, In k (stored_ids file) ->
             str_lower (str_replace "0x" "" k) = str_lower (str_replace "0x" "" camera_id) ->
             k = camera_id) ->
  Dict.get wallet_data "address" = Some address ->
  Dict.get wallet_data "privateKey" = Some privateKey ->
  load_credentials file' (Some camera_id) other
  = Ok (Some {| Credentials.camera_id := camera_id;
                Credentials.address := address;
                Credentials.private_key :=
                  (if String.prefix "0x" privateKey then privateKey
                   else "0x" ++ privateKey)%string;
                Credentials.mnemonic := Dict.get_or wallet_data "mnemonic" EmptyString;
                Credentials.created_at := now |}).
Proof.
  intros Hsave Hne _ _ Hu Ha Hp.
  destruct (save_private_key_Ok _ _ _ _ _ Hsave)
    as (keys & a & p & Hf & Ha' & Hp' & ->).
  assert (a = address) as -> by congruence.
  assert (p = privateKey) as -> by congruence.
  rewrite load_credentials_assigned;
    [|exact Hne|now rewrite (stored_ids_before file keys Hf)].
  unfold credentials_of, Dict.item, Dict.get_or.
  cbn [Dict.get String.eqb Ascii.eqb Bool.eqb bind fmap].
  now destruct (String.prefix "0x" privateKey).
Qed.

Lemma load_credentials_after_save_witness :
  load_credentials
    (Json [("0xAB01", [("address", "0x00"); ("privateKey", "0x02")]);
           ("ab02", [("address", "0x7E5F4552091A69125d5DfCb7b8C2659029395Bdf");
                     ("privateKey", "01");
                     ("mnemonic", "");
                     ("createdAt", "2026-01-01T00:00:00")])]%string)
    (Some "ab02"%string) None
  = Ok (Some {| Credentials.camera_id := "ab02";
                Credentials.address := "0x7E5F4552091A69125d5DfCb7b8C2659029395Bdf";
                Credentials.private_key := "0x01";
                Credentials.mnemonic := "";
                Credentials.created_at := "2026-01-01T00:00:00" |}).
Proof.
  apply (load_credentials_after_save "2026-01-01T00:00:00" "ab02"
           [("address", "0x7E5F4552091A69125d5DfCb7b8C2659029395Bdf");
            ("privateKey", "01")]%string
           (Json [("0xAB01", [("address", "0x00"); ("privateKey", "0x02")])]%string)
           (Json [("0xAB01", [("address", "0x00"); ("privateKey", "0x02")]);
                  ("ab02", [("address", "0x7E5F4552091A69125d5DfCb7b8C2659029395Bdf");
                            ("privateKey", "01");
                            ("mnemonic", "");
                            ("createdAt", "2026-01-01T00:00:00")])]%string)
           "0x7E5F4552091A69125d5DfCb7b8C2659029395Bdf" "01").
  - reflexivity.
  - discriminate.
  - reflexivity.
  - repeat constructor.
  - intros k [<-|[]]. vm_compute. discriminate.
  - reflexivity.
  - reflexivity.
Defined.

(** ** Identifiers with and without [0x] *)

Lemma high_nibble_lt (x : byte) : (Byte.to_N x / 16 < 16)%N.
Proof. apply N.Div0.div_lt_upper_bound. apply to_N_lt_256. Qed.

Lemma low_nibble_lt (x : byte) : (Byte.to_N x mod 16 < 16)%N.
Proof. apply N.mod_upper_bound. discriminate. Qed.

(** A leading [0x] is taken out like any other. *)
Lemma str_replace_0x_prefixed (s : string) :
  str_replace "0x" "" ("0x" ++ s) = str_replace "0x" "" s.
Proof.
  unfold str_replace.
  change ("0x" ++ s)%string with (String "0" (String "x" s)).
  cbn [replace_from].
  change (String "0" (String "x" s)) with ("0x" ++ s)%string.
  rewrite (prefix_0x_0x s). reflexivity.
Qed.

(** X14.  A camera identifier selects the same camera with [0x] in front as
    without: the two calls of [load_credentials] return the same value (they
    differ only in the message of the error when no camera is found). *)
Theorem load_credentials_0x_prefix (file : key_file) (camera_id : string)
    (address : option string) (found : option Credentials.t) :
  camera_id <> EmptyString ->
  load_credentials file (Some ("0x" ++ camera_id)%string) address = Ok found
  <-> load_credentials file (Some camera_id) address = Ok found.
Proof.
  intros Hne.
  assert (H0 : ("0x" ++ camera_id)%string <> EmptyString) by discriminate.
  unfold load_credentials.
  destruct file as [| |cameras]; [reflexivity|reflexivity|].
  destruct cameras as [|[first d0] rest] eqn:Ec; [reflexivity|]. rewrite <- Ec.
  rewrite (truthy_Some _ Hne), (truthy_Some _ H0). cbn [negb andb text_of].
  rewrite (truthy_Some _ Hne), (truthy_Some _ H0).
  rewrite str_replace_0x_prefixed.
  destruct (find_camera_id _ cameras) as [r|]; [reflexivity|].
  split; discriminate.
Qed.

Lemma load_credentials_0x_prefix_witness :
  load_credentials
    (Json [("0xAB01", [("address", "0x00"); ("privateKey", "0x02")])]%string)
    (Some ("0x" ++ "ab01")%string) None
  = Ok (Some {| Credentials.camera_id := "0xAB01";
                Credentials.address := "0x00";
                Credentials.private_key := "0x02";
                Credentials.mnemonic := "";
                Credentials.created_at := "" |}).
Proof.
  apply (load_credentials_0x_prefix _ "ab01"); [discriminate|reflexivity].
Defined.

(** ** From the wallet to the signature *)

Section Wallet.
Context {backend : ECCBackend}.

(** A key written as [0x] and its hexadecimal digits is the key. *)
Lemma from_key_0x_hex (k : bytes) :
  eth_account.from_key (PStr ("0x" ++ hex k)) = eth_account.from_key (PBytes k).
Proof.
  unfold eth_account.from_key, eth_account.HexBytes, eth_account.hexstr_to_bytes.
  rewrite prefix_0x_0x. cbn [orb].
  rewrite string_length_append, hex_length.
  change (String.length "0x") with 2.
  replace (2 + 2 * length k - 2) with (String.length (hex k))
    by (rewrite hex_length; lia).
  replace (Nat.odd (2 + 2 * length k)) with false.
  2:{ symmetry. replace (2 + 2 * length k) with (2 * (1 + length k)) by lia.
      rewrite Nat.odd_mul. reflexivity. }
  change ("0x" ++ hex k)%string with (String "0" (String "x" (hex k))).
  cbn [String.substring]. now rewrite substring_all, unhexlify_hex.
Qed.

(** X15.  A wallet made by [generate_camera_wallet] and saved by
    [save_private_key] signs under the address that was saved.  The account
    is the one of its key, as the accounts of eth_account are; the camera
    identifier is not empty and, as ASCII text, is the only one of the file
    that reads as it does without [0x] and in lower case.  Then
    [load_credentials] returns the saved address and the key of the account
    after [0x], [Account.from_key] makes the same account of that key, and
    every dictionary [sign_photo] returns for that key names the saved
    address. *)
Theorem generated_wallet_signs_under_saved_address
    (account : eth_account.LocalAccount) (mnemonic now camera_id : string)
    (file file' : key_file) :
  eth_account.from_key (PBytes (eth_account.key account)) = Ok account ->
  save_private_key now camera_id (generate_camera_wallet (account, mnemonic)) file
  = Ok file' ->
  camera_id <> EmptyString ->
  is_ascii_text camera_id = true ->
  Forall (fun k => is_ascii_text k = true) (stored_ids file) ->
  (forall k, In k (stored_ids file) ->
             str_lower (str_replace "0x" "" k) = str_lower (str_replace "0x" "" camera_id) ->
             k = camera_id) ->
  exists creds,
    load_credentials file' (Some camera_id) None = Ok (Some creds)
    /\ Credentials.address creds = eth_account.address account
    /\ Credentials.private_key creds = ("0x" ++ hex (eth_account.key account))%string
    /\ eth_account.from_key (PStr (Credentials.private_key creds)) = Ok account
    /\ forall photo_hash location metadata nonce signed,
         sign_photo (PStr (Credentials.private_key creds)) photo_hash
                    location metadata nonce = Ok signed ->
         Signed.camera_address signed = Credentials.address creds.
Proof.
  intros Hacc Hsave Hne _ _ Hu.
  destruct (save_private_key_Ok _ _ _ _ _ Hsave)
    as (keys & a & p & Hf & Ha & Hp & ->).
  cbn in Ha, Hp. injection Ha as <-. injection Hp as <-.
  eexists. split.
  - rewrite load_credentials_assigned;
      [|exact Hne|now rewrite (stored_ids_before file keys Hf)].
    unfold credentials_of, Dict.item, Dict.get_or.
    cbn [Dict.get String.eqb Ascii.eqb Bool.eqb bind fmap]. reflexivity.
  - cbn [Credentials.address Credentials.private_key].
    assert (Hp : String.prefix "0x" (hex (eth_account.key account)) = false).
    { pose proof (hex_not_prefixed (eth_account.key account)) as H.
      unfold eth_utils.is_0x_prefixed in H.
      now apply orb_false_iff in H. }
    rewrite Hp.
    assert (Hk : eth_account.from_key (PStr ("0x" ++ hex (eth_account.key account)))
                 = Ok account) by now rewrite from_key_0x_hex.
    split; [reflexivity|]. split; [reflexivity|]. split; [exact Hk|].
    intros photo_hash location metadata nonce signed Hs.
    cbn [negb] in Hs. rewrite sign_photo_chain, Hk in Hs. cbn [bind] in Hs.
    destruct (Web3.solidity_keccak _ _); [|discriminate]. cbn [bind] in Hs.
    destruct (ecdsa_sign _ _) as [[[v r] s]|]; [|discriminate].
    cbn [bind] in Hs. now injection Hs as <-.
Qed.

End Wallet.

Lemma generated_wallet_signs_under_saved_address_witness :
  exists creds,
    load_credentials
      (Json [("ab02",
              [("address", "0x7E5F4552091A69125d5DfCb7b8C2659029395Bdf");
               ("privateKey",
                "0000000000000000000000000000000000000000000000000000000000000001");
               ("mnemonic", "abandon ability");
               ("createdAt", "2026-01-01T00:00:00")])]%string)
      (Some "ab02"%string) None = Ok (Some creds)
    /\ Credentials.address creds = "0x7E5F4552091A69125d5DfCb7b8C2659029395Bdf"%string
    /\ Credentials.private_key creds
       = "0x0000000000000000000000000000000000000000000000000000000000000001"%string.
Proof.
  destruct (generated_wallet_signs_under_saved_address (backend := native.backend)
              {| eth_account.key := be_bytes 32 1;
                 eth_account.address := "0x7E5F4552091A69125d5DfCb7b8C2659029395Bdf" |}
              "abandon ability" "2026-01-01T00:00:00" "ab02" NoFile
              (Json [("ab02",
                      [("address", "0x7E5F4552091A69125d5DfCb7b8C2659029395Bdf");
                       ("privateKey",
                        "0000000000000000000000000000000000000000000000000000000000000001");
                       ("mnemonic", "abandon ability");
                       ("createdAt", "2026-01-01T00:00:00")])]%string))
    as (creds & Hl & Ha & Hp & _).
  - cbn [eth_account.key]. rewrite <- from_key_0x_hex.
    exact native_account_of_key_one.
  - reflexivity.
  - discriminate.
  - reflexivity.
  - constructor.
  - intros k [].
  - exists creds. split; [exact Hl|]. split; [exact Ha|exact Hp].
Defined.

(** ** Saving the key of a wallet that the API names *)

Section SaveWalletFromApiProperties.
Context {backend : ECCBackend}.

(** X16.  Once the API has answered with the wallet address of the camera (ASCII
    text), [save_wallet_from_api] returns without raising, and it changes
    the key file in one case only: the line typed at the prompt, stripped
    and after [0x] when it does not start with it, is a private key whose
    address equals the wallet address when both are lowered.  The file then
    holds, under the camera identifier, the address of that key and the key
    as typed and prefixed.  In every other case the file is as it was. *)
Theorem save_wallet_from_api_matching_key
    (post : string -> result (Dict.t (Dict.t string)))
    (typed now camera_id : string) (file : key_file)
    (camera_info : Dict.t string) (wallet_address : string) :
  get_camera_info post camera_id = Ok camera_info ->
  Dict.get camera_info "walletAddress" = Some wallet_address ->
  is_ascii_text wallet_address = true ->
  exists file',
    save_wallet_from_api post typed now camera_id file = Ok file'
    /\ (file' = file
        \/ exists private_key account,
             (private_key = str_strip typed
              \/ private_key = ("0x" ++ str_strip typed)%string)
             /\ String.prefix "0x" private_key = true
             /\ eth_account.from_key (PStr private_key) = Ok account
             /\ str_lower (eth_account.address account) = str_lower wallet_address
             /\ load_private_key camera_id file'
                = Ok [("address", eth_account.address account);
                      ("privateKey", private_key);
                      ("mnemonic", "");
                      ("createdAt", now)]%string).
Proof.
  intros Hinfo Hw _. unfold save_wallet_from_api.
  rewrite Hinfo. cbn [bind]. rewrite Hw.
  destruct (String.eqb wallet_address ""); [eauto|].
  destruct (String.eqb (str_strip typed) ""); [eauto|].
  set (private_key := if negb (String.prefix "0x" (str_strip typed))
                      then ("0x" ++ str_strip typed)%string else str_strip typed).
  assert (Hpk : (private_key = str_strip typed
                 \/ private_key = ("0x" ++ str_strip typed)%string)
                /\ String.prefix "0x" private_key = true).
  { unfold private_key.
    destruct (String.prefix "0x" (str_strip typed)) eqn:E; cbn [negb].
    - split; [now left|exact E].
    - split; [now right|apply prefix_0x_0x]. }
  clearbody private_key. destruct Hpk as [Hform Hpre].
  destruct (eth_account.from_key (PStr private_key)) as [account|e] eqn:Ek;
    cbn [bind]; [|eauto].
  destruct (String.eqb_spec (str_lower (eth_account.address account))
                            (str_lower wallet_address)) as [Heq|Hneq];
    cbn [negb]; [|eauto].
  destruct (save_private_key now camera_id _ file) as [file'|e] eqn:Es; [|eauto].
  exists file'. split; [reflexivity|]. right.
  exists private_key, account.
  destruct (load_private_key_saved _ _ _ _ _ Es) as (a & p & Ha & Hp & Hl).
  cbn in Ha, Hp. injection Ha as <-. injection Hp as <-.
  repeat (split; [assumption|]). exact Hl.
Qed.

End SaveWalletFromApiProperties.

(** ** The [.cid] file *)

Lemma append_assoc (a b c : string) : ((a ++ b) ++ c = a ++ (b ++ c))%string.
Proof. induction a as [|x a IH]; simpl; [reflexivity|now rewrite IH]. Qed.

Lemma append_empty_r (a : string) : (a ++ "" = a)%string.
Proof. induction a as [|x a IH]; simpl; [reflexivity|now rewrite IH]. Qed.

(** An ASCII character stands alone among the characters of a text. *)
Lemma chars_cons_ascii (c : ascii) (s : string) :
  (N_of_ascii c < 128)%N -> chars (String c s) = String c EmptyString :: chars s.
Proof.
  intros H. cbn [chars].
  destruct (N.leb_spec 128 (N_of_ascii c)); [lia|].
  now destruct (chars s).
Qed.

Lemma chars_app_ascii (a b : string) (c : ascii) :
  (N_of_ascii c < 128)%N ->
  chars (a ++ String c b) = chars a ++ String c EmptyString :: chars b.
Proof.
  intros H. induction a as [|x a IH].
  - now apply chars_cons_ascii.
  - cbn [append chars]. rewrite IH.
    destruct (chars a) as [|ch more]; cbn [app].
    + unfold starts_with_continuation, is_continuation.
      destruct (N.leb_spec 128 (N_of_ascii c)); [lia|].
      cbn [andb]. now rewrite andb_false_r.
    + now destruct (_ && _).
Qed.

(** The characters of a text, put together, are the text. *)
Lemma join_chars (s : string) : fold_right append EmptyString (chars s) = s.
Proof.
  induction s as [|c s IH]; [reflexivity|].
  cbn [chars]. destruct (chars s) as [|ch more].
  - cbn in IH |- *. now rewrite <- IH.
  - destruct (_ && _); cbn [fold_right append] in IH |- *; now rewrite IH.
Qed.

(** Characters that are no line boundaries go to the line being read. *)
Lemma lines_from_plain (cs rest : list string) (line : string) :
  Forall (fun ch => is_linebreak ch = false) cs ->
  lines_from false line (cs ++ rest)
  = lines_from false (line ++ fold_right append EmptyString cs) rest.
Proof.
  intros H. revert line. induction H as [|ch cs Hch _ IH]; intros line.
  - cbn. now rewrite append_empty_r.
  - cbn [app lines_from andb fold_right]. rewrite Hch, IH.
    now rewrite append_assoc.
Qed.

(** The first line of a text that starts with a line without boundary and
    a line feed. *)
Lemma str_splitlines_line (line rest : string) :
  no_linebreak line ->
  str_splitlines (line ++ LF ++ rest) = line :: str_splitlines rest.
Proof.
  intros H. unfold str_splitlines.
  change (LF ++ rest)%string with (String "010" rest).
  rewrite chars_app_ascii by reflexivity.
  rewrite lines_from_plain by exact H.
  rewrite join_chars. cbn [append lines_from andb].
  reflexivity.
Qed.

Lemma no_linebreak_app_eq (key value : string) :
  no_linebreak key -> no_linebreak value ->
  no_linebreak (key ++ "=" ++ value).
Proof.
  intros Hk Hv. unfold no_linebreak.
  change ("=" ++ value)%string with (String "=" value).
  rewrite chars_app_ascii by reflexivity.
  apply Forall_app. split; [exact Hk|]. constructor; [reflexivity|exact Hv].
Qed.

Lemma split_once_app (key value : string) :
  split_once "=" key = None ->
  split_once "=" (key ++ "=" ++ value) = Some (key, value).
Proof.
  induction key as [|c key IH]; intros H; [reflexivity|].
  cbn [split_once append] in H, IH |- *.
  destruct (Ascii.eqb c "="); [discriminate|].
  destruct (split_once "=" key) as [[b a]|]; [discriminate|].
  now rewrite IH.
Qed.

Lemma parse_cid_line_entry (data : Dict.t string) (key value : string) :
  cid_entry (key, value) ->
  parse_cid_line data (key ++ "=" ++ value) = Dict.assign data key value.
Proof.
  intros (Hs & _ & _ & Hk & Hv). cbn [fst snd] in *.
  unfold parse_cid_line.
  destruct (String.eqb_spec (key ++ "=" ++ value) "") as [E|_].
  - destruct key; discriminate E.
  - now rewrite split_once_app, Hk, Hv.
Qed.

Lemma str_splitlines_cid_text (entries : list (string * string)) :
  Forall cid_entry entries ->
  str_splitlines (cid_text entries)
  = map (fun e => (fst e ++ "=" ++ snd e)%string) entries.
Proof.
  induction 1 as [|[key value] entries He _ IH]; [reflexivity|].
  cbn [cid_text map fst snd].
  replace (key ++ "=" ++ value ++ LF ++ cid_text entries)%string
    with ((key ++ "=" ++ value) ++ LF ++ cid_text entries)%string
    by now rewrite !append_assoc.
  rewrite str_splitlines_line, IH; [reflexivity|].
  destruct He as (_ & Hk & Hv & _). now apply no_linebreak_app_eq.
Qed.

Lemma parse_cid_lines_entries (entries : list (string * string)) :
  Forall cid_entry entries ->
  forall data,
    fold_left parse_cid_line
              (map (fun e => (fst e ++ "=" ++ snd e)%string) entries) data
    = fold_left (fun d e => Dict.assign d (fst e) (snd e)) entries data.
Proof.
  induction 1 as [|[key value] entries He _ IH]; intros data; [reflexivity|].
  cbn [map fold_left fst snd]. now rewrite parse_cid_line_entry, IH.
Qed.

Lemma get_app {V : Type} (d1 d2 : Dict.t V) (k : string) :
  Dict.get (d1 ++ d2) k
  = match Dict.get d1 k with
    | Some v => Some v
    | None => Dict.get d2 k
    end.
Proof.
  induction d1 as [|[k' v'] d1 IH]; [reflexivity|].
  cbn [app Dict.get]. now destruct (String.eqb k' k).
Qed.

Lemma get_assign {V : Type} (d : Dict.t V) (k k0 : string) (v : V) :
  Dict.get (Dict.assign d k v) k0
  = if String.eqb k k0 then Some v else Dict.get d k0.
Proof.
  destruct (String.eqb_spec k k0) as [<-|Hne].
  - apply get_assign_same.
  - apply get_assign_other. congruence.
Qed.

Lemma get_fold_assign {V : Type} (entries : list (string * V)) :
  forall (data : Dict.t V) (k : string),
    Dict.get (fold_left (fun d e => Dict.assign d (fst e) (snd e)) entries data) k
    = match Dict.get (rev entries) k with
      | Some v => Some v
      | None => Dict.get data k
      end.
Proof.
  induction entries as [|[k' v'] entries IH]; intros data k; [reflexivity|].
  cbn [fold_left fst snd rev]. rewrite IH, get_app, get_assign.
  cbn [Dict.get]. destruct (Dict.get (rev entries) k); [reflexivity|].
  now destruct (String.eqb k' k).
Qed.

(** A text of lines [key=value] is read as the assignments of its lines,
    one after the other. *)
Lemma parse_cid_text_entries (entries : list (string * string)) :
  Forall cid_entry entries ->
  parse_cid_text (cid_text entries)
  = fold_left (fun d e => Dict.assign d (fst e) (snd e)) entries [].
Proof.
  intros H. unfold parse_cid_text.
  now rewrite str_splitlines_cid_text, parse_cid_lines_entries.
Qed.

(** X17.  In a [.cid] file of lines [key=value], the value read for a key is the
    one of the last line that sets the key; a key no line sets is absent. *)
Theorem parse_cid_text_last_line (entries : list (string * string)) (key : string) :
  Forall cid_entry entries ->
  Dict.get (parse_cid_text (cid_text entries)) key = Dict.get (rev entries) key.
Proof.
  intros H. rewrite parse_cid_text_entries, get_fold_assign by exact H.
  now destruct (Dict.get (rev entries) key).
Qed.

Lemma parse_cid_text_last_line_witness :
  Dict.get (parse_cid_text
              (cid_text [("cid", "QmPhoto"); ("iv", "00ff"); ("name", "a.enc");
                         ("iv", "000102030405060708090a0b0c0d0e0f")]%string))
           "iv"
  = Some "000102030405060708090a0b0c0d0e0f"%string.
Proof.
  apply (parse_cid_text_last_line
           [("cid", "QmPhoto"); ("iv", "00ff"); ("name", "a.enc");
            ("iv", "000102030405060708090a0b0c0d0e0f")]%string "iv").
  repeat constructor.
Defined.

(** ** The address asked of the IPFS API *)

Lemma all_ascii_complete (c : ascii) : In c all_ascii.
Proof.
  unfold all_ascii. rewrite <- (ascii_nat_embedding c).
  apply in_map, in_seq. pose proof (nat_ascii_bounded c). lia.
Qed.

Lemma for_all_ascii (P : ascii -> bool) :
  forallb P all_ascii = true -> forall c, P c = true.
Proof.
  intros H c. rewrite forallb_forall in H. apply H, all_ascii_complete.
Qed.

Lemma for_all_ascii2 (P : ascii -> ascii -> bool) :
  forallb (fun a => forallb (P a) all_ascii) all_ascii = true ->
  forall a b, P a b = true.
Proof.
  intros H a b.
  apply (for_all_ascii (P a)), (for_all_ascii (fun a => forallb (P a) all_ascii)), H.
Qed.

Lemma quote_char_url (c : ascii) :
  forallb url_char (list_ascii_of_string (quote_char c)) = true.
Proof.
  revert c. apply for_all_ascii. vm_compute. reflexivity.
Qed.

Lemma list_ascii_of_string_app (a b : string) :
  list_ascii_of_string (a ++ b) = list_ascii_of_string a ++ list_ascii_of_string b.
Proof. induction a as [|c a IH]; simpl; [reflexivity|now rewrite IH]. Qed.

Lemma quote_url (s : string) :
  forallb url_char (list_ascii_of_string (quote s)) = true.
Proof.
  induction s as [|c s IH]; [reflexivity|].
  cbn [quote]. rewrite list_ascii_of_string_app, forallb_app, quote_char_url, IH.
  reflexivity.
Qed.

(** X18.  Whatever the identifier read from the [.cid] file, the address
    [ipfs_cat] asks for is the fixed address of the API followed by letters,
    digits and the characters [_ . - ~ / %] only: the identifier adds no
    second argument, no fragment and no white space to it. *)
Theorem ipfs_cat_url_safe (cid : string) :
  exists arg,
    ipfs_cat_url cid = ("http://127.0.0.1:5001/api/v0/cat?arg=" ++ arg)%string
    /\ String.prefix "/ipfs/" arg = true
    /\ forallb url_char (list_ascii_of_string arg) = true.
Proof.
  exists (quote ("/ipfs/" ++ cid)). split; [reflexivity|].
  split; [|apply quote_url].
  cbn [append quote]. cbn. now destruct (quote cid).
Qed.

(** ** Two identifiers, two addresses *)

Lemma percent_not_safe : quote_safe "%" = false.
Proof. reflexivity. Qed.

(** The two digits [quote] writes for a byte tell the byte. *)
Lemma percent_digits_inj (c1 c2 : ascii) :
  upper_hexdigit (N_of_ascii c1 / 16) = upper_hexdigit (N_of_ascii c2 / 16) ->
  upper_hexdigit (N_of_ascii c1 mod 16) = upper_hexdigit (N_of_ascii c2 mod 16) ->
  c1 = c2.
Proof.
  intros Hh Hl.
  assert (H : forall a b,
            implb (Ascii.eqb (upper_hexdigit (N_of_ascii a / 16))
                             (upper_hexdigit (N_of_ascii b / 16))
                   && Ascii.eqb (upper_hexdigit (N_of_ascii a mod 16))
                                (upper_hexdigit (N_of_ascii b mod 16)))
                  (Ascii.eqb a b) = true).
  { apply (for_all_ascii2
             (fun a b =>
                implb (Ascii.eqb (upper_hexdigit (N_of_ascii a / 16))
                                 (upper_hexdigit (N_of_ascii b / 16))
                       && Ascii.eqb (upper_hexdigit (N_of_ascii a mod 16))
                                    (upper_hexdigit (N_of_ascii b mod 16)))
                      (Ascii.eqb a b))).
    vm_compute. reflexivity. }
  specialize (H c1 c2). rewrite Hh, Hl, !Ascii.eqb_refl in H.
  now apply Ascii.eqb_eq.
Qed.

Lemma quote_cons_inj (c1 c2 : ascii) (r1 r2 : string) :
  (quote_char c1 ++ r1 = quote_char c2 ++ r2)%string -> c1 = c2 /\ r1 = r2.
Proof.
  unfold quote_char. fold (quote_safe c1) (quote_safe c2).
  destruct (quote_safe c1) eqn:E1, (quote_safe c2) eqn:E2; cbn [append].
  - intros [= -> ->]. auto.
  - intros [= -> _]. now rewrite percent_not_safe in E1.
  - intros [= <- _]. now rewrite percent_not_safe in E2.
  - intros [= Hh Hl ->]. split; [|reflexivity].
    now apply percent_digits_inj.
Qed.

Lemma quote_char_not_empty (c : ascii) (r : string) :
  (quote_char c ++ r)%string <> EmptyString.
Proof. unfold quote_char. destruct (_ || _); discriminate. Qed.

Lemma quote_inj (s1 s2 : string) : quote s1 = quote s2 -> s1 = s2.
Proof.
  revert s2. induction s1 as [|c1 s1 IH]; intros [|c2 s2]; cbn [quote]; intros H.
  - reflexivity.
  - symmetry in H. now apply quote_char_not_empty in H.
  - now apply quote_char_not_empty in H.
  - apply quote_cons_inj in H. destruct H as [-> H]. now rewrite (IH s2 H).
Qed.

Lemma append_inv_head (a b c : string) : (a ++ b = a ++ c)%string -> b = c.
Proof.
  induction a as [|x a IH]; cbn [append]; [auto|].
  intros [= H]. auto.
Qed.

(** X19.  Two identifiers that differ are asked for at two addresses that
    differ. *)
Theorem ipfs_cat_url_distinct (cid1 cid2 : string) :
  cid1 <> cid2 -> ipfs_cat_url cid1 <> ipfs_cat_url cid2.
Proof.
  intros Hne H. apply Hne. unfold ipfs_cat_url in H.
  apply append_inv_head, quote_inj, append_inv_head in H. exact H.
Qed.

Lemma ipfs_cat_url_distinct_witness :
  ipfs_cat_url "Qm a" <> ipfs_cat_url "Qm%20a".
Proof.
  apply ipfs_cat_url_distinct. discriminate.
Defined.

(** ** The script [decrypt_from_cid.py] *)

Section DecryptFromCidProperties.
Import DecryptFromCid.

Ltac main_cases :=
  unfold main, parse_cid_file, ipfs_cat, io_bind, io_lift, io_ret, fmap, bind;
  repeat match goal with
         | |- context [match ?x with _ => _ end] =>
             lazymatch x with
             | context [match _ with _ => _ end] => fail
             | _ => destruct x eqn:?
             end; cbn [bind app] in *
         end.

(** X20.  [main] writes a file exactly when it returns 0, and its only
    other exit status is 1.  What it writes is the plaintext that
    [decrypt_aes_cbc] returns, under the key of the command line and the IV
    of the [.cid] file, for the ciphertext it has taken: the content of the
    file of [--enc], read without a request; or else the answer of the IPFS
    API to the one request for the [cid] entry; or else, without a [cid]
    entry, the answer to the one request for [dir_cid/name].  It writes to
    the path of [--out], or to the stem of the [.cid] file with [.jpg], and
    it does nothing else. *)
Theorem main_writes_plaintext (w : World) (args : Args)
    (effects : list effect) (r : result Z) :
  main w args = (effects, r) ->
  (r = Ok 0%Z <-> exists path data, In (Written path data) effects)
  /\ (forall status, r = Ok status -> status = 0%Z \/ status = 1%Z)
  /\ (forall path data,
        In (Written path data) effects ->
        exists text iv cipher_bytes,
          read_text w (cid_file args) = Ok text
          /\ fromhex (Dict.get_or (parse_cid_text text) "iv" EmptyString) = Ok iv
          /\ (let meta := parse_cid_text text in
              let file_cid := Dict.get_or meta "cid" EmptyString in
              let dir_cid := Dict.get_or meta "dir_cid" EmptyString in
              let name := Dict.get_or meta "name" EmptyString in
              (truthy (enc args) = true
               /\ read_bytes w (text_of (enc args)) = Ok cipher_bytes
               /\ effects = [Written path data])
              \/ (truthy (enc args) = false
                  /\ file_cid <> EmptyString
                  /\ urlopen w (ipfs_cat_url file_cid) = Ok cipher_bytes
                  /\ effects = [Posted (ipfs_cat_url file_cid); Written path data])
              \/ (truthy (enc args) = false
                  /\ file_cid = EmptyString
                  /\ dir_cid <> EmptyString /\ name <> EmptyString
                  /\ urlopen w (ipfs_cat_url (dir_cid ++ "/" ++ name))
                     = Ok cipher_bytes
                  /\ effects = [Posted (ipfs_cat_url (dir_cid ++ "/" ++ name));
                                Written path data]))
          /\ decrypt_aes_cbc cipher_bytes (utf8 (key args)) iv = Ok data
          /\ path = (if truthy (out args) then text_of (out args)
                     else (stem w (cid_file args) ++ ".jpg")%string)
          /\ write_bytes w path data = Ok tt).
Proof.
  main_cases; intros [= <- <-];
    (split; [split; [try discriminate|intros (p & d & Hin)]|split; [intros s [= <-]; auto|intros p d Hin]]);
    cbn [In] in *;
    repeat match goal with
           | H : _ \/ _ |- _ => destruct H
           | H : False |- _ => destruct H
           | H : Posted _ = Written _ _ |- _ => discriminate H
           | H : Written _ _ = Written _ _ |- _ => injection H as <- <-
           | u : unit |- _ => destruct u
           end;
    try reflexivity; try (intros _; eauto 6).
  all: repeat match goal with
              | H : negb _ = true |- _ => apply negb_true_iff in H
              | H : negb _ = false |- _ => apply negb_false_iff in H
              | H : _ && _ = true |- _ => apply andb_true_iff in H; destruct H
              | H : String.eqb _ _ = true |- _ => apply String.eqb_eq in H
              | H : String.eqb _ _ = false |- _ => apply String.eqb_neq in H
              end.
  all: do 3 eexists; split; [reflexivity|]; split; [eassumption|];
    (split; [|repeat split; (reflexivity || eassumption)]);
    first [ solve [left; repeat split; (reflexivity || eassumption)]
          | solve [right; left; repeat split; (reflexivity || eassumption)]
          | solve [right; right; repeat split; (reflexivity || eassumption)] ].
Qed.

Lemma main_sample_world :
  main sample_world
       {| cid_file := "photo.cid"; key := "0123456789ABCDEF";
          out := None; enc := None |}
  = ([Posted "http://127.0.0.1:5001/api/v0/cat?arg=/ipfs/QmPhoto";
      Written "photo.jpg" (utf8 "photo content here, 37 bytes long....")],
     Ok 0%Z).
Proof. vm_compute. reflexivity. Qed.

Lemma main_writes_plaintext_witness :
  exists text iv cipher_bytes,
    read_text sample_world "photo.cid" = Ok text
    /\ fromhex (Dict.get_or (parse_cid_text text) "iv" EmptyString) = Ok iv
    /\ urlopen sample_world (ipfs_cat_url "QmPhoto") = Ok cipher_bytes
    /\ decrypt_aes_cbc cipher_bytes (utf8 "0123456789ABCDEF") iv
       = Ok (utf8 "photo content here, 37 bytes long....")
    /\ write_bytes sample_world "photo.jpg"
                   (utf8 "photo content here, 37 bytes long....") = Ok tt.
Proof.
  destruct (main_writes_plaintext _ _ _ _ main_sample_world) as (_ & _ & H).
  destruct (H "photo.jpg"%string (utf8 "photo content here, 37 bytes long...."))
    as (text & iv & cipher_bytes & Ht & Hiv & Hsrc & Hdec & _ & Hw).
  { right. left. reflexivity. }
  exists text, iv, cipher_bytes.
  split; [exact Ht|]. split; [exact Hiv|]. split; [|split; [exact Hdec|exact Hw]].
  injection Ht as <-.
  destruct Hsrc as [(He & _)|[(_ & _ & Hu & _)|(_ & Hc & _)]].
  - discriminate He.
  - exact Hu.
  - discriminate Hc.
Defined.

(** X21.  With a file given by [--enc], nothing is asked of the IPFS API. *)
Theorem main_enc_offline (w : World) (args : Args)
    (effects : list effect) (r : result Z) :
  truthy (enc args) = true ->
  main w args = (effects, r) ->
  forall url, ~ In (Posted url) effects.
Proof.
  intros He. main_cases; try congruence; intros [= <- <-] url Hin;
    cbn [In] in Hin;
    repeat match goal with
           | H : _ \/ _ |- _ => destruct H
           | H : False |- _ => destruct H
           | H : Written _ _ = Posted _ |- _ => discriminate H
           end.
Qed.

Lemma main_enc_local_file :
  main {| path_exists := path_exists sample_world;
          read_text := read_text sample_world;
          read_bytes := fun _ => Ok sample_ciphertext;
          write_bytes := write_bytes sample_world;
          stem := stem sample_world;
          urlopen := fun _ => Raise (Exception "URLError") |}
       {| cid_file := "photo.cid"; key := "0123456789ABCDEF";
          out := Some "out.jpg"%string; enc := Some "photo.enc"%string |}
  = ([Written "out.jpg" (utf8 "photo content here, 37 bytes long....")], Ok 0%Z).
Proof. vm_compute. reflexivity. Qed.

Lemma main_enc_offline_witness :
  ~ In (Posted "http://127.0.0.1:5001/api/v0/cat?arg=/ipfs/QmPhoto")
       [Written "out.jpg" (utf8 "photo content here, 37 bytes long....")].
Proof.
  refine (main_enc_offline _ _ _ _ _ main_enc_local_file _). reflexivity.
Defined.

(** X22.  Without an IV that can be used -- the [.cid] file sets none, sets an
    empty one, or sets one that is not hexadecimal -- [main] returns 1
    before it asks for anything or writes anything. *)
Theorem main_needs_iv (w : World) (args : Args) (text : string) :
  read_text w (cid_file args) = Ok text ->
  (forall iv,
     Dict.get_or (parse_cid_text text) "iv" EmptyString <> EmptyString ->
     fromhex (Dict.get_or (parse_cid_text text) "iv" EmptyString) <> Ok iv) ->
  main w args = ([], Ok 1%Z).
Proof.
  intros Ht Hiv. unfold main, parse_cid_file, io_bind, io_lift, io_ret.
  destruct (negb _); [reflexivity|].
  rewrite Ht. cbn [bind].
  destruct (String.eqb_spec (Dict.get_or (parse_cid_text text) "iv" EmptyString) "")
    as [E|E]; [reflexivity|].
  destruct (fromhex _) as [iv|e] eqn:Ef; [|reflexivity].
  exfalso. now apply (Hiv iv).
Qed.

Lemma main_needs_iv_witness :
  main {| path_exists := path_exists sample_world;
          read_text := fun _ => Ok (cid_text [("cid", "QmPhoto"); ("iv", "0g")]%string);
          read_bytes := read_bytes sample_world;
          write_bytes := write_bytes sample_world;
          stem := stem sample_world;
          urlopen := urlopen sample_world |}
       {| cid_file := "photo.cid"; key := "0123456789ABCDEF";
          out := None; enc := None |}
  = ([], Ok 1%Z).
Proof.
  apply (main_needs_iv _ _ (cid_text [("cid", "QmPhoto"); ("iv", "0g")]%string)).
  - reflexivity.
  - intros iv _. vm_compute. discriminate.
Defined.

(** ** From the [.cid] file to the photo *)

Lemma hexdigit_not_space (n : N) :
  (n < 16)%N -> is_ascii_space (hexdigit n) = false.
Proof.
  intros H. rewrite <- (N2Nat.id n).
  assert (Hin : In (N.to_nat n) (seq 0 16)) by (apply in_seq; lia).
  revert Hin. generalize (N.to_nat n). apply Forall_forall.
  repeat constructor.
Qed.

(** [bytes.fromhex] reads back what [hex] writes. *)
Lemma fromhex_hex (b : bytes) : fromhex (hex b) = Ok b.
Proof.
  induction b as [|x b IH]; [reflexivity|].
  cbn [hex fromhex].
  rewrite (hexdigit_not_space _ (high_nibble_lt x)).
  rewrite (hexval_hexdigit _ (high_nibble_lt x)),
          (hexval_hexdigit _ (low_nibble_lt x)).
  rewrite IH. cbn [bind]. now rewrite byte_of_nibbles.
Qed.

Lemma decrypt_aes_cbc_iv_length (ciphertext key iv plain : bytes) :
  decrypt_aes_cbc ciphertext key iv = Ok plain -> length iv = 16.
Proof.
  unfold decrypt_aes_cbc.
  destruct (negb (length key =? 16)); [discriminate|].
  destruct (Nat.eqb_spec (length iv) 16); [auto|discriminate].
Qed.

(** X23.  The script end to end.  The [.cid] file is made of lines [key=value]
    whose last [cid] is an identifier and whose last [iv] is an IV in
    hexadecimal; no [--enc] is given; the IPFS API answers the request for
    the identifier with a ciphertext that [decrypt_aes_cbc] decrypts under
    the key of the command line and the IV; the output path can be written.
    Then [main] asks the API once, for that identifier, writes the plaintext
    to the output path ([--out], or the stem of the [.cid] file with [.jpg])
    and returns 0. *)
Theorem main_decrypts_photo (w : World) (args : Args)
    (entries : list (string * string)) (cid : string)
    (iv cipher_bytes plain : bytes) :
  path_exists w (cid_file args) = true ->
  read_text w (cid_file args) = Ok (cid_text entries) ->
  Forall cid_entry entries ->
  Dict.get (rev entries) "cid" = Some cid -> cid <> EmptyString ->
  Dict.get (rev entries) "iv" = Some (hex iv) ->
  truthy (enc args) = false ->
  urlopen w (ipfs_cat_url cid) = Ok cipher_bytes ->
  decrypt_aes_cbc cipher_bytes (utf8 (key args)) iv = Ok plain ->
  let out_path :=
    if truthy (out args) then text_of (out args)
    else (stem w (cid_file args) ++ ".jpg")%string in
  write_bytes w out_path plain = Ok tt ->
  main w args = ([Posted (ipfs_cat_url cid); Written out_path plain], Ok 0%Z).
Proof.
  intros Hex Htext Hentries Hcid Hcne Hiv Henc Hurl Hdec out_path Hwrite.
  assert (Hl : length iv = 16) by exact (decrypt_aes_cbc_iv_length _ _ _ _ Hdec).
  assert (Hget : forall key,
            Dict.get (parse_cid_text (cid_text entries)) key
            = Dict.get (rev entries) key).
  { intros key. rewrite parse_cid_text_entries, get_fold_assign by exact Hentries.
    now destruct (Dict.get (rev entries) key). }
  unfold main, parse_cid_file, ipfs_cat, io_bind, io_lift, io_ret.
  rewrite Hex, Htext. cbn [negb bind].
  unfold Dict.get_or. rewrite !Hget, Hcid, Hiv.
  destruct (String.eqb_spec (hex iv) "") as [E|_].
  { destruct iv; [discriminate Hl|discriminate E]. }
  rewrite fromhex_hex, Henc.
  destruct (String.eqb_spec cid ""); [contradiction|]. cbn [negb].
  rewrite Hurl. cbn [app]. rewrite Hdec.
  fold out_path. rewrite Hwrite. reflexivity.
Qed.

Lemma main_decrypts_photo_witness :
  main sample_world
       {| cid_file := "photo.cid"; key := "0123456789ABCDEF";
          out := None; enc := None |}
  = ([Posted (ipfs_cat_url "QmPhoto");
      Written "photo.jpg" (utf8 "photo content here, 37 bytes long....")],
     Ok 0%Z).
Proof.
  apply (main_decrypts_photo sample_world
           {| cid_file := "photo.cid"; key := "0123456789ABCDEF";
              out := None; enc := None |}
           [("cid", "QmPhoto"); ("iv", "000102030405060708090a0b0c0d0e0f")]%string
           "QmPhoto" (map byte_of_nat (seq 0 16)) sample_ciphertext
           (utf8 "photo content here, 37 bytes long....")).
  - reflexivity.
  - reflexivity.
  - repeat constructor.
  - reflexivity.
  - discriminate.
  - reflexivity.
  - reflexivity.
  - reflexivity.
  - exact decrypt_sample_ciphertext.
  - reflexivity.
Defined.

End DecryptFromCidProperties.

(** ** Instances with the pure-Python backend at the key 1 *)

Lemma native_sign_sample :
  exists signed,
    sign_photo (backend := native.backend) key_one (PBytes (repeat xab 32))
               "Building A - Entrance" "Motion detected" 0 = Ok signed.
Proof.
  apply (native_sign_photo_returns key_one (PBytes (repeat xab 32))
           "Building A - Entrance" "Motion detected" 0 _
           (Keccak.keccak256
              (repeat xab 32 ++ utf8 "Building A - Entrance"
                 ++ utf8 "Motion detected" ++ be_bytes 32 (Z.to_N 0)))
           native_account_of_key_one).
  apply solidity_keccak_photo; [now left|discriminate|lia].
Qed.

Lemma native_signature_shape_witness :
  exists signed,
    sign_photo (backend := native.backend) key_one (PBytes (repeat xab 32))
               "Building A - Entrance" "Motion detected" 0 = Ok signed
    /\ String.length (Signed.signature signed) = 130
    /\ (Signed.v signed = 27 \/ Signed.v signed = 28)%N.
Proof.
  destruct native_sign_sample as [signed Hs].
  destruct (native_signature_shape _ _ _ _ _ _ Hs) as (Hl & Hv & _).
  exists signed. split; [exact Hs|]. split; [exact Hl|exact Hv].
Defined.

Lemma load_credentials_returns_witness :
  exists data stored_key,
    In ("cam1"%string, data)
       [("cam1", [("address", "0x00"); ("privateKey", "01")])]%string
    /\ Dict.get data "privateKey" = Some stored_key
    /\ "0x01"%string
       = (if String.prefix "0x" stored_key then stored_key
          else "0x" ++ stored_key)%string.
Proof.
  destruct (load_credentials_returns
              (Json [("cam1", [("address", "0x00"); ("privateKey", "01")])]%string)
              (Some "CAM1"%string) None
              {| Credentials.camera_id := "cam1";
                 Credentials.address := "0x00";
                 Credentials.private_key := "0x01";
                 Credentials.mnemonic := "";
                 Credentials.created_at := "" |} eq_refl)
    as (_ & cameras & data & stored_key & Hf & Hin & _ & Hk & Hp).
  injection Hf as <-. cbn [Credentials.camera_id Credentials.private_key] in *.
  exists data, stored_key. split; [exact Hin|]. split; [exact Hk|exact Hp].
Defined.

Lemma save_wallet_from_api_matching_key_witness :
  exists file',
    save_wallet_from_api (backend := native.backend)
      (fun _ => Ok [("output",
                     [("walletAddress", "0x7e5f4552091a69125d5dfcb7b8c2659029395bdf")])]%string)
      " 0000000000000000000000000000000000000000000000000000000000000001 "
      "2026-01-01T00:00:00" "ab02" NoFile = Ok file'
    /\ (file' = NoFile
        \/ exists private_key account,
             (private_key
              = str_strip " 0000000000000000000000000000000000000000000000000000000000000001 "
              \/ private_key
                 = ("0x" ++ str_strip " 0000000000000000000000000000000000000000000000000000000000000001 ")%string)
             /\ String.prefix "0x" private_key = true
             /\ eth_account.from_key (backend := native.backend) (PStr private_key)
                = Ok account
             /\ str_lower (eth_account.address account)
                = str_lower "0x7e5f4552091a69125d5dfcb7b8c2659029395bdf"
             /\ load_private_key "ab02" file'
                = Ok [("address", eth_account.address account);
                      ("privateKey", private_key);
                      ("mnemonic", "");
                      ("createdAt", "2026-01-01T00:00:00")]%string).
Proof.
  apply (save_wallet_from_api_matching_key (backend := native.backend) _ _ _ _ _
           [("walletAddress", "0x7e5f4552091a69125d5dfcb7b8c2659029395bdf")]%string);
    reflexivity.
Defined.

(** ** SHA-256: the digest has 32 bytes *)

Lemma step_length (st : list N) (kw : N * N) :
  length st = 8 -> length (SHA256.step st kw) = 8.
Proof.
  intros H.
  destruct st as [|a [|b [|c [|d [|e [|f [|g [|h [|i st]]]]]]]]];
    try discriminate H. reflexivity.
Qed.

Lemma fold_step_length (kws : list (N * N)) (st : list N) :
  length st = 8 -> length (fold_left SHA256.step kws st) = 8.
Proof.
  revert st. induction kws as [|kw kws IH]; intros st H; [exact H|].
  cbn [fold_left]. now apply IH, step_length.
Qed.

Lemma compress_length (h : list N) (block : bytes) :
  length h = 8 -> length (SHA256.compress h block) = 8.
Proof.
  intros H. unfold SHA256.compress.
  rewrite length_map, length_combine, fold_step_length, H by exact H.
  reflexivity.
Qed.

Lemma fold_compress_length (blocks : list bytes) (h : list N) :
  length h = 8 -> length (fold_left SHA256.compress blocks h) = 8.
Proof.
  revert h. induction blocks as [|b blocks IH]; intros h H; [exact H|].
  cbn [fold_left]. now apply IH, compress_length.
Qed.

Lemma flat_map_be_bytes_length (m : nat) (l : list N) :
  length (flat_map (be_bytes m) l) = m * length l.
Proof.
  induction l as [|x l IH]; cbn [flat_map length]; [lia|].
  rewrite length_app, be_bytes_length, IH. lia.
Qed.

Lemma sha256_length (data : bytes) : length (SHA256.sha256 data) = 32.
Proof.
  unfold SHA256.sha256.
  rewrite flat_map_be_bytes_length, fold_compress_length; reflexivity.
Qed.

(** ** The script [sign_photo.py] *)

Section SignPhotoScriptProperties.
Import SignPhotoScript.

Section MainProperties.
Context {backend : ECCBackend}.

(** X24.  What the script signs.  When [main] returns for a photo and a nonce
    that fits in 256 bits, the dictionary it writes names the camera whose
    credentials [load_credentials] found, holds [0x] and the SHA-256 digest
    of the bytes of the photo as photo hash, and carries the signature of
    the backend, with the key of that camera, over the Keccak-256 digest of
    the personal-message prefix and the Keccak-256 digest of the SHA-256
    digest, the location, the metadata and the 32 bytes of the nonce. *)
Theorem main_signs_photo_digest (fs : Files) (args : Args) (photo_data : bytes)
    (output : Output) :
  open_rb fs (photo args) = Some photo_data ->
  (0 <= nonce args < 2 ^ 256)%Z ->
  main fs args = Ok output ->
  exists creds account v r s,
    load_credentials (open_json fs (credentials args)) (Some (camera_id args)) None
    = Ok (Some creds)
    /\ eth_account.from_key (PStr (Credentials.private_key creds)) = Ok account
    /\ output_camera_id output = Credentials.camera_id creds
    /\ Signed.photo_hash (signed_data output)
       = PStr ("0x" ++ hex (SHA256.sha256 photo_data))
    /\ Signed.camera_address (signed_data output) = eth_account.address account
    /\ ecdsa_sign
         (Keccak.keccak256
            (personal_message_prefix
               ++ Keccak.keccak256
                    (SHA256.sha256 photo_data ++ utf8 (location args)
                       ++ utf8 (metadata args)
                       ++ be_bytes 32 (Z.to_N (nonce args)))))
         (eth_account.key account) = Ok (v, r, s)
    /\ Signed.signature (signed_data output)
       = hex (eth_account.to_bytes32 r ++ eth_account.to_bytes32 s
                ++ eth_account.int_to_big_endian (v + 27)).
Proof.
  intros Hopen Hnonce. unfold main. rewrite Hopen. cbn [bind].
  destruct (load_credentials _ _ _) as [[creds|]|] eqn:El;
    [|discriminate|discriminate].
  cbn [bind]. rewrite sign_photo_chain.
  destruct (eth_account.from_key _) as [account|] eqn:Ek; [|discriminate].
  cbn [bind with_0x_prefix]. rewrite prefix_0x_0x. cbn [negb].
  assert (Hne : SHA256.sha256 photo_data <> []).
  { intros E. pose proof (sha256_length photo_data) as H.
    rewrite E in H. discriminate H. }
  rewrite (solidity_keccak_photo (SHA256.sha256 photo_data) _ _ _ _
             (or_intror (ex_intro _ _ (conj eq_refl (unhexlify_hex _))))
             Hne Hnonce).
  cbn [bind].
  destruct (ecdsa_sign _ _) as [[[v r] s]|] eqn:Es; [|discriminate].
  cbn [bind]. intros [= <-].
  exists creds, account, v, r, s.
  split; [reflexivity|]. split; [exact Ek|]. repeat split. exact Es.
Qed.

End MainProperties.

Lemma main_sample_files :
  exists output, main (backend := native.backend) sample_files sample_args = Ok output.
Proof.
  destruct (native_sign_photo_returns key_one
              (PStr ("0x" ++ hex (SHA256.sha256 (utf8 "photo"))))
              "Building A - Entrance" "Motion detected" 0 _
              (Keccak.keccak256
                 (SHA256.sha256 (utf8 "photo") ++ utf8 "Building A - Entrance"
                    ++ utf8 "Motion detected" ++ be_bytes 32 (Z.to_N 0)))
              native_account_of_key_one) as [signed Hs].
  - cbn [with_0x_prefix]. rewrite prefix_0x_0x. cbn [negb].
    apply solidity_keccak_photo; [|  |lia].
    + right. eexists. split; [reflexivity|apply unhexlify_hex].
    + intros E. pose proof (sha256_length (utf8 "photo")) as H.
      rewrite E in H. discriminate H.
  - exists {| signed_data := signed; output_camera_id := "ab02" |}.
    unfold main, sample_files, sample_args.
    cbn [open_rb open_json photo credentials camera_id location metadata nonce bind].
    assert (Hl : load_credentials
                   (Json [("ab02",
                           [("address", "0x7E5F4552091A69125d5DfCb7b8C2659029395Bdf");
                            ("privateKey",
                             "0000000000000000000000000000000000000000000000000000000000000001")])]%string)
                   (Some "0xAB02"%string) None
                 = Ok (Some {| Credentials.camera_id := "ab02";
                               Credentials.address := "0x7E5F4552091A69125d5DfCb7b8C2659029395Bdf";
                               Credentials.private_key := "0x0000000000000000000000000000000000000000000000000000000000000001";
                               Credentials.mnemonic := "";
                               Credentials.created_at := "" |}))
      by reflexivity.
    rewrite Hl. cbn [bind Credentials.private_key Credentials.camera_id].
    fold key_one. rewrite Hs. reflexivity.
Qed.

Lemma main_signs_photo_digest_witness :
  exists output,
    main (backend := native.backend) sample_files sample_args = Ok output
    /\ output_camera_id output = "ab02"%string
    /\ Signed.photo_hash (signed_data output)
       = PStr ("0x" ++ hex (SHA256.sha256 (utf8 "photo")))
    /\ Signed.camera_address (signed_data output)
       = "0x7E5F4552091A69125d5DfCb7b8C2659029395Bdf"%string.
Proof.
  destruct main_sample_files as [output Hm].
  destruct (main_signs_photo_digest (backend := native.backend)
              sample_files sample_args (utf8 "photo") output eq_refl)
    as (creds & account & v & r & s & Hl & Hk & Hid & Hph & Ha & _);
    [cbn; lia|exact Hm|].
  assert (Hc : creds = {| Credentials.camera_id := "ab02";
                          Credentials.address := "0x7E5F4552091A69125d5DfCb7b8C2659029395Bdf";
                          Credentials.private_key := "0x0000000000000000000000000000000000000000000000000000000000000001";
                          Credentials.mnemonic := "";
                          Credentials.created_at := "" |}).
  { cbn in Hl. now injection Hl as <-. }
  subst creds. cbn [Credentials.private_key Credentials.camera_id] in *.
  fold key_one in Hk. rewrite native_account_of_key_one in Hk.
  injection Hk as <-. cbn [eth_account.address] in Ha.
  exists output. split; [exact Hm|]. split; [exact Hid|]. split; [exact Hph|exact Ha].
Defined.

End SignPhotoScriptProperties.
